(** * Scopus ID extractor: validation, cache, lookup client, batch runner

    A shallow embedding of [scopus_id_extractor.py] and the properties of
    its validator, result cache, lookup client and checkpointed main loop.

    Modelling conventions.
    - In the pipeline a Python [str] is a [string] whose characters are
      the code points 0..255 (Latin-1); [lower], [strip] and the
      character classes of the regular expression engine are Python's on
      that range.  The validator and the line reader are given a second
      time on strings of arbitrary code points (module [Unicode]), where
      [strip], [\d] and [re.IGNORECASE] use the tables of Unicode 14.0;
      the two versions agree on Latin-1 text.
    - A [dict] used as a map is a [gmap]; a [dict] used as a record is a
      [Record].
    - Module globals ([interrupt_flag], the three counters), the cache
      object and the files the script reads and writes are fields of one
      [state] that every function threads explicitly.  A write of a file
      is taken to succeed, and no signal arrives while a function runs:
      the interrupt flag is read from the state.
    - The remote services are [services]: one answer per request, as the
      lookup calls read it.  A [network] is the special case of answers
      whose members have the documented types.
    - [time.sleep n] advances the [clock] field by [n];
      [datetime.now()] reads it. *)

From stdpp Require Import gmap strings list fin_maps pretty.
From Stdlib Require Import Ascii ZArith Lia.


(* ================================================================== *)
(** ** Python strings on Latin-1 *)
(* ================================================================== *)

Module PyStr.

Definition code (c : ascii) : nat := nat_of_ascii c.

Definition between (lo hi : nat) (c : ascii) : bool :=
  (lo <=? code c)%nat && (code c <=? hi)%nat.

(** [str.isspace] for one character: TAB..CR, FS..US, SPACE, NEL, NBSP. *)
Definition isspace (c : ascii) : bool :=
  between 9 13 c || between 28 32 c || (code c =? 133)%nat || (code c =? 160)%nat.

(** Characters with a lowercase mapping: A-Z, and the Latin-1 capitals
    U+00C0..U+00DE without the multiplication sign U+00D7. *)
Definition isupper (c : ascii) : bool :=
  between 65 90 c || between 192 214 c || between 216 222 c.

(** Characters whose uppercase mapping stays inside Latin-1: a-z and
    U+00E0..U+00FE without the division sign U+00F7.  (The capitals of
    U+00B5 and U+00FF lie beyond U+00FF.) *)
Definition islower_l1 (c : ascii) : bool :=
  between 97 122 c || between 224 246 c || between 248 254 c.

Definition lower_char (c : ascii) : ascii :=
  if isupper c then ascii_of_nat (code c + 32) else c.

Definition upper_char (c : ascii) : ascii :=
  if islower_l1 c then ascii_of_nat (code c - 32) else c.

(** [s.lower()] *)
Fixpoint lower (s : string) : string :=
  match s with
  | EmptyString => EmptyString
  | String c r => String (lower_char c) (lower r)
  end.

(** [s.lstrip()] *)
Fixpoint lstrip (s : string) : string :=
  match s with
  | EmptyString => EmptyString
  | String c r => if isspace c then lstrip r else s
  end.

(** [s.rstrip()] *)
Fixpoint rstrip (s : string) : string :=
  match s with
  | EmptyString => EmptyString
  | String c r =>
      match rstrip r with
      | EmptyString => if isspace c then EmptyString else String c EmptyString
      | r' => String c r'
      end
  end.

(** [s.strip()]: the left index moves right over whitespace, then the
    right index moves left. *)
Definition strip (s : string) : string := rstrip (lstrip s).

(** [s[:n]] for [0 <= n] *)
Fixpoint take_chars (n : nat) (s : string) : string :=
  match n, s with
  | S k, String c r => String c (take_chars k r)
  | _, _ => EmptyString
  end.

(** [s.startswith(p)] *)
Fixpoint startswith (p s : string) : bool :=
  match p, s with
  | EmptyString, _ => true
  | String a p', String b s' => if Ascii.eqb a b then startswith p' s' else false
  | String _ _, EmptyString => false
  end.

(** [s.replace(old, new)] for a non-empty [old]: a left-to-right scan
    that skips the matched characters.  [skip] counts the characters of
    the current match still to be dropped. *)
Fixpoint replace_go (old new : string) (skip : nat) (s : string) : string :=
  match s with
  | EmptyString => EmptyString
  | String c r =>
      match skip with
      | S k => replace_go old new k r
      | O =>
          if startswith old s
          then new +:+ replace_go old new (String.length old - 1) r
          else String c (replace_go old new 0 r)
      end
  end.

Definition replace (old new s : string) : string := replace_go old new 0 s.

(** Python truthiness of an [Optional[str]]: [None] and the empty string are falsy. *)
Definition truthy (o : option string) : bool :=
  match o with
  | Some (String _ _) => true
  | _ => false
  end.

End PyStr.

Import PyStr.

(* ================================================================== *)
(** ** Regular expressions ([re]) *)
(* ================================================================== *)

Module Re.

(** Pattern syntax, with character classes as predicates. *)
Inductive regex : Type :=
| Never
| Empty
| Class (p : ascii -> bool)
| Seq (r1 r2 : regex)
| Or (r1 r2 : regex)
| Many (r : regex).

Fixpoint nullable (r : regex) : bool :=
  match r with
  | Never => false
  | Empty => true
  | Class _ => false
  | Seq r1 r2 => nullable r1 && nullable r2
  | Or r1 r2 => nullable r1 || nullable r2
  | Many _ => true
  end.

(** Derivative of a pattern by one character. *)
Fixpoint deriv (c : ascii) (r : regex) : regex :=
  match r with
  | Never => Never
  | Empty => Never
  | Class p => if p c then Empty else Never
  | Seq r1 r2 =>
      if nullable r1
      then Or (Seq (deriv c r1) r2) (deriv c r2)
      else Seq (deriv c r1) r2
  | Or r1 r2 => Or (deriv c r1) (deriv c r2)
  | Many r1 => Seq (deriv c r1) (Many r1)
  end.

(** The whole string is in the language of the pattern. *)
Fixpoint fullmatch (r : regex) (s : string) : bool :=
  match s with
  | EmptyString => nullable r
  | String c s' => fullmatch (deriv c r) s'
  end.

(** [r{n}] *)
Fixpoint times (n : nat) (r : regex) : regex :=
  match n with
  | O => Empty
  | S k => Seq r (times k r)
  end.

(** [r{0,n}] *)
Fixpoint upto (n : nat) (r : regex) : regex :=
  match n with
  | O => Empty
  | S k => Or Empty (Seq r (upto k r))
  end.

(** [r{lo,hi}] *)
Definition repeat (lo hi : nat) (r : regex) : regex :=
  Seq (times lo r) (upto (hi - lo) r).

(** [r+] *)
Definition plus (r : regex) : regex := Seq r (Many r).

(** A literal character under [re.IGNORECASE]: compared after lowering. *)
Definition lit (a : ascii) : regex :=
  Class (fun c => Ascii.eqb (lower_char c) (lower_char a)).

(** A bracketed set under [re.IGNORECASE]: the character belongs to it
    when its lowercase or its uppercase does. *)
Definition ignorecase (set : ascii -> bool) : ascii -> bool :=
  fun c => set (lower_char c) || set (upper_char c).

(** [\d] on Latin-1: the only decimal digits below U+0100 are 0-9
    ([Unicode.isdecimal] has the full table). *)
Definition digit (c : ascii) : bool := between 48 57 c.

(** [$] as the last item of a pattern: the end of the string, or the
    position before a newline that ends the string. *)
Definition dollar : regex := Or Empty (Class (Ascii.eqb "010"%char)).

End Re.

Import Re.

(* ================================================================== *)
(** ** Configuration *)
(* ================================================================== *)

Definition DELAY_BETWEEN_REQUESTS : nat := 1.
Definition MIN_TITLE_LENGTH : nat := 10.

(** The set [[-._;()/:A-Z0-9]]. *)
Definition DOI_CHARSET (c : ascii) : bool :=
  Ascii.eqb c "-" || Ascii.eqb c "." || Ascii.eqb c "_" || Ascii.eqb c ";"
  || Ascii.eqb c "(" || Ascii.eqb c ")" || Ascii.eqb c "/" || Ascii.eqb c ":"
  || between 65 90 c || between 48 57 c.

(** [re.compile(r'^10\.\d{4,9}/[-._;()/:A-Z0-9]+$', re.IGNORECASE)] on
    Latin-1 text ([Unicode.DOI_PATTERN] is the pattern on every code
    point).  [DOI_PATTERN.match] anchors at the start, so with the
    closing [$] a match is a full match of this expression. *)
Definition DOI_PATTERN : regex :=
  Seq (lit "1")
 (Seq (lit "0")
 (Seq (lit ".")
 (Seq (repeat 4 9 (Class digit))
 (Seq (lit "/")
 (Seq (plus (Class (ignorecase DOI_CHARSET)))
      dollar))))).

(* ================================================================== *)
(** ** Validation ([InputValidator]) *)
(* ================================================================== *)

Definition validate_doi (doi : string) : bool * string :=
  let doi := strip doi in
  match doi with
  | EmptyString => (false, "Empty DOI")
  | _ =>
      if negb (fullmatch DOI_PATTERN doi)
      then (false, "Invalid DOI format: " +:+ doi)
      else (true, EmptyString)
  end.

Definition validate_title (title : string) : bool * string :=
  let title := strip title in
  match title with
  | EmptyString => (false, "Empty title")
  | _ =>
      if (String.length title <? MIN_TITLE_LENGTH)%nat
      then (false, "Title too short (min " +:+ pretty MIN_TITLE_LENGTH
                     +:+ " chars): " +:+ take_chars 50 title)
      else (true, EmptyString)
  end.

(** The body of the [for i, item in enumerate(items)] loop of
    [detect_duplicates]; [i] is the index of the head of [items]. *)
Fixpoint detect_duplicates_loop (items : list string) (i : nat)
    (seen : gmap string nat) (unique : list string)
    (duplicates : list (nat * string * nat))
  : list string * list (nat * string * nat) :=
  match items with
  | [] => (unique, duplicates)
  | item :: rest =>
      let normalized := strip (lower item) in
      match seen !! normalized with
      | Some first =>
          detect_duplicates_loop rest (S i) seen unique
            (duplicates ++ [(i + 1, item, first + 1)])
      | None =>
          detect_duplicates_loop rest (S i) (<[normalized := i]> seen)
            (unique ++ [item]) duplicates
      end
  end.

Definition detect_duplicates (items : list string)
  : list string * list (nat * string * nat) :=
  detect_duplicates_loop items 0 ∅ [] [].

(** The dictionary returned by [validate_batch]. *)
Record report : Type := {
  rep_total : nat;
  rep_valid : nat;
  rep_invalid : nat;
  rep_invalid_items : list (nat * string * string);
  rep_unique : nat;
  rep_duplicates : nat;
  rep_duplicate_items : list (nat * string * nat);
  rep_unique_items : list string
}.

(** The first loop of [validate_batch]. *)
Fixpoint validate_batch_loop (validate_fn : string -> bool * string)
    (items : list string) (i : nat)
    (valid_items : list string) (invalid_items : list (nat * string * string))
  : list string * list (nat * string * string) :=
  match items with
  | [] => (valid_items, invalid_items)
  | item :: rest =>
      let '(is_valid, error_msg) := validate_fn item in
      if is_valid
      then validate_batch_loop validate_fn rest (S i) (valid_items ++ [item]) invalid_items
      else validate_batch_loop validate_fn rest (S i) valid_items
             (invalid_items ++ [(i + 1, item, error_msg)])
  end.

Definition validate_batch (items : list string) (search_mode : string) : report :=
  let validate_fn := if String.eqb search_mode "doi" then validate_doi else validate_title in
  let '(valid_items, invalid_items) := validate_batch_loop validate_fn items 0 [] [] in
  let '(unique_items, duplicates) := detect_duplicates valid_items in
  {| rep_total := length items;
     rep_valid := length valid_items;
     rep_invalid := length invalid_items;
     rep_invalid_items := invalid_items;
     rep_unique := length unique_items;
     rep_duplicates := length duplicates;
     rep_duplicate_items := duplicates;
     rep_unique_items := unique_items |}.

(* ================================================================== *)
(** ** Program state *)
(* ================================================================== *)

(** A value of the cache dictionary: the dictionary literal passed to
    [ResultCache.set] plus the [cached_at] stamp.  A key that is absent
    reads as [None], as with [dict.get]. *)
Record cache_entry : Type := {
  ce_title : option string;
  ce_scopus_id : option string;
  ce_doi : option string;
  ce_source : string;
  ce_cached_at : option nat
}.

(** One row of the results list (and of the CSV file). *)
Inductive row : Type :=
| DoiRow (doi : string) (title scopus_id : option string)
| TitleRow (search_title : string) (found_title scopus_id doi : option string).

Definition row_scopus_id (r : row) : option string :=
  match r with
  | DoiRow _ _ sid => sid
  | TitleRow _ _ sid _ => sid
  end.

(** The item a row was produced for. *)
Definition row_item (r : row) : string :=
  match r with
  | DoiRow doi _ _ => doi
  | TitleRow search_title _ _ _ => search_title
  end.

(** The checkpoint document: [metadata] and [results]. *)
Record checkpoint : Type := {
  cp_search_mode : string;
  cp_total_items : nat;
  cp_last_processed_index : nat;
  cp_timestamp : nat;
  cp_results : list row
}.

(** The figures printed under SUMMARY by [save_final_results]. *)
Record summary : Type := {
  sm_search_mode : string;
  sm_total : nat;
  sm_found : nat;
  sm_not_found : nat;
  sm_api_requests : nat;
  sm_cache_hits : nat;
  sm_errors : nat
}.

Record state : Type := {
  (* module globals *)
  interrupt_flag : bool;
  requests_made : nat;
  errors_count : nat;
  cache_hits : nat;
  (* time *)
  clock : nat;
  (* ResultCache.cache *)
  cache : gmap string cache_entry;
  (* files; [None] is a file that does not exist *)
  cache_file : option (gmap string cache_entry);
  checkpoint_file : option checkpoint;
  output_file : option (list row);
  validation_report_file : option (string * report);
  (* the last summary printed *)
  printed_summary : option summary
}.

Definition with_requests_made (n : nat) (st : state) : state :=
  {| interrupt_flag := interrupt_flag st; requests_made := n;
     errors_count := errors_count st; cache_hits := cache_hits st;
     clock := clock st; cache := cache st; cache_file := cache_file st;
     checkpoint_file := checkpoint_file st; output_file := output_file st;
     validation_report_file := validation_report_file st;
     printed_summary := printed_summary st |}.

Definition with_errors_count (n : nat) (st : state) : state :=
  {| interrupt_flag := interrupt_flag st; requests_made := requests_made st;
     errors_count := n; cache_hits := cache_hits st;
     clock := clock st; cache := cache st; cache_file := cache_file st;
     checkpoint_file := checkpoint_file st; output_file := output_file st;
     validation_report_file := validation_report_file st;
     printed_summary := printed_summary st |}.

Definition with_cache_hits (n : nat) (st : state) : state :=
  {| interrupt_flag := interrupt_flag st; requests_made := requests_made st;
     errors_count := errors_count st; cache_hits := n;
     clock := clock st; cache := cache st; cache_file := cache_file st;
     checkpoint_file := checkpoint_file st; output_file := output_file st;
     validation_report_file := validation_report_file st;
     printed_summary := printed_summary st |}.

Definition with_clock (n : nat) (st : state) : state :=
  {| interrupt_flag := interrupt_flag st; requests_made := requests_made st;
     errors_count := errors_count st; cache_hits := cache_hits st;
     clock := n; cache := cache st; cache_file := cache_file st;
     checkpoint_file := checkpoint_file st; output_file := output_file st;
     validation_report_file := validation_report_file st;
     printed_summary := printed_summary st |}.

(** Replaces the in-memory cache and the cache file together. *)
Definition with_cache (c : gmap string cache_entry)
    (f : option (gmap string cache_entry)) (st : state) : state :=
  {| interrupt_flag := interrupt_flag st; requests_made := requests_made st;
     errors_count := errors_count st; cache_hits := cache_hits st;
     clock := clock st; cache := c; cache_file := f;
     checkpoint_file := checkpoint_file st; output_file := output_file st;
     validation_report_file := validation_report_file st;
     printed_summary := printed_summary st |}.

Definition with_checkpoint_file (c : option checkpoint) (st : state) : state :=
  {| interrupt_flag := interrupt_flag st; requests_made := requests_made st;
     errors_count := errors_count st; cache_hits := cache_hits st;
     clock := clock st; cache := cache st; cache_file := cache_file st;
     checkpoint_file := c; output_file := output_file st;
     validation_report_file := validation_report_file st;
     printed_summary := printed_summary st |}.

Definition with_output_file (o : option (list row)) (st : state) : state :=
  {| interrupt_flag := interrupt_flag st; requests_made := requests_made st;
     errors_count := errors_count st; cache_hits := cache_hits st;
     clock := clock st; cache := cache st; cache_file := cache_file st;
     checkpoint_file := checkpoint_file st; output_file := o;
     validation_report_file := validation_report_file st;
     printed_summary := printed_summary st |}.

Definition with_validation_report_file (v : option (string * report)) (st : state) : state :=
  {| interrupt_flag := interrupt_flag st; requests_made := requests_made st;
     errors_count := errors_count st; cache_hits := cache_hits st;
     clock := clock st; cache := cache st; cache_file := cache_file st;
     checkpoint_file := checkpoint_file st; output_file := output_file st;
     validation_report_file := v;
     printed_summary := printed_summary st |}.

Definition with_printed_summary (p : option summary) (st : state) : state :=
  {| interrupt_flag := interrupt_flag st; requests_made := requests_made st;
     errors_count := errors_count st; cache_hits := cache_hits st;
     clock := clock st; cache := cache st; cache_file := cache_file st;
     checkpoint_file := checkpoint_file st; output_file := output_file st;
     validation_report_file := validation_report_file st;
     printed_summary := p |}.

(** [time.sleep(n)] *)
Definition sleep (n : nat) (st : state) : state := with_clock (clock st + n) st.

(** Exceptions that leave a function. *)
Inductive exn : Type :=
| KeyboardInterrupt
| KeyError
| FileNotFoundError
| AttributeError.

(** The result of running a statement sequence: a value, or a raised
    exception, each with the state reached. *)
Inductive outcome (A : Type) : Type :=
| Ok (a : A) (st : state)
| Raise (e : exn) (st : state).

Arguments Ok {A} a st.
Arguments Raise {A} e st.

Definition M (A : Type) : Type := state -> outcome A.

Definition ret {A : Type} (a : A) : M A := fun st => Ok a st.

Definition bind {A B : Type} (m : M A) (k : A -> M B) : M B :=
  fun st =>
    match m st with
    | Ok a st' => k a st'
    | Raise e st' => Raise e st'
    end.

Definition raise {A : Type} (e : exn) : M A := fun st => Raise e st.

(** Runs a state update as a statement. *)
Definition modify (f : state -> state) : M unit := fun st => Ok tt (f st).

Definition final_state {A : Type} (o : outcome A) : state :=
  match o with
  | Ok _ st => st
  | Raise _ st => st
  end.

Declare Scope py_scope.
Delimit Scope py_scope with py.
Notation "'let*' x ':=' m 'in' k" := (bind m (fun x => k))
  (at level 10, x pattern, m at level 100, k at level 200) : py_scope.
Notation "m ;;; k" := (bind m (fun _ => k))
  (at level 63, right associativity) : py_scope.

(* ================================================================== *)
(** ** Cache ([ResultCache]) *)
(* ================================================================== *)

(** [ResultCache._load_cache]: a missing file is an empty cache. *)
Definition _load_cache (st : state) : gmap string cache_entry :=
  match cache_file st with
  | Some c => c
  | None => ∅
  end.

(** [ResultCache.get] *)
Definition ResultCache_get (key : string) (st : state) : option cache_entry :=
  let normalized_key := strip (lower key) in
  cache st !! normalized_key.

(** [ResultCache.set]: stamp, store, [_save_cache].  The write is taken
    to succeed, so that the file holds the whole dictionary afterwards;
    [_save_cache] opens the file for writing and swallows what goes
    wrong, so a write that fails would leave the file cut short. *)
Definition ResultCache_set (key : string) (value : cache_entry) (st : state) : state :=
  let normalized_key := strip (lower key) in
  let value := {| ce_title := ce_title value; ce_scopus_id := ce_scopus_id value;
                  ce_doi := ce_doi value; ce_source := ce_source value;
                  ce_cached_at := Some (clock st) |} in
  let c := <[normalized_key := value]> (cache st) in
  with_cache c (Some c) st.

(** [ResultCache.clear], with a write that succeeds. *)
Definition ResultCache_clear (st : state) : state := with_cache ∅ (Some ∅) st.

(* ================================================================== *)
(** ** Remote services *)
(* ================================================================== *)

(** What [requests.get] gives: a [RequestException], or a response with
    its status code and its decoded JSON body. *)
Inductive http_result (A : Type) : Type :=
| RequestException
| Response (status_code : nat) (json : A).

Arguments RequestException {A}.
Arguments Response {A} status_code json.

(** An element of [data['search-results']['entry']]. *)
Record scopus_entry : Type := {
  dc_title : option string;
  eid : option string;
  prism_doi : option string
}.

(** An element of [data['results']] of the works search: its [title],
    and [ids['doi']] when [ids] is non-empty and has that key. *)
Record openalex_result : Type := {
  oa_title : option string;
  oa_ids_doi : option string
}.

(** The answers of the two services.  A missing or empty list in the
    body is [[]]. *)
Record network : Type := {
  (* GET SCOPUS_SEARCH_API, query DOI(doi) *)
  scopus_by_doi : string -> string -> http_result (list scopus_entry);
  (* GET api.openalex.org/works/https://doi.org/doi; the body's title *)
  openalex_by_doi : string -> http_result (option string);
  (* GET SCOPUS_SEARCH_API, query TITLE(title), count 1 *)
  scopus_by_title : string -> string -> http_result (list scopus_entry);
  (* GET api.openalex.org/works, search title, per-page 1 *)
  openalex_by_title : string -> http_result (list openalex_result)
}.

(** An element of [data['results']] as the title search reads it.  The
    member [ids['doi']] is [None] when [ids] is missing, null or empty or
    has no such member, [Some (Some s)] when it is the string [s], and
    [Some None] when it is there and is no string (null, a number, a
    list, ...). *)
Record openalex_work : Type := {
  work_title : option string;
  work_ids_doi : option (option string)
}.

(** The answers of the two services as the lookup calls read them.  The
    body of an answer decodes to a JSON object; [search-results] is an
    object whose [entry] is a list of objects, and [results] is a list
    of objects whose [ids] is an object when it is there (a missing,
    null or empty list is [[]]).  A [network] is the special case of
    answers in which every [ids['doi']] that is present is a string. *)
Record services : Type := {
  ask_scopus_by_doi : string -> string -> http_result (list scopus_entry);
  ask_openalex_by_doi : string -> http_result (option string);
  ask_scopus_by_title : string -> string -> http_result (list scopus_entry);
  ask_openalex_by_title : string -> http_result (list openalex_work)
}.

Definition text_doi (r : openalex_result) : openalex_work :=
  {| work_title := oa_title r; work_ids_doi := Some <$> oa_ids_doi r |}.

Definition decoded (net : network) : services :=
  {| ask_scopus_by_doi := scopus_by_doi net;
     ask_openalex_by_doi := openalex_by_doi net;
     ask_scopus_by_title := scopus_by_title net;
     ask_openalex_by_title := fun title =>
       match openalex_by_title net title with
       | RequestException => RequestException
       | Response status_code results => Response status_code (text_doi <$> results)
       end |}.

Coercion decoded : network >-> services.

(* ================================================================== *)
(** ** Lookup client and item processing *)
(* ================================================================== *)

Section Client.

Variable svc : services.

Local Open Scope py_scope.

Definition count_request : M unit :=
  modify (fun st => with_requests_made (requests_made st + 1) st).

Definition count_error : M unit :=
  modify (fun st => with_errors_count (errors_count st + 1) st).

Definition check_interrupt : M unit :=
  fun st => if interrupt_flag st then Raise KeyboardInterrupt st else Ok tt st.

Definition search_scopus_api (doi api_key : string)
  : M (option string * option string) :=
  check_interrupt ;;;
  count_request ;;;
  match ask_scopus_by_doi svc doi api_key with
  | Response status_code data =>
      if (status_code =? 200)%nat then
        match data with
        | entry :: _ => ret (dc_title entry, eid entry)
        | [] => count_error ;;; ret (None, None)
        end
      else if (status_code =? 401)%nat then
        count_error ;;; ret (None, None)
      else if (status_code =? 429)%nat then
        modify (sleep 5) ;;; count_error ;;; ret (None, None)
      else
        count_error ;;; ret (None, None)
  | RequestException => count_error ;;; ret (None, None)
  end.

Definition search_openalex_doi (doi : string) : M (option string) :=
  check_interrupt ;;;
  count_request ;;;
  match ask_openalex_by_doi svc doi with
  | Response status_code title =>
      if (status_code =? 200)%nat then ret title
      else count_error ;;; ret None
  | RequestException => count_error ;;; ret None
  end.

Definition search_scopus_api_title (title api_key : string)
  : M (option string * option string * option string) :=
  check_interrupt ;;;
  count_request ;;;
  match ask_scopus_by_title svc title api_key with
  | Response status_code data =>
      if (status_code =? 200)%nat then
        match data with
        | entry :: _ => ret (dc_title entry, eid entry, prism_doi entry)
        | [] => count_error ;;; ret (None, None, None)
        end
      else if (status_code =? 401)%nat then
        count_error ;;; ret (None, None, None)
      else if (status_code =? 429)%nat then
        modify (sleep 5) ;;; count_error ;;; ret (None, None, None)
      else
        count_error ;;; ret (None, None, None)
  | RequestException => count_error ;;; ret (None, None, None)
  end.

Definition search_openalex_title (title : string)
  : M (option string * option string) :=
  check_interrupt ;;;
  count_request ;;;
  match ask_openalex_by_title svc title with
  | Response status_code data =>
      if (status_code =? 200)%nat then
        match data with
        | result :: _ =>
            match work_ids_doi result with
            | Some (Some doi) =>
                ret (work_title result,
                     Some (replace "https://doi.org/" EmptyString doi))
            | Some None => raise AttributeError
            | None => ret (work_title result, None)
            end
        | [] => count_error ;;; ret (None, None)
        end
      else count_error ;;; ret (None, None)
  | RequestException => count_error ;;; ret (None, None)
  end.

(** The dictionary returned by [process_doi_item]. *)
Record doi_result : Type := {
  dr_doi : string;
  dr_title : option string;
  dr_scopus_id : option string;
  dr_cached : bool
}.

(** The dictionary returned by [process_title_item]. *)
Record title_result : Type := {
  tr_search_title : string;
  tr_found_title : option string;
  tr_scopus_id : option string;
  tr_doi : option string;
  tr_cached : bool
}.

(** A cache entry always holds keys, so [if cached_result:] is the test
    for [cache.get] returning a dictionary. *)
Definition process_doi_item (item api_key : string) (use_cache : bool)
  : M doi_result :=
  fun st =>
  let cached_result := if use_cache then ResultCache_get item st else None in
  match cached_result with
  | Some cached =>
      Ok {| dr_doi := item; dr_title := ce_title cached;
            dr_scopus_id := ce_scopus_id cached; dr_cached := true |}
         (with_cache_hits (cache_hits st + 1) st)
  | None =>
      (let* (title, scopus_id) := search_scopus_api item api_key in
       let* title := (if negb (truthy scopus_id)
                      then search_openalex_doi item
                      else ret title) in
       let result := {| dr_doi := item; dr_title := title;
                        dr_scopus_id := scopus_id; dr_cached := false |} in
       (if truthy scopus_id && use_cache
        then modify (ResultCache_set item
                       {| ce_title := title; ce_scopus_id := scopus_id;
                          ce_doi := None; ce_source := "scopus";
                          ce_cached_at := None |})
        else ret tt) ;;;
       modify (sleep DELAY_BETWEEN_REQUESTS) ;;;
       ret result) st
  end.

Definition process_title_item (item api_key : string) (use_cache : bool)
  : M title_result :=
  fun st =>
  let cached_result := if use_cache then ResultCache_get item st else None in
  match cached_result with
  | Some cached =>
      Ok {| tr_search_title := item; tr_found_title := ce_title cached;
            tr_scopus_id := ce_scopus_id cached; tr_doi := ce_doi cached;
            tr_cached := true |}
         (with_cache_hits (cache_hits st + 1) st)
  | None =>
      (let* (title_found, scopus_id, doi) := search_scopus_api_title item api_key in
       let* (title_found, doi) := (if negb (truthy scopus_id)
                                   then search_openalex_title item
                                   else ret (title_found, doi)) in
       let result := {| tr_search_title := item; tr_found_title := title_found;
                        tr_scopus_id := scopus_id; tr_doi := doi;
                        tr_cached := false |} in
       (if truthy scopus_id && use_cache
        then modify (ResultCache_set item
                       {| ce_title := title_found; ce_scopus_id := scopus_id;
                          ce_doi := doi; ce_source := "scopus";
                          ce_cached_at := None |})
        else ret tt) ;;;
       modify (sleep DELAY_BETWEEN_REQUESTS) ;;;
       ret result) st
  end.

End Client.

(* ================================================================== *)
(** ** Files: input, validation report, checkpoint, results *)
(* ================================================================== *)

Local Open Scope py_scope.

(** [load_items_from_file], on the lines of the file ([None]: no file). *)
Definition load_items_from_file (file : option (list string)) : M (list string) :=
  match file with
  | None => raise FileNotFoundError
  | Some lines =>
      ret (filter (fun line => line ≠ EmptyString) (map strip lines))
  end.

Definition save_validation_report (r : report) (search_mode : string) : M unit :=
  modify (with_validation_report_file (Some (search_mode, r))).

Definition load_checkpoint : M (option checkpoint) :=
  fun st => Ok (checkpoint_file st) st.

Definition save_checkpoint (metadata : string * nat * nat * nat) (results : list row)
  : M unit :=
  let '(search_mode, total_items, last_processed_index, timestamp) := metadata in
  modify (with_checkpoint_file
            (Some {| cp_search_mode := search_mode;
                     cp_total_items := total_items;
                     cp_last_processed_index := last_processed_index;
                     cp_timestamp := timestamp;
                     cp_results := results |})).

(** [notna] of the [scopus_id] column. *)
Definition notna (r : row) : bool :=
  match row_scopus_id r with
  | Some _ => true
  | None => false
  end.

(** [save_final_results]: the CSV is written first; selecting the
    [scopus_id] column of a frame built from no rows raises [KeyError],
    which the [except IOError] clause does not catch. *)
Definition save_final_results (results : list row) (search_mode : string) : M unit :=
  modify (with_output_file (Some results)) ;;;
  match results with
  | [] => raise KeyError
  | _ =>
      let successful := length (filter (fun r => notna r = true) results) in
      let failed := length (filter (fun r => notna r = false) results) in
      modify (fun st =>
        with_printed_summary
          (Some {| sm_search_mode := search_mode;
                   sm_total := length results;
                   sm_found := successful;
                   sm_not_found := failed;
                   sm_api_requests := requests_made st;
                   sm_cache_hits := cache_hits st;
                   sm_errors := errors_count st |}) st)
  end.

(* ================================================================== *)
(** ** Main *)
(* ================================================================== *)

(** The parsed command line. *)
Record args : Type := {
  arg_doi : bool;
  arg_title : bool;
  arg_limit : option Z;
  arg_workers : Z;
  arg_resume : bool;
  arg_skip_duplicates : bool;
  arg_no_cache : bool;
  arg_dry_run : bool;
  arg_test_key : bool;
  arg_reset_key : bool;
  arg_cache_stats : bool;
  arg_clear_cache : bool
}.

(** What the run reads from outside: the two input files (their lines)
    and the key that [load_or_prompt_scopus_key] returns. *)
Record inputs : Type := {
  dois_txt : option (list string);
  titles_txt : option (list string);
  scopus_key : string
}.

(** [items[start:]] *)
Definition slice_from {A : Type} (start : nat) (items : list A) : list A :=
  drop start items.

(** [items[start:stop]] for [0 <= start]; a negative [stop] counts from
    the end. *)
Definition slice {A : Type} (start : nat) (stop : Z) (items : list A) : list A :=
  let n := Z.of_nat (length items) in
  let stop := if (stop <? 0)%Z then Z.max 0 (n + stop) else Z.min stop n in
  take (Z.to_nat stop - start) (drop start items).

(** The conditional on [args.skip_duplicates] that rebinds [items]. *)
Definition select_items (skip_duplicates : bool) (validation_report : report)
  : list string :=
  if skip_duplicates && (0 <? rep_duplicates validation_report)%nat
  then rep_unique_items validation_report
  else rep_unique_items validation_report.

Section Main.

Variable svc : services.

(** The [for i, item in enumerate(items, 1)] loop of [main].  It returns
    the [results] list as it stands when the loop is left, with the
    outcome of the loop. *)
Fixpoint main_loop (search_mode api_key : string) (use_cache : bool)
    (start_index original_count : nat)
    (items : list string) (i : nat) (results : list row) (st : state)
  : list row * outcome unit :=
  match items with
  | [] => (results, Ok tt st)
  | item :: rest =>
      if interrupt_flag st then (results, Raise KeyboardInterrupt st)
      else
        let absolute_index := start_index + i in
        let processed :=
          if String.eqb search_mode "doi" then
            (let* result := process_doi_item svc item api_key use_cache in
             ret (DoiRow (dr_doi result) (dr_title result) (dr_scopus_id result))) st
          else
            (let* result := process_title_item svc item api_key use_cache in
             ret (TitleRow (tr_search_title result) (tr_found_title result)
                    (tr_scopus_id result) (tr_doi result))) st in
        match processed with
        | Raise e st' => (results, Raise e st')
        | Ok r st' =>
            let results := (results ++ [r])%list in
            let st' :=
              if (i mod 10 =? 0)%nat
              then final_state
                     (save_checkpoint
                        (search_mode, original_count, absolute_index, clock st')
                        results st')
              else st' in
            main_loop search_mode api_key use_cache start_index original_count
              rest (S i) results st'
        end
  end.

(** The part of [main] after the working set is chosen: restore the
    checkpoint, cut the list, run the loop, write the results. *)
Definition process_working_set (a : args) (api_key search_mode : string)
    (original_count : nat) (items : list string) : M unit :=
  let* (start_index, existing_results) :=
    (if arg_resume a then
       let* checkpoint := load_checkpoint in
       match checkpoint with
       | Some cp => ret (cp_last_processed_index cp, cp_results cp)
       | None => ret (0, [])
       end
     else ret (0, [])) in
  let items :=
    match arg_limit a with
    | Some limit =>
        if (limit =? 0)%Z then slice_from start_index items
        else slice start_index (Z.of_nat start_index + limit) items
    | None => slice_from start_index items
    end in
  match items with
  | [] =>
      match existing_results with
      | [] => ret tt
      | _ => save_final_results existing_results search_mode
      end
  | _ =>
      fun st =>
      let '(results, o) :=
        main_loop search_mode api_key (negb (arg_no_cache a))
          start_index original_count items 1 existing_results st in
      match o with
      | Ok _ st' => save_final_results results search_mode st'
      | Raise KeyboardInterrupt st' =>
          save_final_results results search_mode st'
      | Raise e st' =>
          match save_final_results results search_mode st' with
          | Ok _ st'' => Raise e st''
          | Raise e' st'' => Raise e' st''
          end
      end
  end.

(** [main], after argument parsing.  [ResultCache(CACHE_FILE)] loads the
    cache file into memory. *)
Definition main (a : args) (inp : inputs) : M unit :=
  modify (fun st => with_cache (_load_cache st) (cache_file st) st) ;;;
  if arg_cache_stats a then ret tt
  else if arg_clear_cache a then modify ResultCache_clear
  else if arg_reset_key a then ret tt
  else
    let api_key := scopus_key inp in
    match api_key with
    | EmptyString => ret tt
    | _ =>
    if arg_test_key a then ret tt
    else if negb (arg_doi a) && negb (arg_title a) then ret tt
    else
      let search_mode := if arg_title a then "title" else "doi" in
      let input_file := if arg_title a then titles_txt inp else dois_txt inp in
      let* items := load_items_from_file input_file in
      let original_count := length items in
      let validation_report := validate_batch items search_mode in
      (if (0 <? rep_invalid validation_report)%nat
          || (0 <? rep_duplicates validation_report)%nat
       then save_validation_report validation_report search_mode
       else ret tt) ;;;
      let items := select_items (arg_skip_duplicates a) validation_report in
      if arg_dry_run a then ret tt
      else process_working_set a api_key search_mode original_count items
    end.

End Main.

(** The state in which a new process starts: globals at their initial
    values, files as the previous state [st] left them. *)
Definition start_process (st : state) (now : nat) : state :=
  {| interrupt_flag := false; requests_made := 0; errors_count := 0;
     cache_hits := 0; clock := now; cache := ∅;
     cache_file := cache_file st; checkpoint_file := checkpoint_file st;
     output_file := output_file st;
     validation_report_file := validation_report_file st;
     printed_summary := None |}.

(** One run of the script. *)
Definition run (svc : services) (a : args) (inp : inputs) (st : state) (now : nat)
  : outcome unit :=
  main svc a inp (start_process st now).

(* ================================================================== *)
(** ** The validator on every code point *)
(* ================================================================== *)

(** The definitions above read Latin-1 text.  [str.strip], [\d] and
    [re.IGNORECASE] look at every code point of a [str], so the validator
    and the line reader are given here a second time, on strings of
    arbitrary code points, with the tables of Unicode 14.0 (the character
    database of CPython 3.11).  On Latin-1 text both versions agree
    ([validate_doi_latin1], [load_items_latin1]). *)

Module Unicode.

(** A [str] as the list of its code points. *)
Definition str : Type := list N.

(** The code points of a Latin-1 string. *)
Fixpoint of_string (s : string) : str :=
  match s with
  | EmptyString => []
  | String c r => N_of_ascii c :: of_string r
  end.

Definition in_ranges (table : list (N * N)) (c : N) : bool :=
  existsb (fun r => (r.1 <=? c)%N && (c <=? r.2)%N) table.

(** The code points for which [str.isspace] holds, which are the ones
    that [str.strip] removes. *)
Definition whitespace : list (N * N) :=
  [
    (0x0009, 0x000D); (0x001C, 0x0020); (0x0085, 0x0085); (0x00A0, 0x00A0);
    (0x1680, 0x1680); (0x2000, 0x200A); (0x2028, 0x2029); (0x202F, 0x202F);
    (0x205F, 0x205F); (0x3000, 0x3000)
  ]%N.

Definition isspace (c : N) : bool := in_ranges whitespace c.

(** The decimal digits (general category Nd), which are the code points
    that [\d] matches in a [str] pattern. *)
Definition decimal_digits : list (N * N) :=
  [
    (0x0030, 0x0039); (0x0660, 0x0669); (0x06F0, 0x06F9); (0x07C0, 0x07C9);
    (0x0966, 0x096F); (0x09E6, 0x09EF); (0x0A66, 0x0A6F); (0x0AE6, 0x0AEF);
    (0x0B66, 0x0B6F); (0x0BE6, 0x0BEF); (0x0C66, 0x0C6F); (0x0CE6, 0x0CEF);
    (0x0D66, 0x0D6F); (0x0DE6, 0x0DEF); (0x0E50, 0x0E59); (0x0ED0, 0x0ED9);
    (0x0F20, 0x0F29); (0x1040, 0x1049); (0x1090, 0x1099); (0x17E0, 0x17E9);
    (0x1810, 0x1819); (0x1946, 0x194F); (0x19D0, 0x19D9); (0x1A80, 0x1A89);
    (0x1A90, 0x1A99); (0x1B50, 0x1B59); (0x1BB0, 0x1BB9); (0x1C40, 0x1C49);
    (0x1C50, 0x1C59); (0xA620, 0xA629); (0xA8D0, 0xA8D9); (0xA900, 0xA909);
    (0xA9D0, 0xA9D9); (0xA9F0, 0xA9F9); (0xAA50, 0xAA59); (0xABF0, 0xABF9);
    (0xFF10, 0xFF19); (0x104A0, 0x104A9); (0x10D30, 0x10D39); (0x11066, 0x1106F);
    (0x110F0, 0x110F9); (0x11136, 0x1113F); (0x111D0, 0x111D9); (0x112F0, 0x112F9);
    (0x11450, 0x11459); (0x114D0, 0x114D9); (0x11650, 0x11659); (0x116C0, 0x116C9);
    (0x11730, 0x11739); (0x118E0, 0x118E9); (0x11950, 0x11959); (0x11C50, 0x11C59);
    (0x11D50, 0x11D59); (0x11DA0, 0x11DA9); (0x16A60, 0x16A69); (0x16AC0, 0x16AC9);
    (0x16B50, 0x16B59); (0x1D7CE, 0x1D7FF); (0x1E140, 0x1E149); (0x1E2F0, 0x1E2F9);
    (0x1E950, 0x1E959); (0x1FBF0, 0x1FBF9)
  ]%N.

Definition isdecimal (c : N) : bool := in_ranges decimal_digits c.

(** [s.lstrip()] *)
Fixpoint lstrip (s : str) : str :=
  match s with
  | [] => []
  | c :: r => if isspace c then lstrip r else s
  end.

(** [s.rstrip()] *)
Fixpoint rstrip (s : str) : str :=
  match s with
  | [] => []
  | c :: r =>
      match rstrip r with
      | [] => if isspace c then [] else [c]
      | r' => c :: r'
      end
  end.

(** [s.strip()] *)
Definition strip (s : str) : str := rstrip (lstrip s).

(** Patterns, as in [Re], with classes of code points. *)
Inductive regex : Type :=
| Never
| Empty
| Class (p : N -> bool)
| Seq (r1 r2 : regex)
| Or (r1 r2 : regex)
| Many (r : regex).

Fixpoint nullable (r : regex) : bool :=
  match r with
  | Never => false
  | Empty => true
  | Class _ => false
  | Seq r1 r2 => nullable r1 && nullable r2
  | Or r1 r2 => nullable r1 || nullable r2
  | Many _ => true
  end.

Fixpoint deriv (c : N) (r : regex) : regex :=
  match r with
  | Never => Never
  | Empty => Never
  | Class p => if p c then Empty else Never
  | Seq r1 r2 =>
      if nullable r1
      then Or (Seq (deriv c r1) r2) (deriv c r2)
      else Seq (deriv c r1) r2
  | Or r1 r2 => Or (deriv c r1) (deriv c r2)
  | Many r1 => Seq (deriv c r1) (Many r1)
  end.

Fixpoint fullmatch (r : regex) (s : str) : bool :=
  match s with
  | [] => nullable r
  | c :: s' => fullmatch (deriv c r) s'
  end.

Fixpoint times (n : nat) (r : regex) : regex :=
  match n with
  | O => Empty
  | S k => Seq r (times k r)
  end.

Fixpoint upto (n : nat) (r : regex) : regex :=
  match n with
  | O => Empty
  | S k => Or Empty (Seq r (upto k r))
  end.

Definition repeat (lo hi : nat) (r : regex) : regex :=
  Seq (times lo r) (upto (hi - lo) r).

Definition plus (r : regex) : regex := Seq r (Many r).

(** A literal that has no case variant ([1], [0], [.] and [/]): under
    [re.IGNORECASE] it still matches itself only. *)
Definition lit (a : ascii) : regex := Class (N.eqb (N_of_ascii a)).

Definition between (lo hi : N) (c : N) : bool := (lo <=? c)%N && (c <=? hi)%N.

(** The set [[-._;()/:A-Z0-9]] as written. *)
Definition DOI_CHARSET (c : N) : bool :=
  (c =? 0x2D)%N || (c =? 0x2E)%N || (c =? 0x5F)%N || (c =? 0x3B)%N
  || (c =? 0x28)%N || (c =? 0x29)%N || (c =? 0x2F)%N || (c =? 0x3A)%N
  || between 0x41 0x5A c || between 0x30 0x39 c.

(** What [re.IGNORECASE] adds to that set.  The matcher lowers the
    character before it looks it up, and the compiled set holds the
    lowercase of every member: so a-z come in, and with them the two
    code points outside ASCII whose lowercase is an ASCII letter,
    U+0130 (to i) and U+212A (to k).  The compiler also adds the
    code points it holds equivalent to a member without their being
    its lowercase: U+0131 for i and U+017F for s. *)
Definition ignorecase_variants (c : N) : bool :=
  between 0x61 0x7A c
  || (c =? 0x0130)%N || (c =? 0x212A)%N
  || (c =? 0x0131)%N || (c =? 0x017F)%N.

Definition DOI_CHARSET_IGNORECASE (c : N) : bool :=
  DOI_CHARSET c || ignorecase_variants c.

(** [$] as the last item of a pattern. *)
Definition dollar : regex := Or Empty (Class (N.eqb 0x0A)).

(** [re.compile(r'^10\.\d{4,9}/[-._;()/:A-Z0-9]+$', re.IGNORECASE)] *)
Definition DOI_PATTERN : regex :=
  Seq (lit "1")
 (Seq (lit "0")
 (Seq (lit ".")
 (Seq (repeat 4 9 (Class isdecimal))
 (Seq (lit "/")
 (Seq (plus (Class DOI_CHARSET_IGNORECASE))
      dollar))))).

(** The DOI grammar as the specification words it,
    [10.<4-9 digits>/<allowed-charset>], case-insensitive: the digits
    are decimal digits of any script, the allowed characters are the
    ones of the set with the case variants of its letters. *)
Definition doi_grammar (s : str) : Prop :=
  exists digits suffix : str,
    s = of_string "10." ++ digits ++ of_string "/" ++ suffix
    /\ 4 <= length digits <= 9
    /\ forallb isdecimal digits = true
    /\ suffix <> []
    /\ forallb DOI_CHARSET_IGNORECASE suffix = true.

(** [InputValidator.validate_doi] *)
Definition validate_doi (doi : str) : bool * str :=
  let doi := strip doi in
  match doi with
  | [] => (false, of_string "Empty DOI")
  | _ =>
      if negb (fullmatch DOI_PATTERN doi)
      then (false, of_string "Invalid DOI format: " ++ doi)
      else (true, [])
  end.

(** [[line.strip() for line in f if line.strip()]], the items that
    [load_items_from_file] returns for the lines of an existing file. *)
Definition load_items (lines : list str) : list str :=
  filter (fun line => line ≠ []) (map strip lines).

End Unicode.
(** *** Character facts, by enumeration of the 256 code points *)

Ltac each_char c :=
  destruct c as [[] [] [] [] [] [] [] []]; vm_compute; try reflexivity; try discriminate.

Lemma lower_char_idem (c : ascii) : lower_char (lower_char c) = lower_char c.
Proof. each_char c. Qed.

Lemma isspace_lower_char (c : ascii) : isspace (lower_char c) = isspace c.
Proof. each_char c. Qed.

Lemma lower_char_space (c : ascii) : isspace c = true -> lower_char c = c.
Proof. each_char c. Qed.

(** *** [lower] and [strip] *)

Lemma lower_idem (s : string) : lower (lower s) = lower s.
Proof.
  induction s as [|c r IH]; simpl; [reflexivity|].
  now rewrite lower_char_idem, IH.
Qed.

Lemma lower_lstrip (s : string) : lower (lstrip s) = lstrip (lower s).
Proof.
  induction s as [|c r IH]; simpl; [reflexivity|].
  rewrite isspace_lower_char.
  destruct (isspace c); [exact IH | reflexivity].
Qed.

Lemma lower_rstrip (s : string) : lower (rstrip s) = rstrip (lower s).
Proof.
  induction s as [|c r IH]; simpl; [reflexivity|].
  rewrite <- IH, isspace_lower_char.
  destruct (rstrip r) as [|d r']; simpl.
  - destruct (isspace c); reflexivity.
  - reflexivity.
Qed.

Lemma lower_strip (s : string) : lower (strip s) = strip (lower s).
Proof. unfold strip. now rewrite lower_rstrip, lower_lstrip. Qed.

(** A string is [clean_left] when it does not start with whitespace. *)
Definition clean_left (s : string) : bool :=
  match s with
  | EmptyString => true
  | String c _ => negb (isspace c)
  end.

Lemma lstrip_clean (s : string) : clean_left (lstrip s) = true.
Proof.
  induction s as [|c r IH]; simpl; [reflexivity|].
  destruct (isspace c) eqn:E; [exact IH|]. simpl. now rewrite E.
Qed.

Lemma lstrip_of_clean (s : string) : clean_left s = true -> lstrip s = s.
Proof.
  destruct s as [|c r]; simpl; [reflexivity|].
  destruct (isspace c); [discriminate | reflexivity].
Qed.

Lemma rstrip_keeps_clean (s : string) :
  clean_left s = true -> clean_left (rstrip s) = true.
Proof.
  destruct s as [|c r]; simpl; [reflexivity|].
  intros Hc. destruct (rstrip r); simpl.
  - destruct (isspace c) eqn:Ec; [discriminate | simpl; now rewrite Ec].
  - exact Hc.
Qed.

Lemma rstrip_idem (s : string) : rstrip (rstrip s) = rstrip s.
Proof.
  induction s as [|c r IH]; simpl; [reflexivity|].
  destruct (rstrip r) as [|d r'] eqn:E.
  - destruct (isspace c) eqn:Ec; simpl; [reflexivity|]. now rewrite Ec.
  - simpl in *. destruct (rstrip r') as [|e r''] eqn:E'.
    + destruct (isspace d); [discriminate|]. now inversion IH.
    + now inversion IH.
Qed.

Lemma strip_idem (s : string) : strip (strip s) = strip s.
Proof.
  unfold strip.
  rewrite (lstrip_of_clean (rstrip (lstrip s))).
  - apply rstrip_idem.
  - apply rstrip_keeps_clean, lstrip_clean.
Qed.

Lemma strip_clean_left (s : string) : clean_left (strip s) = true.
Proof. apply rstrip_keeps_clean, lstrip_clean. Qed.

(** The last character of a right-stripped string is not whitespace. *)
Lemma rstrip_snoc (s t : string) (c : ascii) :
  rstrip s = t +:+ String c EmptyString -> isspace c = false.
Proof.
  revert t. induction s as [|a r IH]; simpl; intros t H.
  - destruct t; discriminate.
  - destruct (rstrip r) as [|d r'] eqn:E.
    + destruct (isspace a) eqn:Ea.
      * destruct t; discriminate.
      * destruct t as [|b t']; simpl in H.
        -- now inversion H; subst.
        -- inversion H. destruct t'; discriminate.
    + destruct t as [|b t']; simpl in H.
      * inversion H.
      * inversion H; subst. now apply (IH t').
Qed.


(* ================================================================== *)
(** ** The regular expression matcher and the DOI grammar *)
(* ================================================================== *)

(** Let [simpl] compute the string append of a literal prefix. *)
Local Arguments String.append !s1 s2 : simpl nomatch.

Lemma app_empty_r (s : string) : s +:+ EmptyString = s.
Proof. induction s as [|c r IH]; simpl; [reflexivity | now rewrite IH]. Qed.

Lemma app_assoc_str (a b c : string) : (a +:+ b) +:+ c = a +:+ (b +:+ c).
Proof. induction a as [|x a IH]; simpl; [reflexivity | now rewrite IH]. Qed.

Lemma app_length_str (a b : string) :
  String.length (a +:+ b) = String.length a + String.length b.
Proof. induction a as [|x a IH]; simpl; [reflexivity | now rewrite IH]. Qed.

Lemma app_eq_empty (a b : string) : a +:+ b = EmptyString -> a = EmptyString /\ b = EmptyString.
Proof. destruct a; simpl; [auto | discriminate]. Qed.

(** Every character of the string satisfies [p]. *)
Fixpoint all_chars (p : ascii -> bool) (s : string) : bool :=
  match s with
  | EmptyString => true
  | String c r => p c && all_chars p r
  end.

Lemma all_chars_app (p : ascii -> bool) (a b : string) :
  all_chars p (a +:+ b) = all_chars p a && all_chars p b.
Proof.
  induction a as [|x a IH]; simpl; [reflexivity|].
  now rewrite IH, andb_assoc.
Qed.

(** The language of a pattern. *)
Inductive matches : regex -> string -> Prop :=
| m_empty : matches Empty EmptyString
| m_class (p : ascii -> bool) (c : ascii) :
    p c = true -> matches (Class p) (String c EmptyString)
| m_seq (r1 r2 : regex) (s1 s2 : string) :
    matches r1 s1 -> matches r2 s2 -> matches (Seq r1 r2) (s1 +:+ s2)
| m_or_l (r1 r2 : regex) (s : string) : matches r1 s -> matches (Or r1 r2) s
| m_or_r (r1 r2 : regex) (s : string) : matches r2 s -> matches (Or r1 r2) s
| m_many_nil (r : regex) : matches (Many r) EmptyString
| m_many_cons (r : regex) (s1 s2 : string) :
    matches r s1 -> matches (Many r) s2 -> matches (Many r) (s1 +:+ s2).

Create HintDb re.
#[local] Hint Constructors matches : re.

Lemma matches_never (s : string) : ~ matches Never s.
Proof. inversion 1. Qed.

Lemma matches_empty (s : string) : matches Empty s <-> s = EmptyString.
Proof. split; [now inversion 1 | intros ->; constructor]. Qed.

Lemma matches_class (p : ascii -> bool) (s : string) :
  matches (Class p) s <-> exists c, s = String c EmptyString /\ p c = true.
Proof.
  split.
  - inversion 1; subst; eauto.
  - intros (c & -> & H). now constructor.
Qed.

Lemma matches_seq (r1 r2 : regex) (s : string) :
  matches (Seq r1 r2) s <->
  exists s1 s2, s = s1 +:+ s2 /\ matches r1 s1 /\ matches r2 s2.
Proof.
  split.
  - inversion 1; subst; eauto.
  - intros (s1 & s2 & -> & H1 & H2). now constructor.
Qed.

Lemma matches_or (r1 r2 : regex) (s : string) :
  matches (Or r1 r2) s <-> matches r1 s \/ matches r2 s.
Proof.
  split.
  - inversion 1; subst; auto.
  - intros [H|H]; auto with re.
Qed.

Lemma nullable_matches (r : regex) : nullable r = true <-> matches r EmptyString.
Proof.
  induction r as [| |p|r1 IH1 r2 IH2|r1 IH1 r2 IH2|r IH]; simpl.
  - split; [discriminate | intros H; now apply matches_never in H].
  - split; auto with re.
  - rewrite matches_class. split; [discriminate | intros (c & E & _); discriminate].
  - rewrite andb_true_iff, IH1, IH2, matches_seq. split.
    + intros [H1 H2]. exists EmptyString, EmptyString. auto.
    + intros (s1 & s2 & E & H1 & H2). symmetry in E.
      apply app_eq_empty in E as [-> ->]. auto.
  - rewrite orb_true_iff, IH1, IH2, matches_or. tauto.
  - split; auto with re.
Qed.

(** A non-empty word of [Many r] starts with a non-empty word of [r]. *)
Lemma matches_many_cons (r : regex) (c : ascii) (s : string) :
  matches (Many r) (String c s) ->
  exists s1 s2, s = s1 +:+ s2 /\ matches r (String c s1) /\ matches (Many r) s2.
Proof.
  intros H. remember (Many r) as m eqn:Em. remember (String c s) as w eqn:Ew.
  revert c s Ew.
  induction H as [| | | | | |r' s1 s2 H1 _ H2 IH2]; intros c0 s0 Ew; try discriminate.
  inversion Em; subst r'. destruct s1 as [|d s1']; simpl in Ew.
  - apply (IH2 eq_refl _ _ Ew).
  - inversion Ew; subst. exists s1', s2. auto.
Qed.

Lemma deriv_matches (r : regex) (c : ascii) (s : string) :
  matches (deriv c r) s <-> matches r (String c s).
Proof.
  revert s. induction r as [| |p|r1 IH1 r2 IH2|r1 IH1 r2 IH2|r IH]; intros s; simpl.
  - split; intros H; now apply matches_never in H.
  - rewrite matches_empty. split; intros H; [now apply matches_never in H | discriminate].
  - rewrite matches_class. destruct (p c) eqn:E.
    + rewrite matches_empty. split.
      * intros ->. eauto.
      * intros (d & Hd & _). now inversion Hd.
    + split; [intros H; now apply matches_never in H|].
      intros (d & Hd & Hp). inversion Hd; subst. congruence.
  - assert (Hseq : matches (Seq (deriv c r1) r2) s <->
                   exists s1 s2, s = s1 +:+ s2 /\ matches r1 (String c s1) /\ matches r2 s2).
    { rewrite matches_seq. split; intros (s1 & s2 & E & H1 & H2);
        exists s1, s2; repeat split; auto; now apply IH1. }
    assert (Hinv : matches (Seq r1 r2) (String c s) <->
                   (exists s1 s2, s = s1 +:+ s2 /\ matches r1 (String c s1) /\ matches r2 s2)
                   \/ (matches r1 EmptyString /\ matches r2 (String c s))).
    { rewrite matches_seq. split.
      - intros (s1 & s2 & E & H1 & H2). destruct s1 as [|d s1']; simpl in E.
        + right. subst s2. auto.
        + inversion E; subst. left. eauto.
      - intros [(s1 & s2 & -> & H1 & H2) | [H1 H2]].
        + exists (String c s1), s2. auto.
        + exists EmptyString, (String c s). auto. }
    rewrite Hinv. destruct (nullable r1) eqn:N.
    + rewrite matches_or, Hseq, IH2, <- nullable_matches, N. tauto.
    + rewrite Hseq, <- nullable_matches, N. intuition discriminate.
  - rewrite !matches_or, IH1, IH2. tauto.
  - rewrite matches_seq. split.
    + intros (s1 & s2 & -> & H1 & H2).
      change (String c (s1 +:+ s2)) with (String c s1 +:+ s2).
      constructor; [now apply IH | assumption].
    + intros H. apply matches_many_cons in H as (s1 & s2 & -> & H1 & H2).
      exists s1, s2. repeat split; [now apply IH | assumption].
Qed.

(** The matcher decides the language. *)
Lemma fullmatch_matches (r : regex) (s : string) :
  fullmatch r s = true <-> matches r s.
Proof.
  revert r. induction s as [|c s IH]; intros r; simpl.
  - apply nullable_matches.
  - rewrite IH. apply deriv_matches.
Qed.

(** *** Words of the derived forms *)

Lemma matches_many_class (p : ascii -> bool) (s : string) :
  matches (Many (Class p)) s <-> all_chars p s = true.
Proof.
  split.
  - intros H. remember (Many (Class p)) as m eqn:Em.
    induction H as [| | | | | |r s1 s2 H1 _ H2 IH2]; try discriminate; [reflexivity|].
    inversion Em; subst r. apply matches_class in H1 as (c & -> & Hc).
    simpl. now rewrite Hc, IH2.
  - induction s as [|c s IH]; simpl; intros H; [constructor|].
    apply andb_true_iff in H as [Hc Hs].
    change (String c s) with (String c EmptyString +:+ s).
    constructor; [now constructor | auto].
Qed.

Lemma matches_times_class (p : ascii -> bool) (n : nat) (s : string) :
  matches (times n (Class p)) s <-> String.length s = n /\ all_chars p s = true.
Proof.
  revert s. induction n as [|n IH]; intros s; simpl.
  - rewrite matches_empty. split.
    + now intros ->.
    + intros [H _]. now destruct s.
  - rewrite matches_seq. split.
    + intros (s1 & s2 & -> & H1 & H2).
      apply matches_class in H1 as (c & -> & Hc). apply IH in H2 as [Hl Ha].
      simpl. now rewrite Hl, Hc, Ha.
    + intros [Hl Ha]. destruct s as [|c s]; [discriminate|]. simpl in *.
      apply andb_true_iff in Ha as [Hc Hs].
      exists (String c EmptyString), s. repeat split.
      * now constructor.
      * apply IH. split; [congruence | assumption].
Qed.

Lemma matches_upto_class (p : ascii -> bool) (n : nat) (s : string) :
  matches (upto n (Class p)) s <-> String.length s <= n /\ all_chars p s = true.
Proof.
  revert s. induction n as [|n IH]; intros s; simpl.
  - rewrite matches_empty. split.
    + now intros ->.
    + intros [H _]. destruct s; [reflexivity | simpl in H; lia].
  - rewrite matches_or, matches_empty, matches_seq. split.
    + intros [->|(s1 & s2 & -> & H1 & H2)]; [simpl; split; [lia | reflexivity]|].
      apply matches_class in H1 as (c & -> & Hc). apply IH in H2 as [Hl Ha].
      simpl. rewrite Hc, Ha. split; [lia | reflexivity].
    + intros [Hl Ha]. destruct s as [|c s]; [now left | right]. simpl in *.
      apply andb_true_iff in Ha as [Hc Hs].
      exists (String c EmptyString), s. repeat split.
      * now constructor.
      * apply IH. split; [lia | assumption].
Qed.

Lemma matches_repeat_class (p : ascii -> bool) (lo hi : nat) (s : string) :
  lo <= hi ->
  matches (repeat lo hi (Class p)) s <->
  (lo <= String.length s <= hi /\ all_chars p s = true).
Proof.
  intros Hle. unfold repeat. rewrite matches_seq. split.
  - intros (s1 & s2 & -> & H1 & H2).
    apply matches_times_class in H1 as [L1 A1].
    apply matches_upto_class in H2 as [L2 A2].
    rewrite app_length_str, all_chars_app, A1, A2. split; [lia | reflexivity].
  - intros [Hl Ha]. revert s Hl Ha.
    induction lo as [|lo IH] in hi, Hle |- *; intros s Hl Ha.
    + exists EmptyString, s. repeat split.
      * now apply matches_times_class.
      * apply matches_upto_class. split; [lia | assumption].
    + destruct s as [|c s]; [simpl in Hl; lia|]. simpl in *.
      apply andb_true_iff in Ha as [Hc Hs].
      destruct hi as [|hi]; [lia|].
      destruct (IH hi ltac:(lia) s ltac:(lia) Hs) as (s1 & s2 & -> & H1 & H2).
      exists (String c s1), s2. repeat split; [|exact H2].
      change (String c s1) with (String c EmptyString +:+ s1).
      constructor; [now constructor | exact H1].
Qed.

Lemma matches_plus_class (p : ascii -> bool) (s : string) :
  matches (plus (Class p)) s <-> s <> EmptyString /\ all_chars p s = true.
Proof.
  unfold plus. rewrite matches_seq. split.
  - intros (s1 & s2 & -> & H1 & H2).
    apply matches_class in H1 as (c & -> & Hc).
    apply matches_many_class in H2. simpl. now rewrite Hc, H2.
  - intros [Hn Ha]. destruct s as [|c s]; [congruence|]. simpl in Ha.
    apply andb_true_iff in Ha as [Hc Hs].
    exists (String c EmptyString), s. repeat split.
    + now constructor.
    + now apply matches_many_class.
Qed.

(** *** The DOI grammar, as the specification words it *)

(** The allowed characters after the slash, letters in either case. *)
Definition doi_suffix_char (c : ascii) : bool :=
  DOI_CHARSET c || between 97 122 c.

(** [10.<4-9 digits>/<allowed-charset>] *)
Definition doi_grammar (s : string) : Prop :=
  exists digits suffix : string,
    s = "10." +:+ digits +:+ "/" +:+ suffix
    /\ 4 <= String.length digits <= 9
    /\ all_chars digit digits = true
    /\ suffix <> EmptyString
    /\ all_chars doi_suffix_char suffix = true.

Lemma ignorecase_charset (c : ascii) :
  ignorecase DOI_CHARSET c = doi_suffix_char c.
Proof. each_char c. Qed.

Lemma all_chars_ext (p q : ascii -> bool) (s : string) :
  (forall c, p c = q c) -> all_chars p s = all_chars q s.
Proof.
  intros H. induction s as [|c s IH]; simpl; [reflexivity | now rewrite H, IH].
Qed.

Lemma matches_lit_char (a : ascii) (s : string) :
  (forall c, Ascii.eqb (lower_char c) (lower_char a) = Ascii.eqb c a) ->
  matches (lit a) s <-> s = String a EmptyString.
Proof.
  intros H. unfold lit. rewrite matches_class. split.
  - intros (c & -> & Hc). rewrite H in Hc. apply Ascii.eqb_eq in Hc. now subst.
  - intros ->. exists a. split; [reflexivity|]. rewrite H. apply Ascii.eqb_refl.
Qed.

Lemma lit_one (c : ascii) :
  Ascii.eqb (lower_char c) (lower_char "1") = Ascii.eqb c "1".
Proof. each_char c. Qed.

Lemma lit_zero (c : ascii) :
  Ascii.eqb (lower_char c) (lower_char "0") = Ascii.eqb c "0".
Proof. each_char c. Qed.

Lemma lit_dot (c : ascii) :
  Ascii.eqb (lower_char c) (lower_char ".") = Ascii.eqb c ".".
Proof. each_char c. Qed.

Lemma lit_slash (c : ascii) :
  Ascii.eqb (lower_char c) (lower_char "/") = Ascii.eqb c "/".
Proof. each_char c. Qed.

Lemma matches_dollar (s : string) :
  matches dollar s <-> s = EmptyString \/ s = String "010" EmptyString.
Proof.
  unfold dollar. rewrite matches_or, matches_empty, matches_class. split.
  - intros [->|(c & -> & Hc)]; [now left | right].
    apply Ascii.eqb_eq in Hc. now subst.
  - intros [->| ->]; [now left | right]. eexists; split; reflexivity.
Qed.

(** The words of [DOI_PATTERN]: the grammar, with an optional final
    newline.  *)
Lemma DOI_PATTERN_words (s : string) :
  fullmatch DOI_PATTERN s = true <->
  (doi_grammar s \/ exists t, s = t +:+ String "010" EmptyString /\ doi_grammar t).
Proof.
  rewrite fullmatch_matches. unfold DOI_PATTERN.
  rewrite matches_seq. setoid_rewrite (matches_lit_char _ _ lit_one).
  setoid_rewrite matches_seq. setoid_rewrite (matches_lit_char _ _ lit_zero).
  setoid_rewrite matches_seq. setoid_rewrite (matches_lit_char _ _ lit_dot).
  setoid_rewrite matches_seq.
  setoid_rewrite (matches_repeat_class digit 4 9 _ ltac:(lia)).
  setoid_rewrite matches_seq. setoid_rewrite (matches_lit_char _ _ lit_slash).
  setoid_rewrite matches_seq. setoid_rewrite matches_plus_class.
  setoid_rewrite matches_dollar.
  setoid_rewrite (all_chars_ext _ _ _ ignorecase_charset).
  unfold doi_grammar. split.
  - intros (? & ? & -> & -> & ? & ? & -> & -> & ? & ? & -> & -> & ds & ? & -> &
            [Hl Hd] & ? & ? & -> & -> & cs & e & -> & [Hn Hc] & He).
    destruct He as [-> | ->].
    + left. exists ds, cs. rewrite app_empty_r. simpl. auto.
    + right. exists ("10." +:+ ds +:+ "/" +:+ cs). split.
      * simpl. f_equal. f_equal. f_equal. rewrite !app_assoc_str. reflexivity.
      * exists ds, cs. auto.
  - intros [(ds & cs & -> & Hl & Hd & Hn & Hc)
           | (t & -> & ds & cs & -> & Hl & Hd & Hn & Hc)].
    + exists "1", ("0." +:+ ds +:+ "/" +:+ cs). repeat split.
      exists "0", ("." +:+ ds +:+ "/" +:+ cs). repeat split.
      exists ".", (ds +:+ "/" +:+ cs). repeat split.
      exists ds, ("/" +:+ cs). repeat split; try tauto.
      exists "/", cs. repeat split.
      exists cs, EmptyString. rewrite app_empty_r. repeat split; auto.
    + exists "1", ("0." +:+ ds +:+ "/" +:+ cs +:+ String "010" EmptyString). split.
      { simpl. rewrite !app_assoc_str. reflexivity. } split; [reflexivity|].
      exists "0", ("." +:+ ds +:+ "/" +:+ cs +:+ String "010" EmptyString). repeat split.
      exists ".", (ds +:+ "/" +:+ cs +:+ String "010" EmptyString). repeat split.
      exists ds, ("/" +:+ cs +:+ String "010" EmptyString). repeat split; try tauto.
      exists "/", (cs +:+ String "010" EmptyString). repeat split.
      exists cs, (String "010" EmptyString). repeat split; auto.
Qed.

(* ================================================================== *)
(** ** Normalised keys *)
(* ================================================================== *)

(** Lowercase, then trim: the key of an item. *)
Definition normalize (s : string) : string := strip (lower s).

Lemma normalize_idem (s : string) : normalize (normalize s) = normalize s.
Proof.
  unfold normalize. now rewrite lower_strip, lower_idem, strip_idem.
Qed.

(* ================================================================== *)
(** ** [validate_doi] *)
(* ================================================================== *)

Lemma strip_no_final_newline (s t : string) :
  strip s <> t +:+ String "010" EmptyString.
Proof.
  unfold strip. intros H. apply rstrip_snoc in H. discriminate.
Qed.

(** On a trimmed string the pattern matches exactly the grammar. *)
Lemma DOI_PATTERN_strip (s : string) :
  fullmatch DOI_PATTERN (strip s) = true <-> doi_grammar (strip s).
Proof.
  rewrite DOI_PATTERN_words. split; [|auto].
  intros [H|(t & E & _)]; [exact H|]. now apply strip_no_final_newline in E.
Qed.

Lemma doi_grammar_nonempty (s : string) : doi_grammar s -> s <> EmptyString.
Proof. intros (ds & cs & -> & _). discriminate. Qed.

Lemma validate_doi_cases (s : string) :
  (strip s = EmptyString /\ validate_doi s = (false, "Empty DOI"))
  \/ (strip s <> EmptyString /\ ~ doi_grammar (strip s)
      /\ validate_doi s = (false, "Invalid DOI format: " +:+ strip s))
  \/ (doi_grammar (strip s) /\ validate_doi s = (true, EmptyString)).
Proof.
  unfold validate_doi. destruct (strip s) as [|c r] eqn:Es; [left; auto | right].
  destruct (fullmatch DOI_PATTERN (String c r)) eqn:Em; simpl.
  - right. split; [|reflexivity].
    rewrite <- Es. apply DOI_PATTERN_strip. now rewrite Es.
  - left. split; [discriminate|]. split; [|reflexivity].
    rewrite <- Es. intros G. apply DOI_PATTERN_strip in G.
    rewrite Es in G. congruence.
Qed.

(** C5, as stated, fails: an input with surrounding whitespace is not a
    word of the grammar, and [validate_doi] accepts it. *)
Lemma validate_doi_accepts_untrimmed :
  ~ doi_grammar " 10.1016/x" /\ validate_doi " 10.1016/x" = (true, EmptyString).
Proof.
  split; [|reflexivity].
  intros (ds & cs & E & _). discriminate.
Qed.

(* ================================================================== *)
(** ** [detect_duplicates] *)
(* ================================================================== *)

(** The 0-based position of the first item with key [k]. *)
Definition first_index (items : list string) (k : string) : option nat :=
  fst <$> list_find (fun x => normalize x = k) items.

(** [enumerate(items)], counting from [n]. *)
Definition enumerate_from (n : nat) (items : list string) : list (nat * string) :=
  imap (fun i x => (n + i, x)) items.

(** Position [p.1] holds the first occurrence of the key of [p.2]. *)
Definition is_first (items : list string) (p : nat * string) : Prop :=
  first_index items (normalize p.2) = Some p.1.

#[local] Instance is_first_dec (items : list string) (p : nat * string) :
  Decision (is_first items p).
Proof. unfold is_first. apply _. Defined.

(** The record of a later occurrence: its 1-based position, the item,
    the 1-based position of the first occurrence of its key. *)
Definition duplicate_record (items : list string) (p : nat * string)
  : nat * string * nat :=
  (p.1 + 1, p.2, default 0 (first_index items (normalize p.2)) + 1).

(** The first occurrences, in the order of the input. *)
Definition first_occurrences (items : list string) : list string :=
  snd <$> filter (is_first items) (enumerate_from 0 items).

(** The later occurrences, in the order of the input. *)
Definition later_occurrences (items : list string) : list (nat * string * nat) :=
  duplicate_record items
    <$> filter (fun p => ~ is_first items p) (enumerate_from 0 items).

Lemma enumerate_from_cons (n : nat) (x : string) (r : list string) :
  enumerate_from n (x :: r) = (n, x) :: enumerate_from (S n) r.
Proof.
  unfold enumerate_from. rewrite imap_cons, Nat.add_0_r. f_equal.
  apply imap_ext. intros i y _. simpl. f_equal. lia.
Qed.

Lemma first_index_lt (items : list string) (k : string) (j : nat) :
  first_index items k = Some j -> j < length items.
Proof.
  unfold first_index. intros H. apply fmap_Some in H as ([i x] & Hf & ->).
  apply list_find_Some in Hf as (Hl & _). simpl. eauto using lookup_lt_Some.
Qed.

Lemma first_index_app_l (pre rest : list string) (k : string) (j : nat) :
  first_index pre k = Some j -> first_index (pre ++ rest) k = Some j.
Proof.
  unfold first_index. intros H. apply fmap_Some in H as ([i x] & Hf & ->).
  now rewrite (list_find_app_l _ _ _ _ _ Hf).
Qed.

Lemma first_index_app_here (pre rest : list string) (x : string) :
  first_index pre (normalize x) = None ->
  first_index (pre ++ x :: rest) (normalize x) = Some (length pre).
Proof.
  unfold first_index. intros H. apply fmap_None in H.
  rewrite list_find_app_r by exact H. simpl.
  rewrite decide_True by reflexivity. reflexivity.
Qed.

Lemma first_index_snoc_other (pre : list string) (x k : string) :
  normalize x <> k -> first_index (pre ++ [x]) k = first_index pre k.
Proof.
  intros Hne. destruct (first_index pre k) as [j|] eqn:E.
  - now apply first_index_app_l.
  - unfold first_index in *. apply fmap_None in E. apply fmap_None.
    apply list_find_app_None. split; [exact E|]. simpl.
    now rewrite decide_False.
Qed.

(** The loop of [detect_duplicates], with [seen] the first positions of
    the keys of the items already consumed. *)
Lemma detect_duplicates_loop_spec (whole : list string) :
  forall (rest pre : list string) (seen : gmap string nat)
         (u : list string) (d : list (nat * string * nat)),
    whole = pre ++ rest ->
    (forall k, seen !! k = first_index pre k) ->
    detect_duplicates_loop rest (length pre) seen u d =
    (u ++ (snd <$> filter (is_first whole) (enumerate_from (length pre) rest)),
     d ++ (duplicate_record whole
             <$> filter (fun p => ~ is_first whole p)
                   (enumerate_from (length pre) rest))).
Proof.
  induction rest as [|x rest IH]; intros pre seen u d Hw Hseen.
  - simpl. now rewrite !app_nil_r.
  - simpl. fold (normalize x). rewrite enumerate_from_cons.
    assert (Hw' : whole = (pre ++ [x]) ++ rest) by now rewrite <- app_assoc.
    assert (Hlen : S (length pre) = length (pre ++ [x]))
      by (rewrite length_app; simpl; lia).
    rewrite Hseen. destruct (first_index pre (normalize x)) as [j|] eqn:E.
    + assert (Hf : first_index whole (normalize x) = Some j)
        by (subst whole; now apply first_index_app_l).
      assert (Hj : j <> length pre) by (apply first_index_lt in E; lia).
      rewrite !filter_cons.
      rewrite decide_False by (unfold is_first; simpl; congruence).
      rewrite decide_True by (unfold is_first; simpl; congruence).
      rewrite Hlen, (IH (pre ++ [x]) seen _ _ Hw').
      * rewrite fmap_cons, <- app_assoc. simpl.
        unfold duplicate_record at 2. simpl. now rewrite Hf.
      * intros k. rewrite Hseen. destruct (decide (normalize x = k)) as [<-|Hne].
        -- rewrite E. symmetry. now apply first_index_app_l.
        -- symmetry. now apply first_index_snoc_other.
    + assert (Hf : first_index whole (normalize x) = Some (length pre))
        by (subst whole; now apply first_index_app_here).
      rewrite !filter_cons.
      rewrite decide_True by (unfold is_first; simpl; congruence).
      rewrite decide_False by (unfold is_first; simpl; intros H; now apply H).
      rewrite Hlen, (IH (pre ++ [x]) _ _ _ Hw').
      * simpl. now rewrite <- app_assoc.
      * intros k. destruct (decide (normalize x = k)) as [<-|Hne].
        -- rewrite lookup_insert_eq. symmetry.
           rewrite <- (app_nil_r (pre ++ [x])), <- app_assoc. simpl.
           now apply first_index_app_here.
        -- rewrite lookup_insert_ne by exact Hne. rewrite Hseen.
           symmetry. now apply first_index_snoc_other.
Qed.

Lemma detect_duplicates_spec (items : list string) :
  detect_duplicates items = (first_occurrences items, later_occurrences items).
Proof.
  unfold detect_duplicates.
  now rewrite (detect_duplicates_loop_spec items items [] ∅ [] [] eq_refl).
Qed.

(** The keys of the kept items are pairwise different, and every kept
    item is an item of the input. *)
Lemma detect_duplicates_loop_keys :
  forall (rest : list string) (i : nat) (seen : gmap string nat)
         (u : list string) (d : list (nat * string * nat)),
    NoDup (normalize <$> u) ->
    (forall x, x ∈ u -> is_Some (seen !! normalize x)) ->
    let u' := (detect_duplicates_loop rest i seen u d).1 in
    NoDup (normalize <$> u') /\ (forall x, x ∈ u' -> x ∈ u \/ x ∈ rest).
Proof.
  induction rest as [|x rest IH]; intros i seen u d Hnd Hdom; simpl.
  - auto.
  - fold (normalize x). destruct (seen !! normalize x) as [j|] eqn:E.
    + destruct (IH (S i) seen u (d ++ [(i + 1, x, j + 1)]) Hnd Hdom) as [H1 H2].
      split; [exact H1|]. intros y Hy. destruct (H2 y Hy); [auto|].
      right. now apply elem_of_cons; right.
    + destruct (IH (S i) (<[normalize x := i]> seen) (u ++ [x]) d) as [H1 H2].
      * rewrite fmap_app. apply NoDup_app. split; [exact Hnd|]. split.
        -- intros k Hk Hk'. simpl in Hk'. apply list_elem_of_singleton in Hk'.
           subst k. apply list_elem_of_fmap in Hk as (y & Ey & Hy).
           destruct (Hdom y Hy) as [v Hv]. congruence.
        -- simpl. apply NoDup_singleton.
      * intros y Hy. apply elem_of_app in Hy as [Hy|Hy].
        -- destruct (decide (normalize x = normalize y)) as [Ek|Hne].
           ++ rewrite <- Ek, lookup_insert_eq. eauto.
           ++ rewrite lookup_insert_ne by exact Hne. auto.
        -- apply list_elem_of_singleton in Hy. subst y.
           rewrite lookup_insert_eq. eauto.
      * split; [exact H1|]. intros y Hy. destruct (H2 y Hy) as [Hu|Hr].
        -- apply elem_of_app in Hu as [Hu|Hu]; [auto|].
           apply list_elem_of_singleton in Hu. subst y. right. now left.
        -- right. now apply elem_of_cons; right.
Qed.

Lemma detect_duplicates_keys (items : list string) :
  NoDup (normalize <$> (detect_duplicates items).1)
  /\ (forall x, x ∈ (detect_duplicates items).1 -> x ∈ items).
Proof.
  destruct (detect_duplicates_loop_keys items 0 ∅ [] []) as [H1 H2].
  - constructor.
  - intros x Hx. now apply elem_of_nil in Hx.
  - split; [exact H1|]. intros x Hx. destruct (H2 x Hx) as [H|H]; [|exact H].
    now apply elem_of_nil in H.
Qed.

(** C6: [detect_duplicates] makes one forward pass; the items it keeps
    are the first occurrences of their normalised keys, in the order of
    the input, and every later occurrence is recorded with its 1-based
    position, the item, and the 1-based position of the first occurrence
    of its key.  On ["10.1/A"; "10.1/a"; "10.1/B"] it returns
    (["10.1/A"; "10.1/B"], [(2, "10.1/a", 1)]). *)
Theorem detect_duplicates_first_occurrences :
  (forall items : list string,
      detect_duplicates items = (first_occurrences items, later_occurrences items))
  /\ detect_duplicates ["10.1/A"; "10.1/a"; "10.1/B"]
     = (["10.1/A"; "10.1/B"], [(2, "10.1/a", 1)]).
Proof.
  split; [exact detect_duplicates_spec | reflexivity].
Qed.

(* ================================================================== *)
(** ** The validator on every code point: trimming and the grammar *)
(* ================================================================== *)

Module UnicodeFacts.
Import Unicode.

(** *** [strip] *)

(** A string is [trimmed_left] when it does not start with whitespace. *)
Definition trimmed_left (s : str) : bool :=
  match s with
  | [] => true
  | c :: _ => negb (isspace c)
  end.

Lemma lstrip_trimmed (s : str) : trimmed_left (lstrip s) = true.
Proof.
  induction s as [|c r IH]; simpl; [reflexivity|].
  destruct (isspace c) eqn:E; [exact IH|]. simpl. now rewrite E.
Qed.

Lemma lstrip_of_trimmed (s : str) : trimmed_left s = true -> lstrip s = s.
Proof.
  destruct s as [|c r]; simpl; [reflexivity|].
  destruct (isspace c); [discriminate | reflexivity].
Qed.

Lemma rstrip_keeps_trimmed (s : str) :
  trimmed_left s = true -> trimmed_left (rstrip s) = true.
Proof.
  destruct s as [|c r]; simpl; [reflexivity|].
  intros Hc. destruct (rstrip r); simpl.
  - destruct (isspace c) eqn:Ec; [discriminate | simpl; now rewrite Ec].
  - exact Hc.
Qed.

Lemma rstrip_twice (s : str) : rstrip (rstrip s) = rstrip s.
Proof.
  induction s as [|c r IH]; simpl; [reflexivity|].
  destruct (rstrip r) as [|d r'] eqn:E.
  - destruct (isspace c) eqn:Ec; simpl; [reflexivity|]. now rewrite Ec.
  - simpl in *. destruct (rstrip r') as [|e r''] eqn:E'.
    + destruct (isspace d); [discriminate|]. now inversion IH.
    + now inversion IH.
Qed.

Lemma strip_twice (s : str) : strip (strip s) = strip s.
Proof.
  unfold strip.
  rewrite (lstrip_of_trimmed (rstrip (lstrip s))).
  - apply rstrip_twice.
  - apply rstrip_keeps_trimmed, lstrip_trimmed.
Qed.

(** The last code point of a right-stripped string is not whitespace. *)
Lemma rstrip_last (s t : str) (c : N) :
  rstrip s = t ++ [c] -> isspace c = false.
Proof.
  revert t. induction s as [|a r IH]; simpl; intros t H.
  - destruct t; discriminate.
  - destruct (rstrip r) as [|d r'] eqn:E.
    + destruct (isspace a) eqn:Ea.
      * destruct t; discriminate.
      * destruct t as [|b t']; simpl in H.
        -- now inversion H; subst.
        -- inversion H. destruct t'; discriminate.
    + destruct t as [|b t']; simpl in H.
      * inversion H.
      * inversion H; subst. now apply (IH t').
Qed.

Lemma strip_no_newline_last (s t : str) : strip s <> t ++ [0x0A%N].
Proof.
  unfold strip. intros H. apply rstrip_last in H. discriminate.
Qed.

(** *** The language of a pattern *)

Inductive words : regex -> str -> Prop :=
| w_empty : words Empty []
| w_class (p : N -> bool) (c : N) : p c = true -> words (Class p) [c]
| w_seq (r1 r2 : regex) (s1 s2 : str) :
    words r1 s1 -> words r2 s2 -> words (Seq r1 r2) (s1 ++ s2)
| w_or_l (r1 r2 : regex) (s : str) : words r1 s -> words (Or r1 r2) s
| w_or_r (r1 r2 : regex) (s : str) : words r2 s -> words (Or r1 r2) s
| w_many_nil (r : regex) : words (Many r) []
| w_many_cons (r : regex) (s1 s2 : str) :
    words r s1 -> words (Many r) s2 -> words (Many r) (s1 ++ s2).

#[local] Hint Constructors words : re.

Lemma words_never (s : str) : ~ words Never s.
Proof. inversion 1. Qed.

Lemma words_empty (s : str) : words Empty s <-> s = [].
Proof. split; [now inversion 1 | intros ->; constructor]. Qed.

Lemma words_class (p : N -> bool) (s : str) :
  words (Class p) s <-> exists c, s = [c] /\ p c = true.
Proof.
  split.
  - inversion 1; subst; eauto.
  - intros (c & -> & H). now constructor.
Qed.

Lemma words_seq (r1 r2 : regex) (s : str) :
  words (Seq r1 r2) s <->
  exists s1 s2, s = s1 ++ s2 /\ words r1 s1 /\ words r2 s2.
Proof.
  split.
  - inversion 1; subst; eauto.
  - intros (s1 & s2 & -> & H1 & H2). now constructor.
Qed.

Lemma words_or (r1 r2 : regex) (s : str) :
  words (Or r1 r2) s <-> words r1 s \/ words r2 s.
Proof.
  split.
  - inversion 1; subst; auto.
  - intros [H|H]; auto with re.
Qed.

Lemma nullable_words (r : regex) : nullable r = true <-> words r [].
Proof.
  induction r as [| |p|r1 IH1 r2 IH2|r1 IH1 r2 IH2|r IH]; simpl.
  - split; [discriminate | intros H; now apply words_never in H].
  - split; auto with re.
  - rewrite words_class. split; [discriminate | intros (c & E & _); discriminate].
  - rewrite andb_true_iff, IH1, IH2, words_seq. split.
    + intros [H1 H2]. exists [], []. auto.
    + intros (s1 & s2 & E & H1 & H2). symmetry in E.
      apply app_eq_nil in E as [-> ->]. auto.
  - rewrite orb_true_iff, IH1, IH2, words_or. tauto.
  - split; auto with re.
Qed.

(** A non-empty word of [Many r] starts with a non-empty word of [r]. *)
Lemma words_many_cons (r : regex) (c : N) (s : str) :
  words (Many r) (c :: s) ->
  exists s1 s2, s = s1 ++ s2 /\ words r (c :: s1) /\ words (Many r) s2.
Proof.
  intros H. remember (Many r) as m eqn:Em. remember (c :: s) as w eqn:Ew.
  revert c s Ew.
  induction H as [| | | | | |r' s1 s2 H1 _ H2 IH2]; intros c0 s0 Ew; try discriminate.
  inversion Em; subst r'. destruct s1 as [|d s1']; simpl in Ew.
  - apply (IH2 eq_refl _ _ Ew).
  - inversion Ew; subst. exists s1', s2. auto.
Qed.

Lemma deriv_words (r : regex) (c : N) (s : str) :
  words (deriv c r) s <-> words r (c :: s).
Proof.
  revert s. induction r as [| |p|r1 IH1 r2 IH2|r1 IH1 r2 IH2|r IH]; intros s; simpl.
  - split; intros H; now apply words_never in H.
  - rewrite words_empty. split; intros H; [now apply words_never in H | discriminate].
  - rewrite words_class. destruct (p c) eqn:E.
    + rewrite words_empty. split.
      * intros ->. eauto.
      * intros (d & Hd & _). now inversion Hd.
    + split; [intros H; now apply words_never in H|].
      intros (d & Hd & Hp). inversion Hd; subst. congruence.
  - assert (Hseq : words (Seq (deriv c r1) r2) s <->
                   exists s1 s2, s = s1 ++ s2 /\ words r1 (c :: s1) /\ words r2 s2).
    { rewrite words_seq. split; intros (s1 & s2 & E & H1 & H2);
        exists s1, s2; repeat split; auto; now apply IH1. }
    assert (Hinv : words (Seq r1 r2) (c :: s) <->
                   (exists s1 s2, s = s1 ++ s2 /\ words r1 (c :: s1) /\ words r2 s2)
                   \/ (words r1 [] /\ words r2 (c :: s))).
    { rewrite words_seq. split.
      - intros (s1 & s2 & E & H1 & H2). destruct s1 as [|d s1']; simpl in E.
        + right. subst s2. auto.
        + inversion E; subst. left. eauto.
      - intros [(s1 & s2 & -> & H1 & H2) | [H1 H2]].
        + exists (c :: s1), s2. auto.
        + exists [], (c :: s). auto. }
    rewrite Hinv. destruct (nullable r1) eqn:E.
    + rewrite words_or, Hseq, IH2, <- nullable_words, E. tauto.
    + rewrite Hseq, <- nullable_words, E. intuition discriminate.
  - rewrite !words_or, IH1, IH2. tauto.
  - rewrite words_seq. split.
    + intros (s1 & s2 & -> & H1 & H2).
      change (c :: s1 ++ s2) with ((c :: s1) ++ s2).
      constructor; [now apply IH | assumption].
    + intros H. apply words_many_cons in H as (s1 & s2 & -> & H1 & H2).
      exists s1, s2. repeat split; [now apply IH | assumption].
Qed.

(** The matcher decides the language. *)
Lemma fullmatch_words (r : regex) (s : str) :
  fullmatch r s = true <-> words r s.
Proof.
  revert r. induction s as [|c s IH]; intros r; simpl.
  - apply nullable_words.
  - rewrite IH. apply deriv_words.
Qed.

(** *** Words of the derived forms *)

Lemma words_many_class (p : N -> bool) (s : str) :
  words (Many (Class p)) s <-> forallb p s = true.
Proof.
  split.
  - intros H. remember (Many (Class p)) as m eqn:Em.
    induction H as [| | | | | |r s1 s2 H1 _ H2 IH2]; try discriminate; [reflexivity|].
    inversion Em; subst r. apply words_class in H1 as (c & -> & Hc).
    simpl. now rewrite Hc, IH2.
  - induction s as [|c s IH]; simpl; intros H; [constructor|].
    apply andb_true_iff in H as [Hc Hs].
    change (c :: s) with ([c] ++ s).
    constructor; [now constructor | auto].
Qed.

Lemma words_times_class (p : N -> bool) (n : nat) (s : str) :
  words (times n (Class p)) s <-> length s = n /\ forallb p s = true.
Proof.
  revert s. induction n as [|n IH]; intros s; simpl.
  - rewrite words_empty. split.
    + now intros ->.
    + intros [H _]. now destruct s.
  - rewrite words_seq. split.
    + intros (s1 & s2 & -> & H1 & H2).
      apply words_class in H1 as (c & -> & Hc). apply IH in H2 as [Hl Ha].
      simpl. now rewrite Hl, Hc, Ha.
    + intros [Hl Ha]. destruct s as [|c s]; [discriminate|]. simpl in *.
      apply andb_true_iff in Ha as [Hc Hs].
      exists [c], s. repeat split.
      * now constructor.
      * apply IH. split; [congruence | assumption].
Qed.

Lemma words_upto_class (p : N -> bool) (n : nat) (s : str) :
  words (upto n (Class p)) s <-> length s <= n /\ forallb p s = true.
Proof.
  revert s. induction n as [|n IH]; intros s; simpl.
  - rewrite words_empty. split.
    + now intros ->.
    + intros [H _]. destruct s; [reflexivity | simpl in H; lia].
  - rewrite words_or, words_empty, words_seq. split.
    + intros [->|(s1 & s2 & -> & H1 & H2)]; [simpl; split; [lia | reflexivity]|].
      apply words_class in H1 as (c & -> & Hc). apply IH in H2 as [Hl Ha].
      simpl. rewrite Hc, Ha. split; [lia | reflexivity].
    + intros [Hl Ha]. destruct s as [|c s]; [now left | right]. simpl in *.
      apply andb_true_iff in Ha as [Hc Hs].
      exists [c], s. repeat split.
      * now constructor.
      * apply IH. split; [lia | assumption].
Qed.

Lemma words_repeat_class (p : N -> bool) (lo hi : nat) (s : str) :
  lo <= hi ->
  words (repeat lo hi (Class p)) s <->
  (lo <= length s <= hi /\ forallb p s = true).
Proof.
  intros Hle. unfold repeat. rewrite words_seq. split.
  - intros (s1 & s2 & -> & H1 & H2).
    apply words_times_class in H1 as [L1 A1].
    apply words_upto_class in H2 as [L2 A2].
    rewrite length_app, forallb_app, A1, A2. split; [lia | reflexivity].
  - intros [Hl Ha]. revert s Hl Ha.
    induction lo as [|lo IH] in hi, Hle |- *; intros s Hl Ha.
    + exists [], s. repeat split.
      * now apply words_times_class.
      * apply words_upto_class. split; [lia | assumption].
    + destruct s as [|c s]; [simpl in Hl; lia|]. simpl in *.
      apply andb_true_iff in Ha as [Hc Hs].
      destruct hi as [|hi]; [lia|].
      destruct (IH hi ltac:(lia) s ltac:(lia) Hs) as (s1 & s2 & -> & H1 & H2).
      exists (c :: s1), s2. repeat split; [|exact H2].
      change (c :: s1) with ([c] ++ s1).
      constructor; [now constructor | exact H1].
Qed.

Lemma words_plus_class (p : N -> bool) (s : str) :
  words (plus (Class p)) s <-> s <> [] /\ forallb p s = true.
Proof.
  unfold plus. rewrite words_seq. split.
  - intros (s1 & s2 & -> & H1 & H2).
    apply words_class in H1 as (c & -> & Hc).
    apply words_many_class in H2. simpl. now rewrite Hc, H2.
  - intros [Hn Ha]. destruct s as [|c s]; [congruence|]. simpl in Ha.
    apply andb_true_iff in Ha as [Hc Hs].
    exists [c], s. repeat split.
    + now constructor.
    + now apply words_many_class.
Qed.

Lemma words_lit (a : ascii) (s : str) :
  words (lit a) s <-> s = [N_of_ascii a].
Proof.
  unfold lit. rewrite words_class. split.
  - intros (c & -> & Hc). apply N.eqb_eq in Hc. now subst.
  - intros ->. eexists. split; [reflexivity | apply N.eqb_refl].
Qed.

Lemma words_dollar (s : str) :
  words dollar s <-> s = [] \/ s = [0x0A%N].
Proof.
  unfold dollar. rewrite words_or, words_empty, words_class. split.
  - intros [->|(c & -> & Hc)]; [now left | right].
    apply N.eqb_eq in Hc. now subst.
  - intros [->| ->]; [now left | right]. eexists; split; reflexivity.
Qed.

(** The words of [DOI_PATTERN]: the grammar, with an optional final
    newline. *)
Lemma DOI_PATTERN_unicode_words (s : str) :
  fullmatch DOI_PATTERN s = true <->
  (doi_grammar s \/ exists t, s = t ++ [0x0A%N] /\ doi_grammar t).
Proof.
  rewrite fullmatch_words. unfold DOI_PATTERN.
  rewrite words_seq. setoid_rewrite words_lit.
  setoid_rewrite words_seq. setoid_rewrite words_lit.
  setoid_rewrite words_seq. setoid_rewrite words_lit.
  setoid_rewrite words_seq.
  setoid_rewrite (words_repeat_class isdecimal 4 9 _ ltac:(lia)).
  setoid_rewrite words_seq. setoid_rewrite words_lit.
  setoid_rewrite words_seq. setoid_rewrite words_plus_class.
  setoid_rewrite words_dollar.
  unfold doi_grammar. split.
  - intros (? & ? & -> & -> & ? & ? & -> & -> & ? & ? & -> & -> & ds & ? & -> &
            [Hl Hd] & ? & ? & -> & -> & cs & e & -> & [Hn Hc] & He).
    destruct He as [-> | ->].
    + left. exists ds, cs. rewrite app_nil_r. simpl. auto.
    + right. exists (of_string "10." ++ ds ++ of_string "/" ++ cs). split.
      * simpl. do 3 f_equal. rewrite <- !app_assoc. reflexivity.
      * exists ds, cs. auto.
  - intros [(ds & cs & -> & Hl & Hd & Hn & Hc)
           | (t & -> & ds & cs & -> & Hl & Hd & Hn & Hc)].
    + exists (of_string "1"), (of_string "0." ++ ds ++ of_string "/" ++ cs). repeat split.
      exists (of_string "0"), (of_string "." ++ ds ++ of_string "/" ++ cs). repeat split.
      exists (of_string "."), (ds ++ of_string "/" ++ cs). repeat split.
      exists ds, (of_string "/" ++ cs). repeat split; try tauto.
      exists (of_string "/"), cs. repeat split.
      exists cs, []. rewrite app_nil_r. repeat split; auto.
    + exists (of_string "1"), (of_string "0." ++ ds ++ of_string "/" ++ cs ++ [0x0A%N]). split.
      { simpl. rewrite <- !app_assoc. reflexivity. } split; [reflexivity|].
      exists (of_string "0"), (of_string "." ++ ds ++ of_string "/" ++ cs ++ [0x0A%N]). repeat split.
      exists (of_string "."), (ds ++ of_string "/" ++ cs ++ [0x0A%N]). repeat split.
      exists ds, (of_string "/" ++ cs ++ [0x0A%N]). repeat split; try tauto.
      exists (of_string "/"), (cs ++ [0x0A%N]). repeat split.
      exists cs, [0x0A%N]. repeat split; auto.
Qed.

(** On a trimmed string the pattern matches exactly the grammar. *)
Lemma DOI_PATTERN_unicode_strip (s : str) :
  fullmatch DOI_PATTERN (strip s) = true <-> doi_grammar (strip s).
Proof.
  rewrite DOI_PATTERN_unicode_words. split; [|auto].
  intros [H|(t & E & _)]; [exact H|]. now apply strip_no_newline_last in E.
Qed.

Lemma validate_doi_trichotomy (s : str) :
  (strip s = [] /\ validate_doi s = (false, of_string "Empty DOI"))
  \/ (strip s <> [] /\ ~ doi_grammar (strip s)
      /\ validate_doi s = (false, of_string "Invalid DOI format: " ++ strip s))
  \/ (doi_grammar (strip s) /\ validate_doi s = (true, [])).
Proof.
  unfold validate_doi. destruct (strip s) as [|c r] eqn:Es; [left; auto | right].
  destruct (fullmatch DOI_PATTERN (c :: r)) eqn:Em; simpl.
  - right. split; [|reflexivity].
    rewrite <- Es. apply DOI_PATTERN_unicode_strip. now rewrite Es.
  - left. split; [discriminate|]. split; [|reflexivity].
    rewrite <- Es. intros G. apply DOI_PATTERN_unicode_strip in G.
    rewrite Es in G. congruence.
Qed.

(** The items of a loaded file are trimmed and not empty. *)
Lemma load_items_trimmed (lines : list str) :
  Forall (fun item => strip item = item /\ item <> []) (load_items lines).
Proof.
  unfold load_items. apply Forall_forall. intros x Hx.
  apply list_elem_of_filter in Hx as [Hne Hin].
  apply list_elem_of_fmap in Hin as (y & -> & _).
  split; [apply strip_twice | exact Hne].
Qed.

End UnicodeFacts.

(** *** Agreement with the Latin-1 definitions *)

Lemma of_string_app (a b : string) :
  Unicode.of_string (a +:+ b) = Unicode.of_string a ++ Unicode.of_string b.
Proof. induction a as [|c a IH]; simpl; [reflexivity | now rewrite IH]. Qed.

Lemma of_string_inj (a b : string) :
  Unicode.of_string a = Unicode.of_string b -> a = b.
Proof.
  revert b. induction a as [|c a IH]; intros [|d b] H; simpl in H;
    try discriminate; [reflexivity|].
  inversion H as [[Hc Hr]]. apply IH in Hr. subst b.
  rewrite <- (ascii_N_embedding c), <- (ascii_N_embedding d), Hc. reflexivity.
Qed.

Lemma isspace_latin1 (c : ascii) : Unicode.isspace (N_of_ascii c) = isspace c.
Proof. each_char c. Qed.

Lemma lstrip_latin1 (s : string) :
  Unicode.lstrip (Unicode.of_string s) = Unicode.of_string (lstrip s).
Proof.
  induction s as [|c r IH]; simpl; [reflexivity|].
  rewrite isspace_latin1. destruct (isspace c); [exact IH | reflexivity].
Qed.

Lemma rstrip_latin1 (s : string) :
  Unicode.rstrip (Unicode.of_string s) = Unicode.of_string (rstrip s).
Proof.
  induction s as [|c r IH]; simpl; [reflexivity|].
  rewrite IH, isspace_latin1. destruct (rstrip r) as [|d r']; simpl.
  - destruct (isspace c); reflexivity.
  - reflexivity.
Qed.

Lemma strip_latin1 (s : string) :
  Unicode.strip (Unicode.of_string s) = Unicode.of_string (strip s).
Proof. unfold Unicode.strip, strip. now rewrite lstrip_latin1, rstrip_latin1. Qed.

(** A pattern on code points and a pattern on Latin-1 characters
    [agree] when they have the same shape and their classes give the
    same answer on every Latin-1 character. *)
Fixpoint agree (u : Unicode.regex) (r : regex) : Prop :=
  match u, r with
  | Unicode.Never, Never => True
  | Unicode.Empty, Empty => True
  | Unicode.Class p, Class q => forall c, p (N_of_ascii c) = q c
  | Unicode.Seq u1 u2, Seq r1 r2 => agree u1 r1 /\ agree u2 r2
  | Unicode.Or u1 u2, Or r1 r2 => agree u1 r1 /\ agree u2 r2
  | Unicode.Many u1, Many r1 => agree u1 r1
  | _, _ => False
  end.

Lemma agree_nullable (u : Unicode.regex) (r : regex) :
  agree u r -> Unicode.nullable u = nullable r.
Proof.
  revert r. induction u as [| |p|u1 IH1 u2 IH2|u1 IH1 u2 IH2|u IH];
    intros [| |q|r1 r2|r1 r2|r]; simpl; try tauto.
  - intros [H1 H2]. now rewrite (IH1 _ H1), (IH2 _ H2).
  - intros [H1 H2]. now rewrite (IH1 _ H1), (IH2 _ H2).
Qed.

Lemma agree_deriv (u : Unicode.regex) (r : regex) (c : ascii) :
  agree u r -> agree (Unicode.deriv (N_of_ascii c) u) (deriv c r).
Proof.
  revert r. induction u as [| |p|u1 IH1 u2 IH2|u1 IH1 u2 IH2|u IH];
    intros [| |q|r1 r2|r1 r2|r]; simpl; try tauto.
  - intros H. rewrite H. destruct (q c); exact I.
  - intros [H1 H2]. rewrite (agree_nullable _ _ H1).
    destruct (nullable r1); simpl; auto.
  - intros [H1 H2]. auto.
  - intros H. auto.
Qed.

Lemma agree_fullmatch (s : string) :
  forall (u : Unicode.regex) (r : regex),
    agree u r -> Unicode.fullmatch u (Unicode.of_string s) = fullmatch r s.
Proof.
  induction s as [|c s IH]; intros u r H; simpl.
  - now apply agree_nullable.
  - apply IH, agree_deriv, H.
Qed.

Lemma lit_latin1 (a c : ascii) :
  (forall c, Ascii.eqb (lower_char c) (lower_char a) = Ascii.eqb c a) ->
  N.eqb (N_of_ascii a) (N_of_ascii c) = Ascii.eqb (lower_char c) (lower_char a).
Proof.
  intros H. rewrite H. destruct (Ascii.eqb_spec c a) as [->|Hne].
  - apply N.eqb_refl.
  - apply N.eqb_neq. intros E. apply Hne.
    rewrite <- (ascii_N_embedding c), <- (ascii_N_embedding a), E. reflexivity.
Qed.

Lemma isdecimal_latin1 (c : ascii) : Unicode.isdecimal (N_of_ascii c) = digit c.
Proof. each_char c. Qed.

Lemma charset_latin1 (c : ascii) :
  Unicode.DOI_CHARSET_IGNORECASE (N_of_ascii c) = ignorecase DOI_CHARSET c.
Proof. each_char c. Qed.

Lemma newline_latin1 (c : ascii) :
  N.eqb 0x0A (N_of_ascii c) = Ascii.eqb "010" c.
Proof. each_char c. Qed.

Lemma DOI_PATTERN_agree : agree Unicode.DOI_PATTERN DOI_PATTERN.
Proof.
  unfold Unicode.DOI_PATTERN, DOI_PATTERN, Unicode.lit, lit, Unicode.repeat,
    repeat, Unicode.plus, plus, Unicode.dollar, dollar. simpl.
  repeat split; intros c;
    first [ apply isdecimal_latin1 | apply charset_latin1 | apply newline_latin1
          | apply (lit_latin1 _ _ lit_one) | apply (lit_latin1 _ _ lit_zero)
          | apply (lit_latin1 _ _ lit_dot) | apply (lit_latin1 _ _ lit_slash) ].
Qed.

Lemma fullmatch_latin1 (s : string) :
  Unicode.fullmatch Unicode.DOI_PATTERN (Unicode.of_string s)
  = fullmatch DOI_PATTERN s.
Proof. apply agree_fullmatch, DOI_PATTERN_agree. Qed.

(** On Latin-1 text the validator of the pipeline is the validator on
    code points. *)
Lemma validate_doi_latin1 (s : string) :
  Unicode.validate_doi (Unicode.of_string s)
  = ((validate_doi s).1, Unicode.of_string (validate_doi s).2).
Proof.
  unfold Unicode.validate_doi, validate_doi.
  rewrite strip_latin1, fullmatch_latin1.
  destruct (strip s) as [|c r]; [reflexivity|].
  change (Unicode.of_string (String c r))
    with (N_of_ascii c :: Unicode.of_string r).
  destruct (fullmatch DOI_PATTERN (String c r)); simpl; reflexivity.
Qed.

(** Digits of another script are digits of the pattern: the prefix
    of this accepted string is written with Arabic-Indic digits. *)
Example validate_doi_arabic_indic_digits :
  Unicode.validate_doi
    (Unicode.of_string "10." ++ [0x0661; 0x0662; 0x0663; 0x0664]%N
       ++ Unicode.of_string "/x")
  = (true, []).
Proof. vm_compute. reflexivity. Qed.

(** C5 (amended): [validate_doi] trims its input first ([str.strip], on
    every whitespace code point).  It fails with the empty-input error
    when the trimmed input is empty, with the format error (quoting the
    trimmed input) when the trimmed input is non-empty and is not a word
    of the grammar 10.<4-9 digits>/<allowed characters>, and succeeds
    otherwise; the digits are the decimal digits of any script and the
    allowed characters are the ones of the set, its letters in either
    case and U+0130, U+0131, U+017F and U+212A.  On Latin-1 text this is
    the [validate_doi] of the pipeline.
    "10.1016/j.softx.2019.100263" is accepted, "not-a-doi" gets the
    format error and the empty string the empty-input error. *)
Theorem validate_doi_unicode_spec :
  (forall s : Unicode.str,
      (Unicode.strip s = []
       /\ Unicode.validate_doi s = (false, Unicode.of_string "Empty DOI"))
      \/ (Unicode.strip s <> [] /\ ~ Unicode.doi_grammar (Unicode.strip s)
          /\ Unicode.validate_doi s
             = (false, Unicode.of_string "Invalid DOI format: " ++ Unicode.strip s))
      \/ (Unicode.doi_grammar (Unicode.strip s)
          /\ Unicode.validate_doi s = (true, [])))
  /\ (forall s : string,
         Unicode.validate_doi (Unicode.of_string s)
         = ((validate_doi s).1, Unicode.of_string (validate_doi s).2))
  /\ Unicode.validate_doi (Unicode.of_string "10.1016/j.softx.2019.100263")
     = (true, [])
  /\ Unicode.validate_doi (Unicode.of_string "not-a-doi")
     = (false, Unicode.of_string "Invalid DOI format: not-a-doi")
  /\ Unicode.validate_doi [] = (false, Unicode.of_string "Empty DOI").
Proof.
  split; [exact UnicodeFacts.validate_doi_trichotomy|].
  split; [exact validate_doi_latin1|].
  repeat split; vm_compute; reflexivity.
Qed.

(* ================================================================== *)
(** ** [validate_batch] and the working set *)
(* ================================================================== *)

(** The validator that [validate_batch] selects for a mode. *)
Definition validator (search_mode : string) : string -> bool * string :=
  if String.eqb search_mode "doi" then validate_doi else validate_title.

(** An item passes the validator of the mode. *)
Definition is_valid (search_mode : string) (item : string) : Prop :=
  (validator search_mode item).1 = true.

#[local] Instance is_valid_dec (search_mode item : string) :
  Decision (is_valid search_mode item).
Proof. unfold is_valid. apply _. Defined.

Lemma validate_batch_loop_valid (f : string -> bool * string) :
  forall (items : list string) (i : nat) (v : list string)
         (inv : list (nat * string * string)),
    (validate_batch_loop f items i v inv).1
    = v ++ filter (fun x => (f x).1 = true) items.
Proof.
  induction items as [|x items IH]; intros i v inv; simpl.
  - now rewrite app_nil_r.
  - rewrite filter_cons. destruct (f x) as [[] msg].
    + rewrite decide_True by reflexivity. rewrite IH. now rewrite <- app_assoc.
    + rewrite decide_False by discriminate. now rewrite IH.
Qed.

Lemma validate_batch_unique_items (items : list string) (search_mode : string) :
  rep_unique_items (validate_batch items search_mode)
  = (detect_duplicates (filter (is_valid search_mode) items)).1.
Proof.
  unfold validate_batch. fold (validator search_mode).
  pose proof (validate_batch_loop_valid (validator search_mode) items 0 [] []) as H.
  destruct (validate_batch_loop (validator search_mode) items 0 [] []) as [v inv].
  simpl in H. subst v.
  change (filter (fun x => (validator search_mode x).1 = true) items)
    with (filter (is_valid search_mode) items).
  now destruct (detect_duplicates (filter (is_valid search_mode) items)).
Qed.

Lemma select_items_unique (skip_duplicates : bool) (r : report) :
  select_items skip_duplicates r = rep_unique_items r.
Proof. unfold select_items. now destruct (_ && _). Qed.

Definition with_skip_duplicates (b : bool) (a : args) : args :=
  {| arg_doi := arg_doi a; arg_title := arg_title a; arg_limit := arg_limit a;
     arg_workers := arg_workers a; arg_resume := arg_resume a;
     arg_skip_duplicates := b; arg_no_cache := arg_no_cache a;
     arg_dry_run := arg_dry_run a; arg_test_key := arg_test_key a;
     arg_reset_key := arg_reset_key a; arg_cache_stats := arg_cache_stats a;
     arg_clear_cache := arg_clear_cache a |}.

Lemma bind_ext {A B : Type} (m : M A) (k1 k2 : A -> M B) (st : state) :
  (forall a st', k1 a st' = k2 a st') -> bind m k1 st = bind m k2 st.
Proof. intros H. unfold bind. destruct (m st); [apply H | reflexivity]. Qed.

Lemma process_working_set_skip_duplicates (net : network) (a : args) (b : bool)
    (api_key search_mode : string) (n : nat) (items : list string) :
  process_working_set net (with_skip_duplicates b a) api_key search_mode n items
  = process_working_set net a api_key search_mode n items.
Proof. reflexivity. Qed.

Lemma main_skip_duplicates (net : network) (a : args) (inp : inputs) (b : bool)
    (st : state) :
  main net (with_skip_duplicates b a) inp st = main net a inp st.
Proof.
  unfold main. apply bind_ext. intros _ st1.
  change (arg_cache_stats (with_skip_duplicates b a)) with (arg_cache_stats a).
  change (arg_clear_cache (with_skip_duplicates b a)) with (arg_clear_cache a).
  change (arg_reset_key (with_skip_duplicates b a)) with (arg_reset_key a).
  change (arg_test_key (with_skip_duplicates b a)) with (arg_test_key a).
  change (arg_doi (with_skip_duplicates b a)) with (arg_doi a).
  change (arg_title (with_skip_duplicates b a)) with (arg_title a).
  change (arg_dry_run (with_skip_duplicates b a)) with (arg_dry_run a).
  destruct (arg_cache_stats a); [reflexivity|].
  destruct (arg_clear_cache a); [reflexivity|].
  destruct (arg_reset_key a); [reflexivity|].
  destruct (scopus_key inp) as [|c key]; [reflexivity|].
  destruct (arg_test_key a); [reflexivity|].
  destruct (negb (arg_doi a) && negb (arg_title a)); [reflexivity|].
  apply bind_ext. intros items st2. apply bind_ext. intros _ st3.
  rewrite !select_items_unique.
  destruct (arg_dry_run a); [reflexivity|].
  now rewrite process_working_set_skip_duplicates.
Qed.

(** C2: whatever the skip-duplicates flag, the items handed to the
    processing loop are the unique items of the validity-filtered input:
    both branches of the conditional give that list, its keys are
    pairwise different, each of its items is valid, and a run does the
    same with the flag set or not. *)
Theorem skip_duplicates_flag_has_no_effect :
  (forall (items : list string) (search_mode : string) (flag : bool),
      let working := select_items flag (validate_batch items search_mode) in
      working = select_items (negb flag) (validate_batch items search_mode)
      /\ working = (detect_duplicates (filter (is_valid search_mode) items)).1
      /\ NoDup (normalize <$> working)
      /\ Forall (is_valid search_mode) working)
  /\ (forall (net : network) (a : args) (inp : inputs) (st : state),
         main net (with_skip_duplicates true a) inp st
         = main net (with_skip_duplicates false a) inp st).
Proof.
  split.
  - intros items search_mode flag. simpl.
    rewrite !select_items_unique, validate_batch_unique_items.
    destruct (detect_duplicates_keys (filter (is_valid search_mode) items))
      as [Hnd Hin].
    repeat split; [exact Hnd|].
    apply Forall_forall. intros x Hx. apply Hin in Hx.
    now apply list_elem_of_filter in Hx as [Hv _].
  - intros net a inp st. now rewrite !main_skip_duplicates.
Qed.

(** C1, as stated, fails: "10.1/X" has one digit where the pattern asks
    for four to nine, so all three items are invalid. *)
Lemma scenario_short_prefix_is_invalid :
  ~ (let r := validate_batch ["10.1/X"; "bad"; "10.1/X"] "doi" in
     rep_total r = 3 /\ rep_invalid r = 1 /\ rep_unique r = 1
     /\ rep_duplicate_items r = [(3, "10.1/X", 1)]
     /\ select_items false r = ["10.1/X"]).
Proof.
  intros (_ & H & _). vm_compute in H. discriminate.
Qed.

(** C1 (amended): in DOI mode the list ["10.1/X"; "bad"; "10.1/X"] gives
    total=3, invalid=3 (lines 1, 2 and 3), unique=0, no duplicate record
    and an empty working set.  With the well-formed "10.1000/X" in place
    of "10.1/X" the report has total=3, invalid=1 (the item at line 2),
    unique=1 and one duplicate record, for the second "10.1000/X"; the
    working set is ["10.1000/X"]. *)
Theorem scenario_validate_batch :
  (let r := validate_batch ["10.1/X"; "bad"; "10.1/X"] "doi" in
   rep_total r = 3 /\ rep_invalid r = 3
   /\ (fun e => e.1.1) <$> rep_invalid_items r = [1; 2; 3]
   /\ rep_unique r = 0 /\ rep_duplicate_items r = []
   /\ select_items false r = [] /\ select_items true r = [])
  /\
  (let r := validate_batch ["10.1000/X"; "bad"; "10.1000/X"] "doi" in
   rep_total r = 3 /\ rep_invalid r = 1
   /\ rep_invalid_items r = [(2, "bad", "Invalid DOI format: bad")]
   /\ rep_unique r = 1 /\ rep_duplicates r = 1
   /\ (fun e => e.1.2) <$> rep_duplicate_items r = ["10.1000/X"]
   /\ select_items false r = ["10.1000/X"]
   /\ select_items true r = ["10.1000/X"]).
Proof.
  vm_compute. repeat split; reflexivity.
Qed.

(** The positions in a duplicate record count the valid items only: the
    third input line is reported as position 2. *)
Example duplicate_positions_follow_valid_items :
  rep_duplicate_items (validate_batch ["10.1000/X"; "bad"; "10.1000/X"] "doi")
  = [(2, "10.1000/X", 1)].
Proof. reflexivity. Qed.

(* ================================================================== *)
(** ** One key function for the validator and the cache *)
(* ================================================================== *)

(** The value that [ResultCache.set] stores at time [now]. *)
Definition stamped (now : nat) (value : cache_entry) : cache_entry :=
  {| ce_title := ce_title value; ce_scopus_id := ce_scopus_id value;
     ce_doi := ce_doi value; ce_source := ce_source value;
     ce_cached_at := Some now |}.

Lemma ResultCache_get_normalize (key : string) (st : state) :
  ResultCache_get key st = cache st !! normalize key.
Proof. reflexivity. Qed.

Lemma ResultCache_set_cache (key : string) (value : cache_entry) (st : state) :
  cache (ResultCache_set key value st)
  = <[normalize key := stamped (clock st) value]> (cache st).
Proof. reflexivity. Qed.

Lemma ResultCache_set_file (key : string) (value : cache_entry) (st : state) :
  cache_file (ResultCache_set key value st)
  = Some (cache (ResultCache_set key value st)).
Proof. reflexivity. Qed.

Lemma detect_duplicates_pair (a b : string) :
  normalize a = normalize b <-> detect_duplicates [a; b] = ([a], [(2, b, 1)]).
Proof.
  unfold detect_duplicates. simpl. fold (normalize a). fold (normalize b).
  rewrite lookup_empty. split.
  - intros <-. now rewrite lookup_insert_eq.
  - intros H. destruct (decide (normalize a = normalize b)) as [E|Hne]; [exact E|].
    rewrite lookup_insert_ne, lookup_empty in H by exact Hne. discriminate.
Qed.

(** C7: duplicate detection and the cache compute their keys with the
    same function, lowercase then trim: two items are duplicates of each
    other exactly when their normalised keys are equal, [get] reads and
    [set] writes the entry under the normalised key, so a [get] after a
    [set] under any spelling of the same key finds the entry; and
    normalising twice is normalising once. *)
Theorem normalize_shared_and_idempotent :
  (forall s : string, normalize s = strip (lower s))
  /\ (forall s : string, normalize (normalize s) = normalize s)
  /\ (forall a b : string,
         normalize a = normalize b
         <-> detect_duplicates [a; b] = ([a], [(2, b, 1)]))
  /\ (forall (key : string) (st : state),
         ResultCache_get key st = cache st !! normalize key)
  /\ (forall (key : string) (value : cache_entry) (st : state),
         cache (ResultCache_set key value st)
         = <[normalize key := stamped (clock st) value]> (cache st))
  /\ (forall (k1 k2 : string) (value : cache_entry) (st : state),
         normalize k1 = normalize k2 <->
         ResultCache_get k2 (ResultCache_set k1 value (with_cache ∅ None st))
         = Some (stamped (clock st) value)).
Proof.
  split; [reflexivity|]. split; [exact normalize_idem|].
  split; [exact detect_duplicates_pair|].
  split; [exact ResultCache_get_normalize|].
  split; [exact ResultCache_set_cache|].
  intros k1 k2 value st.
  rewrite ResultCache_get_normalize, ResultCache_set_cache. simpl. split.
  - intros ->. now rewrite lookup_insert_eq.
  - intros H. destruct (decide (normalize k1 = normalize k2)) as [E|Hne]; [exact E|].
    rewrite lookup_insert_ne, lookup_empty in H by exact Hne. discriminate.
Qed.

(* ================================================================== *)
(** ** The lookup client *)
(* ================================================================== *)

(** The answer is HTTP 429. *)
Definition rate_limited {A : Type} (r : http_result A) : bool :=
  match r with
  | Response status_code _ => (status_code =? 429)%nat
  | RequestException => false
  end.

(** The answer is a transport error or a status other than 200. *)
Definition request_failed {A : Type} (r : http_result A) : bool :=
  match r with
  | Response status_code _ => negb (status_code =? 200)%nat
  | RequestException => true
  end.

(** The answer on which the title search of the fallback service fails:
    status 200 and a first result whose [ids] has a ['doi'] member that
    is no string. *)
Definition doi_not_text (r : http_result (list openalex_work)) : bool :=
  match r with
  | Response status_code (work :: _) =>
      (status_code =? 200)%nat
      && match work_ids_doi work with
         | Some None => true
         | _ => false
         end
  | _ => false
  end.

(** What a lookup call does with the answer [r] of its service: with
    the interrupt flag set it raises [KeyboardInterrupt] in the state it
    was called in; otherwise it returns, has counted one request, and on
    a failed request has returned [null], counted one error and slept
    [backoff] units if the answer was 429 and not at all otherwise. *)
Definition lookup_contract {A B : Type}
    (call : M B) (r : http_result A) (null : B) (backoff : nat) : Prop :=
  forall st : state,
    (interrupt_flag st = true -> call st = Raise KeyboardInterrupt st)
    /\ (interrupt_flag st = false ->
        exists (v : B) (st' : state),
          call st = Ok v st'
          /\ requests_made st' = requests_made st + 1
          /\ (request_failed r = true ->
              v = null
              /\ errors_count st' = errors_count st + 1
              /\ clock st' = clock st + (if rate_limited r then backoff else 0))).

(** Unfolds a lookup call down to the case analysis on its answer. *)
(** On the answers of a [network] the title search of the fallback
    service takes the DOI as a string whenever it is there. *)
Lemma search_openalex_title_decoded (net : network) (title : string) :
  search_openalex_title net title
  = (check_interrupt ;;;
     count_request ;;;
     match openalex_by_title net title with
     | Response status_code data =>
         if (status_code =? 200)%nat then
           match data with
           | result :: _ =>
               ret (oa_title result,
                    replace "https://doi.org/" EmptyString <$> oa_ids_doi result)
           | [] => count_error ;;; ret (None, None)
           end
         else count_error ;;; ret (None, None)
     | RequestException => count_error ;;; ret (None, None)
     end)%py.
Proof.
  unfold search_openalex_title, decoded. simpl.
  destruct (openalex_by_title net title) as [|status_code [|result rest]];
    try reflexivity.
  simpl. destruct (oa_ids_doi result); reflexivity.
Qed.

Ltac unfold_call :=
  rewrite ?search_openalex_title_decoded;
  unfold search_scopus_api, search_openalex_doi, search_scopus_api_title,
    search_openalex_title, bind, check_interrupt, count_request, count_error,
    modify, ret;
  cbn [decoded ask_scopus_by_doi ask_openalex_by_doi ask_scopus_by_title].

Ltac case_status :=
  repeat match goal with
         | |- context [(?s =? ?n)%nat] =>
             is_var s; destruct (Nat.eqb_spec s n); subst; simpl
         | |- context [match ?l with [] => _ | _ :: _ => _ end] =>
             is_var l; destruct l; simpl
         | |- context [work_ids_doi ?w] =>
             destruct (work_ids_doi w) as [[?|]|]; simpl
         end.

Section ClientFacts.

Variable svc : services.

Lemma search_scopus_api_contract (doi api_key : string) :
  lookup_contract (search_scopus_api svc doi api_key)
    (ask_scopus_by_doi svc doi api_key) (None, None) 5.
Proof.
  intros st. unfold_call. split; intros Hf; rewrite Hf; [reflexivity|].
  destruct (ask_scopus_by_doi svc doi api_key) as [|status data]; simpl.
  - eexists _, _. split; [reflexivity|]. simpl. split; [reflexivity|].
    intros _. repeat split. lia.
  - case_status; eexists _, _; (split; [reflexivity|]); simpl;
      (split; [reflexivity|]); intros H; try discriminate;
      repeat split; try lia; try (exfalso; lia).
Qed.

Lemma search_scopus_api_title_contract (title api_key : string) :
  lookup_contract (search_scopus_api_title svc title api_key)
    (ask_scopus_by_title svc title api_key) (None, None, None) 5.
Proof.
  intros st. unfold_call. split; intros Hf; rewrite Hf; [reflexivity|].
  destruct (ask_scopus_by_title svc title api_key) as [|status data]; simpl.
  - eexists _, _. split; [reflexivity|]. simpl. split; [reflexivity|].
    intros _. repeat split. lia.
  - case_status; eexists _, _; (split; [reflexivity|]); simpl;
      (split; [reflexivity|]); intros H; try discriminate;
      repeat split; try lia; try (exfalso; lia).
Qed.

Lemma search_openalex_doi_contract (doi : string) :
  lookup_contract (search_openalex_doi svc doi) (ask_openalex_by_doi svc doi) None 0.
Proof.
  intros st. unfold_call. split; intros Hf; rewrite Hf; [reflexivity|].
  destruct (ask_openalex_by_doi svc doi) as [|status data]; simpl.
  - eexists _, _. split; [reflexivity|]. simpl. split; [reflexivity|].
    intros _. repeat split. lia.
  - case_status; eexists _, _; (split; [reflexivity|]); simpl;
      (split; [reflexivity|]); intros H; try discriminate;
      repeat split; try lia; try (exfalso; lia).
Qed.

Lemma search_openalex_title_contract (title : string) :
  doi_not_text (ask_openalex_by_title svc title) = false ->
  lookup_contract (search_openalex_title svc title)
    (ask_openalex_by_title svc title) (None, None) 0.
Proof.
  intros Hd st. unfold_call. split; intros Hf; rewrite Hf; [reflexivity|].
  destruct (ask_openalex_by_title svc title) as [|status data]; simpl.
  - eexists _, _. split; [reflexivity|]. simpl. split; [reflexivity|].
    intros _. repeat split. lia.
  - simpl in Hd. case_status; try discriminate;
      eexists _, _; (split; [reflexivity|]); simpl;
      (split; [reflexivity|]); intros H; try discriminate;
      repeat split; try lia; try (exfalso; lia).
Qed.

(** A lookup call that returns changes the request and error counters
    and the clock, and nothing else. *)
Definition counters_only (st st' : state) : Prop :=
  interrupt_flag st' = interrupt_flag st
  /\ cache st' = cache st
  /\ cache_file st' = cache_file st
  /\ checkpoint_file st' = checkpoint_file st
  /\ output_file st' = output_file st
  /\ validation_report_file st' = validation_report_file st
  /\ printed_summary st' = printed_summary st
  /\ cache_hits st' = cache_hits st.

Ltac frame_call :=
  let H := fresh "H" in
  let E := fresh "E" in
  intros H; revert H; unfold_call;
  match goal with
  | |- context [interrupt_flag ?st] => destruct (interrupt_flag st) eqn:E
  end; [discriminate|];
  match goal with
  | |- context [match ?r with RequestException => _ | Response _ _ => _ end] =>
      destruct r
  end; simpl; case_status;
  intros H; inversion H; subst; unfold counters_only; simpl; auto 10.

Lemma search_scopus_api_frame (doi api_key : string) (st st' : state)
    (v : option string * option string) :
  search_scopus_api svc doi api_key st = Ok v st' ->
  interrupt_flag st = false /\ counters_only st st'.
Proof. frame_call. Qed.

Lemma search_scopus_api_title_frame (title api_key : string) (st st' : state)
    (v : option string * option string * option string) :
  search_scopus_api_title svc title api_key st = Ok v st' ->
  interrupt_flag st = false /\ counters_only st st'.
Proof. frame_call. Qed.

Lemma search_openalex_doi_frame (doi : string) (st st' : state) (v : option string) :
  search_openalex_doi svc doi st = Ok v st' ->
  interrupt_flag st = false /\ counters_only st st'.
Proof. frame_call. Qed.

Lemma search_openalex_title_frame (title : string) (st st' : state)
    (v : option string * option string) :
  search_openalex_title svc title st = Ok v st' ->
  interrupt_flag st = false /\ counters_only st st'.
Proof. frame_call. Qed.

End ClientFacts.

(** The outcome of a lookup call in every state: it raises only the
    cancellation, and only with the interrupt flag set, leaving the
    state as it was; when it returns, it has counted one request, at
    most one error, slept at most [backoff] units, and changed nothing
    else.  A result that is [quiet] came with no error and no sleep. *)
Definition call_outcome {A : Type} (quiet : A -> bool) (backoff : nat)
    (call : M A) : Prop :=
  forall st : state,
    match call st with
    | Ok v st' =>
        interrupt_flag st = false
        /\ counters_only st st'
        /\ requests_made st' = requests_made st + 1
        /\ errors_count st <= errors_count st'
           <= errors_count st + (if quiet v then 0 else 1)
        /\ clock st <= clock st' <= clock st + (if quiet v then 0 else backoff)
    | Raise e st' =>
        e = KeyboardInterrupt /\ st' = st /\ interrupt_flag st = true
    end.

Ltac call_cases :=
  intros st; unfold_call;
  destruct (interrupt_flag st) eqn:?; [auto|];
  match goal with
  | |- context [match ?r with RequestException => _ | Response _ _ => _ end] =>
      destruct r
  end; simpl; case_status; unfold counters_only; simpl;
  repeat match goal with
         | |- context [truthy ?x] => destruct (truthy x) eqn:?
         end;
  repeat split; try lia; try discriminate.

Section CallFacts.

Variable svc : services.

Lemma search_scopus_api_outcome (doi api_key : string) :
  call_outcome (fun v => truthy v.2) 5 (search_scopus_api svc doi api_key).
Proof. call_cases. Qed.

Lemma search_scopus_api_title_outcome (title api_key : string) :
  call_outcome (fun v => truthy v.1.2) 5 (search_scopus_api_title svc title api_key).
Proof. call_cases. Qed.

Lemma search_openalex_doi_outcome (doi : string) :
  call_outcome (fun _ => false) 0 (search_openalex_doi svc doi).
Proof. call_cases. Qed.

(** The outcome of the title search of the fallback service in every
    state.  Besides the cancellation it raises [AttributeError], exactly
    on an answer with an [ids['doi']] that is no string ([doi_not_text]):
    the request is counted by then, and nothing else has changed. *)
Definition title_search_outcome (title : string) : Prop :=
  forall st : state,
    match search_openalex_title svc title st with
    | Ok v st' =>
        doi_not_text (ask_openalex_by_title svc title) = false
        /\ interrupt_flag st = false
        /\ counters_only st st'
        /\ requests_made st' = requests_made st + 1
        /\ errors_count st <= errors_count st' <= errors_count st + 1
        /\ clock st' = clock st
    | Raise e st' =>
        (e = KeyboardInterrupt /\ st' = st /\ interrupt_flag st = true)
        \/ (e = AttributeError
            /\ doi_not_text (ask_openalex_by_title svc title) = true
            /\ interrupt_flag st = false
            /\ st' = with_requests_made (requests_made st + 1) st)
    end.

Lemma search_openalex_title_raises (title : string) :
  title_search_outcome title.
Proof.
  intros st. unfold_call.
  destruct (interrupt_flag st) eqn:Hf; [auto|].
  destruct (ask_openalex_by_title svc title) as [|status_code [|work rest]];
    simpl; unfold counters_only; simpl.
  - repeat split; lia.
  - destruct (status_code =? 200)%nat; simpl; repeat split; lia.
  - destruct (status_code =? 200)%nat; simpl; [|repeat split; lia].
    destruct (work_ids_doi work) as [[doi|]|]; simpl;
      try (repeat split; lia).
    right. auto.
Qed.

End CallFacts.

Lemma search_openalex_title_outcome (net : network) (title : string) :
  call_outcome (fun _ => false) 0 (search_openalex_title net title).
Proof. call_cases. Qed.

(** A state with the interrupt flag clear and the clock at 100. *)
Definition idle_state : state :=
  {| interrupt_flag := false; requests_made := 0; errors_count := 0;
     cache_hits := 0; clock := 100; cache := ∅; cache_file := None;
     checkpoint_file := None; output_file := None;
     validation_report_file := None; printed_summary := None |}.

(** Services that answer every request with the same status and with
    empty bodies. *)
Definition constant_network (status_code : nat) : network :=
  {| scopus_by_doi := fun _ _ => Response status_code [];
     openalex_by_doi := fun _ => Response status_code None;
     scopus_by_title := fun _ _ => Response status_code [];
     openalex_by_title := fun _ => Response status_code [] |}.

(** C4, as stated, fails: rate limited by the fallback service, the
    fallback lookup counts the failure and returns without sleeping. *)
Lemma fallback_does_not_back_off :
  openalex_by_doi (constant_network 429) "10.1000/x" = Response 429 None
  /\ search_openalex_doi (constant_network 429) "10.1000/x" idle_state
     = Ok None (with_errors_count 1 (with_requests_made 1 idle_state))
  /\ clock (with_errors_count 1 (with_requests_made 1 idle_state))
     <> clock idle_state + 5.
Proof.
  split; [reflexivity|]. split; [reflexivity|]. vm_compute. discriminate.
Qed.

(** C4 (amended): each of the four lookup calls tests the interrupt flag
    first and, if it is set, raises the cancellation without counting or
    sending a request.  Otherwise, on an answer as [services] has them,
    the call returns without raising and has sent one request, with no
    retry.  On a transport error or a
    status other than 200 it counts one failure and returns the all-null
    result; on 429 the two primary (Scopus) calls first sleep 5 units,
    and the two fallback (OpenAlex) calls do not sleep.  For the title
    search of the fallback service this is stated for every answer but
    a 200 answer whose first result has an [ids['doi']] that is no
    string; what the call does on that answer is left out here. *)
Theorem lookup_calls_degrade_to_null :
  forall (svc : services) (item api_key : string),
    lookup_contract (search_scopus_api svc item api_key)
      (ask_scopus_by_doi svc item api_key) (None, None) 5
    /\ lookup_contract (search_scopus_api_title svc item api_key)
         (ask_scopus_by_title svc item api_key) (None, None, None) 5
    /\ lookup_contract (search_openalex_doi svc item)
         (ask_openalex_by_doi svc item) None 0
    /\ (doi_not_text (ask_openalex_by_title svc item) = false ->
        lookup_contract (search_openalex_title svc item)
          (ask_openalex_by_title svc item) (None, None) 0).
Proof.
  intros svc item api_key.
  split; [apply search_scopus_api_contract|].
  split; [apply search_scopus_api_title_contract|].
  split; [apply search_openalex_doi_contract|].
  apply search_openalex_title_contract.
Qed.

Lemma lookup_calls_degrade_to_null_witness :
  (exists st' : state,
      search_scopus_api (constant_network 429) "10.1000/x" "key" idle_state
      = Ok (None, None) st'
      /\ requests_made st' = 1
      /\ errors_count st' = 1
      /\ clock st' = 105)
  /\ (exists st' : state,
         search_openalex_title (constant_network 429) "a title" idle_state
         = Ok (None, None) st'
         /\ requests_made st' = 1
         /\ errors_count st' = 1
         /\ clock st' = 100).
Proof.
  destruct (lookup_calls_degrade_to_null (constant_network 429) "10.1000/x" "key")
    as [H _].
  destruct (lookup_calls_degrade_to_null (constant_network 429) "a title" "key")
    as (_ & _ & _ & Ht).
  split.
  - destruct (H idle_state) as [_ Hrun].
    destruct (Hrun eq_refl) as (v & st' & E & Hreq & Hfail).
    destruct (Hfail eq_refl) as (Hv & Herr & Hclock).
    exists st'. subst v. auto.
  - destruct (Ht eq_refl idle_state) as [_ Hrun].
    destruct (Hrun eq_refl) as (v & st' & E & Hreq & Hfail).
    destruct (Hfail eq_refl) as (Hv & Herr & Hclock).
    exists st'. subst v. auto.
Defined.

(* ================================================================== *)
(** ** Processing one item *)
(* ================================================================== *)

#[local] Arguments strip : simpl never.
#[local] Arguments lower : simpl never.
#[local] Arguments truthy : simpl never.
#[local] Arguments replace : simpl never.

(** Unfolds the processing of an item down to its case analysis. *)
Ltac unfold_item :=
  unfold process_doi_item, process_title_item, ResultCache_get;
  unfold_call.

(** Case analysis on every test the processing of an item makes. *)
Ltac case_item :=
  repeat (simpl;
          match goal with
          | |- context [truthy ?x] => destruct (truthy x) eqn:?
          | |- context [interrupt_flag ?st] => is_var st; destruct (interrupt_flag st) eqn:?
          | |- context [(?s =? ?n)%nat] => is_var s; destruct (Nat.eqb_spec s n); subst
          | |- context [match ?l with [] => _ | _ :: _ => _ end] => is_var l; destruct l
          | |- context [match ?o with Some _ => _ | None => _ end] => destruct o eqn:?
          | |- context [match ?r with RequestException => _ | Response _ _ => _ end] =>
              destruct r eqn:?
          end).

(** The change of the cache by the processing of [item] from [st] to
    [st']: when caching is on and a lookup (no cache hit) produced a
    Scopus ID, [entry] is stored under the key of [item] and the cache
    file rewritten; otherwise cache and file stay as they were. *)
Definition cache_effect (use_cache : bool) (item : string) (cached : bool)
    (scopus_id : option string) (entry : cache_entry) (st st' : state) : Prop :=
  if use_cache && negb cached && truthy scopus_id
  then cache st' = <[normalize item := stamped (clock st) entry]> (cache st)
       /\ cache st' <> cache st
       /\ cache_file st' = Some (cache st')
  else cache st' = cache st /\ cache_file st' = cache_file st.

Lemma insert_fresh_ne (k : string) (v : cache_entry) (m : gmap string cache_entry) :
  m !! k = None -> <[k := v]> m <> m.
Proof.
  intros Hn E. assert (H : <[k := v]> m !! k = Some v) by apply lookup_insert_eq.
  rewrite E in H. congruence.
Qed.

Section ItemFacts.

Variable net : network.

Lemma process_doi_item_cache (item api_key : string) (use_cache : bool) (st : state) :
  match process_doi_item net item api_key use_cache st with
  | Ok r st' =>
      cache_effect use_cache item (dr_cached r) (dr_scopus_id r)
        {| ce_title := dr_title r; ce_scopus_id := dr_scopus_id r;
           ce_doi := None; ce_source := "scopus"; ce_cached_at := None |} st st'
      /\ (dr_cached r = false ->
          exists title st1,
            search_scopus_api net item api_key st = Ok (title, dr_scopus_id r) st1)
  | Raise _ st' => cache st' = cache st /\ cache_file st' = cache_file st
  end.
Proof.
  unfold cache_effect. unfold_item. fold (normalize item).
  destruct use_cache; case_item;
    repeat match goal with
           | H : truthy ?x = _ |- context [truthy ?x] => rewrite H
           end; simpl;
    repeat split; eauto using insert_fresh_ne; try discriminate.
Qed.

Lemma process_title_item_cache (item api_key : string) (use_cache : bool) (st : state) :
  match process_title_item net item api_key use_cache st with
  | Ok r st' =>
      cache_effect use_cache item (tr_cached r) (tr_scopus_id r)
        {| ce_title := tr_found_title r; ce_scopus_id := tr_scopus_id r;
           ce_doi := tr_doi r; ce_source := "scopus"; ce_cached_at := None |} st st'
      /\ (tr_cached r = false ->
          exists title doi st1,
            search_scopus_api_title net item api_key st
            = Ok (title, tr_scopus_id r, doi) st1)
  | Raise _ st' => cache st' = cache st /\ cache_file st' = cache_file st
  end.
Proof.
  unfold cache_effect. unfold_item. fold (normalize item).
  destruct use_cache; case_item;
    repeat match goal with
           | H : truthy ?x = _ |- context [truthy ?x] => rewrite H
           end; simpl;
    repeat split; eauto using insert_fresh_ne; try discriminate.
Qed.

End ItemFacts.

(** Services in which the primary search knows a title but no Scopus ID
    for every item, and the fallback service answers 404. *)
Definition title_only_network : network :=
  {| scopus_by_doi := fun _ _ =>
       Response 200 [{| dc_title := Some "A title from the primary service";
                        eid := None; prism_doi := None |}];
     openalex_by_doi := fun _ => Response 404 None;
     scopus_by_title := fun _ _ =>
       Response 200 [{| dc_title := Some "A title from the primary service";
                        eid := None;
                        prism_doi := Some "10.1000/primary" |}];
     openalex_by_title := fun _ => Response 404 [] |}.

(** Services in which the primary search finds every item. *)
Definition found_network : network :=
  {| scopus_by_doi := fun _ _ =>
       Response 200 [{| dc_title := Some "Found"; eid := Some "2-s2.0-1";
                        prism_doi := None |}];
     openalex_by_doi := fun _ => Response 404 None;
     scopus_by_title := fun _ _ =>
       Response 200 [{| dc_title := Some "Found"; eid := Some "2-s2.0-1";
                        prism_doi := Some "10.1000/found" |}];
     openalex_by_title := fun _ => Response 404 [] |}.

(** What [cache.get(item) if use_cache else None] gives. *)
Definition cached_result (use_cache : bool) (item : string) (st : state)
  : option cache_entry :=
  if use_cache then ResultCache_get item st else None.

(** The cache and its file are the same in both states. *)
Definition untouched (st st' : state) : Prop :=
  cache st' = cache st /\ cache_file st' = cache_file st.

(** With caching on, [entry] was stored under the key of [item], which
    had no entry, and the cache file was rewritten; with caching off,
    nothing was written. *)
Definition written (use_cache : bool) (item : string) (entry : cache_entry)
    (st st' : state) : Prop :=
  if use_cache
  then cache st' = <[normalize item := stamped (clock st) entry]> (cache st)
       /\ cache st' <> cache st
       /\ cache_file st' = Some (cache st')
  else untouched st st'.

Section WriteBack.

Variable svc : services.

Lemma sleep_set_written (item : string) (entry : cache_entry) (use_cache : bool)
    (st st1 : state) :
  cached_result use_cache item st = None ->
  counters_only st st1 ->
  clock st1 = clock st ->
  written use_cache item entry st
    (sleep DELAY_BETWEEN_REQUESTS
       (if use_cache then ResultCache_set item entry st1 else st1)).
Proof.
  intros Hmiss (_ & Hc & Hcf & _) Hclock. unfold written, untouched.
  destruct use_cache; simpl; [|auto].
  unfold cached_result in Hmiss. rewrite ResultCache_get_normalize in Hmiss.
  fold (normalize item). rewrite Hc, Hclock.
  split; [reflexivity|]. split; [|reflexivity].
  now apply insert_fresh_ne.
Qed.

Lemma process_doi_item_write_back (item api_key : string) (use_cache : bool)
    (st : state) :
  (forall e : cache_entry,
      cached_result use_cache item st = Some e ->
      process_doi_item svc item api_key use_cache st
      = Ok {| dr_doi := item; dr_title := ce_title e;
              dr_scopus_id := ce_scopus_id e; dr_cached := true |}
           (with_cache_hits (cache_hits st + 1) st))
  /\ (cached_result use_cache item st = None ->
      match search_scopus_api svc item api_key st with
      | Raise e st1 =>
          process_doi_item svc item api_key use_cache st = Raise e st1 /\ st1 = st
      | Ok (title, scopus_id) st1 =>
          if truthy scopus_id
          then exists st' : state,
                 process_doi_item svc item api_key use_cache st
                 = Ok {| dr_doi := item; dr_title := title;
                         dr_scopus_id := scopus_id; dr_cached := false |} st'
                 /\ written use_cache item
                      {| ce_title := title; ce_scopus_id := scopus_id;
                         ce_doi := None; ce_source := "scopus";
                         ce_cached_at := None |} st st'
          else match process_doi_item svc item api_key use_cache st with
               | Ok r st' =>
                   dr_scopus_id r = scopus_id /\ dr_cached r = false
                   /\ untouched st st'
               | Raise _ st' => untouched st st'
               end
      end).
Proof.
  unfold process_doi_item. fold (cached_result use_cache item st). split.
  - intros e ->. reflexivity.
  - intros Hmiss. rewrite Hmiss. unfold bind.
    pose proof (search_scopus_api_outcome svc item api_key st) as Hprimary.
    destruct (search_scopus_api svc item api_key st) as [[title scopus_id] st1|e st1].
    + destruct Hprimary as (Hf & Hfr & _ & _ & Hclock). simpl in Hclock.
      destruct (truthy scopus_id) eqn:T; simpl.
      * destruct use_cache; simpl; (eexists; split; [reflexivity|]).
        -- apply (sleep_set_written item _ true st st1);
             [exact Hmiss|exact Hfr|lia].
        -- apply (sleep_set_written item
                    {| ce_title := None; ce_scopus_id := None; ce_doi := None;
                       ce_source := EmptyString; ce_cached_at := None |}
                    false st st1); [exact Hmiss|exact Hfr|lia].
      * pose proof (search_openalex_doi_outcome svc item st1) as Hfallback.
        destruct Hfr as (_ & Hc & Hcf & _).
        destruct (search_openalex_doi svc item st1) as [title' st2|e st2].
        -- destruct Hfallback as (_ & (_ & Hc2 & Hcf2 & _) & _).
           simpl. unfold untouched. simpl. repeat split; congruence.
        -- destruct Hfallback as (_ & -> & _). unfold untouched. auto.
    + destruct Hprimary as (_ & -> & _). auto.
Qed.

Lemma process_title_item_write_back (item api_key : string) (use_cache : bool)
    (st : state) :
  (forall e : cache_entry,
      cached_result use_cache item st = Some e ->
      process_title_item svc item api_key use_cache st
      = Ok {| tr_search_title := item; tr_found_title := ce_title e;
              tr_scopus_id := ce_scopus_id e; tr_doi := ce_doi e;
              tr_cached := true |}
           (with_cache_hits (cache_hits st + 1) st))
  /\ (cached_result use_cache item st = None ->
      match search_scopus_api_title svc item api_key st with
      | Raise e st1 =>
          process_title_item svc item api_key use_cache st = Raise e st1
          /\ st1 = st
      | Ok (title, scopus_id, doi) st1 =>
          if truthy scopus_id
          then exists st' : state,
                 process_title_item svc item api_key use_cache st
                 = Ok {| tr_search_title := item; tr_found_title := title;
                         tr_scopus_id := scopus_id; tr_doi := doi;
                         tr_cached := false |} st'
                 /\ written use_cache item
                      {| ce_title := title; ce_scopus_id := scopus_id;
                         ce_doi := doi; ce_source := "scopus";
                         ce_cached_at := None |} st st'
          else match process_title_item svc item api_key use_cache st with
               | Ok r st' =>
                   tr_scopus_id r = scopus_id /\ tr_cached r = false
                   /\ untouched st st'
               | Raise _ st' => untouched st st'
               end
      end).
Proof.
  unfold process_title_item. fold (cached_result use_cache item st). split.
  - intros e ->. reflexivity.
  - intros Hmiss. rewrite Hmiss. unfold bind.
    pose proof (search_scopus_api_title_outcome svc item api_key st) as Hprimary.
    destruct (search_scopus_api_title svc item api_key st)
      as [[[title scopus_id] doi] st1|e st1].
    + destruct Hprimary as (Hf & Hfr & _ & _ & Hclock). simpl in Hclock.
      destruct (truthy scopus_id) eqn:T; simpl.
      * destruct use_cache; simpl; (eexists; split; [reflexivity|]).
        -- apply (sleep_set_written item _ true st st1);
             [exact Hmiss|exact Hfr|lia].
        -- apply (sleep_set_written item
                    {| ce_title := None; ce_scopus_id := None; ce_doi := None;
                       ce_source := EmptyString; ce_cached_at := None |}
                    false st st1); [exact Hmiss|exact Hfr|lia].
      * pose proof (search_openalex_title_raises svc item st1) as Hfallback.
        destruct Hfr as (_ & Hc & Hcf & _).
        destruct (search_openalex_title svc item st1) as [[title' doi'] st2|e st2].
        -- destruct Hfallback as (_ & _ & (_ & Hc2 & Hcf2 & _) & _).
           simpl. unfold untouched. simpl. repeat split; congruence.
        -- unfold untouched.
           destruct Hfallback as [(_ & -> & _)|(_ & _ & _ & ->)]; simpl; auto.
    + destruct Hprimary as (_ & -> & _). auto.
Qed.

End WriteBack.

(** C8: processing one item, in either mode, writes to the cache exactly
    when caching is enabled and the lookup produced a Scopus ID.  An
    item that the cache holds is answered from its entry and nothing is
    written.  Otherwise the primary service is asked.  If its answer
    carries a Scopus ID, the item returns the answer, marked as not
    cached, and with caching on the record is stored under the
    normalised key of the item, which had no entry, and the cache file
    is rewritten; with caching off nothing is written.  If the answer
    carries none, or the lookup is cancelled, or the fallback lookup
    raises, the cache and its file are as they were. *)
Theorem cache_written_only_on_success :
  forall (svc : services) (item api_key : string) (use_cache : bool) (st : state),
    ((forall e : cache_entry,
         cached_result use_cache item st = Some e ->
         process_doi_item svc item api_key use_cache st
         = Ok {| dr_doi := item; dr_title := ce_title e;
                 dr_scopus_id := ce_scopus_id e; dr_cached := true |}
              (with_cache_hits (cache_hits st + 1) st))
     /\ (cached_result use_cache item st = None ->
         match search_scopus_api svc item api_key st with
         | Raise e st1 =>
             process_doi_item svc item api_key use_cache st = Raise e st1
             /\ st1 = st
         | Ok (title, scopus_id) st1 =>
             if truthy scopus_id
             then exists st' : state,
                    process_doi_item svc item api_key use_cache st
                    = Ok {| dr_doi := item; dr_title := title;
                            dr_scopus_id := scopus_id; dr_cached := false |} st'
                    /\ written use_cache item
                         {| ce_title := title; ce_scopus_id := scopus_id;
                            ce_doi := None; ce_source := "scopus";
                            ce_cached_at := None |} st st'
             else match process_doi_item svc item api_key use_cache st with
                  | Ok r st' =>
                      dr_scopus_id r = scopus_id /\ dr_cached r = false
                      /\ untouched st st'
                  | Raise _ st' => untouched st st'
                  end
         end))
    /\
    ((forall e : cache_entry,
         cached_result use_cache item st = Some e ->
         process_title_item svc item api_key use_cache st
         = Ok {| tr_search_title := item; tr_found_title := ce_title e;
                 tr_scopus_id := ce_scopus_id e; tr_doi := ce_doi e;
                 tr_cached := true |}
              (with_cache_hits (cache_hits st + 1) st))
     /\ (cached_result use_cache item st = None ->
         match search_scopus_api_title svc item api_key st with
         | Raise e st1 =>
             process_title_item svc item api_key use_cache st = Raise e st1
             /\ st1 = st
         | Ok (title, scopus_id, doi) st1 =>
             if truthy scopus_id
             then exists st' : state,
                    process_title_item svc item api_key use_cache st
                    = Ok {| tr_search_title := item; tr_found_title := title;
                            tr_scopus_id := scopus_id; tr_doi := doi;
                            tr_cached := false |} st'
                    /\ written use_cache item
                         {| ce_title := title; ce_scopus_id := scopus_id;
                            ce_doi := doi; ce_source := "scopus";
                            ce_cached_at := None |} st st'
             else match process_title_item svc item api_key use_cache st with
                  | Ok r st' =>
                      tr_scopus_id r = scopus_id /\ tr_cached r = false
                      /\ untouched st st'
                  | Raise _ st' => untouched st st'
                  end
         end)).
Proof.
  intros svc item api_key use_cache st. split.
  - apply process_doi_item_write_back.
  - apply process_title_item_write_back.
Qed.

Lemma cache_written_only_on_success_witness :
  (exists st' : state,
      process_doi_item found_network "10.1000/A" "key" true idle_state
      = Ok {| dr_doi := "10.1000/A"; dr_title := Some "Found";
              dr_scopus_id := Some "2-s2.0-1"; dr_cached := false |} st'
      /\ written true "10.1000/A"
           {| ce_title := Some "Found"; ce_scopus_id := Some "2-s2.0-1";
              ce_doi := None; ce_source := "scopus"; ce_cached_at := None |}
           idle_state st')
  /\ (exists st' : state,
         process_title_item found_network "A Study" "key" true idle_state
         = Ok {| tr_search_title := "A Study"; tr_found_title := Some "Found";
                 tr_scopus_id := Some "2-s2.0-1"; tr_doi := Some "10.1000/found";
                 tr_cached := false |} st'
         /\ written true "A Study"
              {| ce_title := Some "Found"; ce_scopus_id := Some "2-s2.0-1";
                 ce_doi := Some "10.1000/found"; ce_source := "scopus";
                 ce_cached_at := None |}
              idle_state st')
  /\ match process_title_item title_only_network "A Study" "key" true idle_state with
     | Ok r st' =>
         tr_scopus_id r = None /\ tr_cached r = false /\ untouched idle_state st'
     | Raise _ st' => untouched idle_state st'
     end.
Proof.
  split; [|split].
  - exact (proj2 (proj1 (cache_written_only_on_success found_network
                           "10.1000/A" "key" true idle_state)) eq_refl).
  - exact (proj2 (proj2 (cache_written_only_on_success found_network
                           "A Study" "key" true idle_state)) eq_refl).
  - exact (proj2 (proj2 (cache_written_only_on_success title_only_network
                           "A Study" "key" true idle_state)) eq_refl).
Defined.

(** A fallback lookup that recovered nothing: a failed request, or an
    empty result list. *)
Definition no_results {A : Type} (r : http_result (list A)) : bool :=
  match r with
  | Response status_code [] => true
  | r => request_failed r
  end.

Section FallbackFacts.

Variable net : network.

Lemma process_title_item_fallback (item api_key : string) (use_cache : bool)
    (st st1 : state) (title scopus_id doi : option string) :
  (if use_cache then ResultCache_get item st else None) = None ->
  search_scopus_api_title net item api_key st = Ok (title, scopus_id, doi) st1 ->
  truthy scopus_id = false ->
  exists (title' doi' : option string) (st2 st3 : state),
    search_openalex_title net item st1 = Ok (title', doi') st2
    /\ process_title_item net item api_key use_cache st
       = Ok {| tr_search_title := item; tr_found_title := title';
               tr_scopus_id := scopus_id; tr_doi := doi'; tr_cached := false |} st3
    /\ (no_results (openalex_by_title net item) = true ->
        title' = None /\ doi' = None).
Proof.
  intros Hmiss Hprim Hno. unfold process_title_item. rewrite Hmiss.
  unfold bind at 1. rewrite Hprim. unfold bind at 1. rewrite Hno. simpl.
  assert (Hflag : interrupt_flag st1 = false).
  { apply search_scopus_api_title_frame in Hprim as (Hf & Hs & _). congruence. }
  unfold_call. rewrite Hflag.
  destruct (openalex_by_title net item) as [|status data]; simpl.
  - eexists _, _, _, _. repeat split.
  - case_item; eexists _, _, _, _; repeat split; try discriminate.
Qed.

Lemma process_doi_item_fallback (item api_key : string) (use_cache : bool)
    (st st1 : state) (title scopus_id : option string) :
  (if use_cache then ResultCache_get item st else None) = None ->
  search_scopus_api net item api_key st = Ok (title, scopus_id) st1 ->
  truthy scopus_id = false ->
  exists (title' : option string) (st2 st3 : state),
    search_openalex_doi net item st1 = Ok title' st2
    /\ process_doi_item net item api_key use_cache st
       = Ok {| dr_doi := item; dr_title := title';
               dr_scopus_id := scopus_id; dr_cached := false |} st3
    /\ (request_failed (openalex_by_doi net item) = true -> title' = None).
Proof.
  intros Hmiss Hprim Hno. unfold process_doi_item. rewrite Hmiss.
  unfold bind at 1. rewrite Hprim. unfold bind at 1. rewrite Hno. simpl.
  assert (Hflag : interrupt_flag st1 = false).
  { apply search_scopus_api_frame in Hprim as (Hf & Hs & _). congruence. }
  unfold_call. rewrite Hflag.
  destruct (openalex_by_doi net item) as [|status data]; simpl.
  - eexists _, _, _. repeat split.
  - case_item; eexists _, _, _; repeat split; try discriminate.
Qed.

End FallbackFacts.

(** C9: in title mode, when the item is not served from the cache and
    the primary lookup returns no Scopus ID, the record is emitted with
    the found title and the DOI that the fallback lookup returns,
    whatever title and DOI the primary returned; if the fallback request
    fails or lists no result, both are null.  In DOI mode the title of
    the record is likewise the one the fallback returns, null if the
    fallback request fails. *)
Theorem fallback_replaces_primary_title :
  forall (net : network) (item api_key : string) (use_cache : bool)
         (st st1 : state) (title scopus_id doi : option string),
    (if use_cache then ResultCache_get item st else None) = None ->
    truthy scopus_id = false ->
    (search_scopus_api_title net item api_key st = Ok (title, scopus_id, doi) st1 ->
     exists (title' doi' : option string) (st2 st3 : state),
       search_openalex_title net item st1 = Ok (title', doi') st2
       /\ process_title_item net item api_key use_cache st
          = Ok {| tr_search_title := item; tr_found_title := title';
                  tr_scopus_id := scopus_id; tr_doi := doi';
                  tr_cached := false |} st3
       /\ (no_results (openalex_by_title net item) = true ->
           title' = None /\ doi' = None))
    /\
    (search_scopus_api net item api_key st = Ok (title, scopus_id) st1 ->
     exists (title' : option string) (st2 st3 : state),
       search_openalex_doi net item st1 = Ok title' st2
       /\ process_doi_item net item api_key use_cache st
          = Ok {| dr_doi := item; dr_title := title';
                  dr_scopus_id := scopus_id; dr_cached := false |} st3
       /\ (request_failed (openalex_by_doi net item) = true -> title' = None)).
Proof.
  intros net item api_key use_cache st st1 title scopus_id doi Hmiss Hno. split.
  - intros Hprim. now apply process_title_item_fallback with (title := title) (doi := doi).
  - intros Hprim. now apply process_doi_item_fallback with (title := title).
Qed.

Lemma fallback_replaces_primary_title_witness :
  search_scopus_api_title title_only_network "A study of things" "key" idle_state
  = Ok (Some "A title from the primary service", None, Some "10.1000/primary")
       (with_requests_made 1 idle_state)
  /\ exists st3 : state,
       process_title_item title_only_network "A study of things" "key" true idle_state
       = Ok {| tr_search_title := "A study of things"; tr_found_title := None;
               tr_scopus_id := None; tr_doi := None; tr_cached := false |} st3.
Proof.
  split; [reflexivity|].
  destruct (fallback_replaces_primary_title title_only_network
              "A study of things" "key" true idle_state
              (with_requests_made 1 idle_state)
              (Some "A title from the primary service") None
              (Some "10.1000/primary") eq_refl eq_refl) as [H _].
  destruct (H eq_refl) as (title' & doi' & st2 & st3 & _ & Hp & Hnull).
  destruct (Hnull eq_refl) as [-> ->].
  exists st3. exact Hp.
Defined.

(** C10: the error counter also counts a found-nothing answer.  When a
    service that lists matches (the primary search by DOI or by title,
    the fallback search by title) answers 200 with no entry, the call
    returns the all-null result and has added one to the error counter;
    and the 'Errors' figure of the final summary is that counter. *)
Theorem not_found_counts_as_error :
  forall (net : network) (item api_key : string) (st : state),
    interrupt_flag st = false ->
    (scopus_by_doi net item api_key = Response 200 [] ->
     exists st', search_scopus_api net item api_key st = Ok (None, None) st'
                 /\ errors_count st' = errors_count st + 1)
    /\ (scopus_by_title net item api_key = Response 200 [] ->
        exists st', search_scopus_api_title net item api_key st
                    = Ok (None, None, None) st'
                    /\ errors_count st' = errors_count st + 1)
    /\ (openalex_by_title net item = Response 200 [] ->
        exists st', search_openalex_title net item st = Ok (None, None) st'
                    /\ errors_count st' = errors_count st + 1)
    /\ (forall (r : row) (results : list row) (search_mode : string),
           exists (st' : state) (s : summary),
             save_final_results (r :: results) search_mode st = Ok tt st'
             /\ printed_summary st' = Some s
             /\ sm_errors s = errors_count st).
Proof.
  intros net item api_key st Hflag. repeat split.
  - intros E. unfold_call. rewrite Hflag, E. simpl. eauto.
  - intros E. unfold_call. rewrite Hflag, E. simpl. eauto.
  - intros E. unfold_call. rewrite Hflag, E. simpl. eauto.
  - intros r results search_mode. unfold save_final_results, bind, modify.
    eexists _, _. repeat split.
Qed.

Lemma not_found_counts_as_error_witness :
  exists st' : state,
    search_scopus_api (constant_network 200) "10.1000/x" "key" idle_state
    = Ok (None, None) st'
    /\ errors_count st' = 1.
Proof.
  destruct (not_found_counts_as_error (constant_network 200)
              "10.1000/x" "key" idle_state eq_refl) as [H _].
  exact (H eq_refl).
Defined.

(* ================================================================== *)
(** ** Runs that agree on what the results depend on *)
(* ================================================================== *)

(** Two cache entries agree on the fields that a cache hit reads. *)
Definition entry_sim (e1 e2 : cache_entry) : Prop :=
  ce_title e1 = ce_title e2
  /\ ce_scopus_id e1 = ce_scopus_id e2
  /\ ce_doi e1 = ce_doi e2.

Definition cache_sim (c1 c2 : gmap string cache_entry) : Prop :=
  forall k : string, option_Forall2 entry_sim (c1 !! k) (c2 !! k).

(** Two states agree on the interrupt flag and, up to the time stamps,
    on the cache.  Counters, clock and files may differ. *)
Definition sim (st1 st2 : state) : Prop :=
  interrupt_flag st1 = interrupt_flag st2 /\ cache_sim (cache st1) (cache st2).

(** Two outcomes agree: the same value or the same exception, in states
    that agree. *)
Definition outcome_sim {A : Type} (o1 o2 : outcome A) : Prop :=
  match o1, o2 with
  | Ok a s1, Ok b s2 => a = b /\ sim s1 s2
  | Raise e1 s1, Raise e2 s2 => e1 = e2 /\ sim s1 s2
  | _, _ => False
  end.

(** A computation gives agreeing outcomes from agreeing states. *)
Definition respects {A : Type} (m : M A) : Prop :=
  forall st1 st2 : state, sim st1 st2 -> outcome_sim (m st1) (m st2).

Lemma entry_sim_refl (e : cache_entry) : entry_sim e e.
Proof. repeat split. Qed.

Lemma cache_sim_refl (c : gmap string cache_entry) : cache_sim c c.
Proof.
  intros k. destruct (c !! k); constructor. apply entry_sim_refl.
Qed.

Lemma cache_sim_insert (c1 c2 : gmap string cache_entry) (k : string)
    (e1 e2 : cache_entry) :
  cache_sim c1 c2 -> entry_sim e1 e2 -> cache_sim (<[k := e1]> c1) (<[k := e2]> c2).
Proof.
  intros Hc He k'. destruct (decide (k = k')) as [<-|Hne].
  - rewrite !lookup_insert_eq. now constructor.
  - rewrite !lookup_insert_ne by exact Hne. apply Hc.
Qed.

Lemma sim_of_cache_eq (st1 st2 : state) :
  interrupt_flag st1 = interrupt_flag st2 -> cache st1 = cache st2 -> sim st1 st2.
Proof. intros Hf Hc. split; [exact Hf|]. rewrite Hc. apply cache_sim_refl. Qed.

Lemma sim_trans_eq (st1 st2 st3 : state) :
  interrupt_flag st1 = interrupt_flag st2 -> cache st1 = cache st2 ->
  sim st2 st3 -> sim st1 st3.
Proof. intros Hf Hc [Hf' Hc']. split; [congruence|]. now rewrite Hc. Qed.

Section Respect.

Variable net : services.

Lemma ret_respects {A : Type} (a : A) : respects (ret a).
Proof. intros st1 st2 H. now split. Qed.

Lemma bind_respects {A B : Type} (m : M A) (k : A -> M B) :
  respects m -> (forall a, respects (k a)) -> respects (bind m k).
Proof.
  intros Hm Hk st1 st2 H. unfold bind. specialize (Hm st1 st2 H).
  destruct (m st1) as [a s1|e s1], (m st2) as [b s2|e' s2]; simpl in Hm;
    try contradiction.
  - destruct Hm as [<- Hs]. now apply Hk.
  - exact Hm.
Qed.

Lemma raise_respects {A : Type} (e : exn) : respects (raise (A := A) e).
Proof. intros st1 st2 H. now split. Qed.

Lemma modify_respects (f : state -> state) :
  (forall st1 st2, sim st1 st2 -> sim (f st1) (f st2)) -> respects (modify f).
Proof. intros Hf st1 st2 H. split; [reflexivity | now apply Hf]. Qed.

Lemma check_interrupt_respects : respects check_interrupt.
Proof.
  intros st1 st2 H. unfold check_interrupt. pose proof H as [Hf _].
  rewrite Hf. destruct (interrupt_flag st2); simpl; split; auto.
Qed.

Lemma count_request_respects : respects count_request.
Proof. apply modify_respects. now intros st1 st2 [Hf Hc]. Qed.

Lemma count_error_respects : respects count_error.
Proof. apply modify_respects. now intros st1 st2 [Hf Hc]. Qed.

Lemma sleep_respects (n : nat) : respects (modify (sleep n)).
Proof. apply modify_respects. now intros st1 st2 [Hf Hc]. Qed.

Lemma set_respects (key : string) (value : cache_entry) :
  respects (modify (ResultCache_set key value)).
Proof.
  apply modify_respects. intros st1 st2 [Hf Hc]. split; [exact Hf|].
  rewrite !ResultCache_set_cache. apply cache_sim_insert; [exact Hc|].
  repeat split.
Qed.

#[local] Hint Resolve ret_respects raise_respects check_interrupt_respects
  count_request_respects count_error_respects sleep_respects set_respects : re.

(** Proves [respects] for a sequence of statements. *)
Ltac respect :=
  repeat first
    [ apply bind_respects; [|intros ?]
    | progress auto with re
    | match goal with
      | |- respects (match ?r with RequestException => _ | Response _ _ => _ end) =>
          destruct r
      | |- respects (match ?l with [] => _ | _ :: _ => _ end) => destruct l
      | |- respects (match ?o with Some _ => _ | None => _ end) => destruct o
      | |- respects (if ?b then _ else _) => destruct b
      | |- respects (let (_, _) := ?p in _) => destruct p
      | |- respects (match ?p with (_, _) => _ end) => destruct p
      end ].

Lemma search_scopus_api_respects (doi api_key : string) :
  respects (search_scopus_api net doi api_key).
Proof. unfold search_scopus_api. respect. Qed.

Lemma search_openalex_doi_respects (doi : string) :
  respects (search_openalex_doi net doi).
Proof. unfold search_openalex_doi. respect. Qed.

Lemma search_scopus_api_title_respects (title api_key : string) :
  respects (search_scopus_api_title net title api_key).
Proof. unfold search_scopus_api_title. respect. Qed.

Lemma search_openalex_title_respects (title : string) :
  respects (search_openalex_title net title).
Proof. unfold search_openalex_title. respect. Qed.

#[local] Hint Resolve search_scopus_api_respects search_openalex_doi_respects
  search_scopus_api_title_respects search_openalex_title_respects : re.

Lemma get_sim (use_cache : bool) (item : string) (st1 st2 : state) :
  sim st1 st2 ->
  option_Forall2 entry_sim
    (if use_cache then ResultCache_get item st1 else None)
    (if use_cache then ResultCache_get item st2 else None).
Proof.
  intros [_ Hc]. destruct use_cache; [apply Hc | constructor].
Qed.

Lemma process_doi_item_respects (item api_key : string) (use_cache : bool) :
  respects (process_doi_item net item api_key use_cache).
Proof.
  intros st1 st2 H. unfold process_doi_item.
  destruct (get_sim use_cache item st1 st2 H) as [e1 e2 (Ht & Hs & Hd)|].
  - simpl. rewrite Ht, Hs. split; [reflexivity|]. now destruct H.
  - revert st1 st2 H. change (respects ?m) with (respects m). respect.
Qed.

Lemma process_title_item_respects (item api_key : string) (use_cache : bool) :
  respects (process_title_item net item api_key use_cache).
Proof.
  intros st1 st2 H. unfold process_title_item.
  destruct (get_sim use_cache item st1 st2 H) as [e1 e2 (Ht & Hs & Hd)|].
  - simpl. rewrite Ht, Hs, Hd. split; [reflexivity|]. now destruct H.
  - revert st1 st2 H. change (respects ?m) with (respects m). respect.
Qed.

End Respect.

(* ================================================================== *)
(** ** The processing loop *)
(* ================================================================== *)

(** The in-memory cache is what loading the cache file would give. *)
Definition cache_synced (st : state) : Prop := _load_cache st = cache st.

Section Loop.

Variable net : services.

(** One turn of the loop up to the row it appends. *)
Definition process_step (search_mode api_key : string) (use_cache : bool)
    (item : string) : M row :=
  if String.eqb search_mode "doi" then
    bind (process_doi_item net item api_key use_cache)
      (fun result =>
         ret (DoiRow (dr_doi result) (dr_title result) (dr_scopus_id result)))
  else
    bind (process_title_item net item api_key use_cache)
      (fun result =>
         ret (TitleRow (tr_search_title result) (tr_found_title result)
                (tr_scopus_id result) (tr_doi result))).

(** The state after the checkpoint test of turn [i]. *)
Definition checkpointed (search_mode : string)
    (original_count absolute_index i : nat) (results : list row) (st : state)
  : state :=
  if (i mod 10 =? 0)%nat
  then final_state
         (save_checkpoint (search_mode, original_count, absolute_index, clock st)
            results st)
  else st.

Lemma main_loop_cons (search_mode api_key : string) (use_cache : bool)
    (start_index original_count : nat) (item : string) (rest : list string)
    (i : nat) (results : list row) (st : state) :
  main_loop net search_mode api_key use_cache start_index original_count
    (item :: rest) i results st
  = if interrupt_flag st then (results, Raise KeyboardInterrupt st)
    else match process_step search_mode api_key use_cache item st with
         | Raise e st' => (results, Raise e st')
         | Ok r st' =>
             main_loop net search_mode api_key use_cache start_index
               original_count rest (S i) (results ++ [r])
               (checkpointed search_mode original_count (start_index + i) i
                  (results ++ [r]) st')
         end.
Proof.
  unfold process_step. simpl. destruct (interrupt_flag st); [reflexivity|].
  destruct (String.eqb search_mode "doi"); reflexivity.
Qed.

Lemma checkpointed_frame (search_mode : string) (oc ai i : nat)
    (results : list row) (st : state) :
  interrupt_flag (checkpointed search_mode oc ai i results st) = interrupt_flag st
  /\ cache (checkpointed search_mode oc ai i results st) = cache st
  /\ cache_file (checkpointed search_mode oc ai i results st) = cache_file st.
Proof. unfold checkpointed. destruct (_ =? _)%nat; auto. Qed.

Lemma process_step_respects (search_mode api_key : string) (use_cache : bool)
    (item : string) :
  respects (process_step search_mode api_key use_cache item).
Proof.
  unfold process_step. destruct (String.eqb search_mode "doi");
    (apply bind_respects;
     [ first [apply process_doi_item_respects | apply process_title_item_respects]
     | intros r; apply ret_respects ]).
Qed.

(** From states that agree the loop appends the same rows, whatever the
    positions it counts from. *)
Lemma main_loop_sim (search_mode api_key : string) (use_cache : bool) :
  forall (items : list string) (start1 start2 oc1 oc2 i1 i2 : nat)
         (results : list row) (st1 st2 : state),
    sim st1 st2 ->
    let r1 := main_loop net search_mode api_key use_cache start1 oc1 items i1 results st1 in
    let r2 := main_loop net search_mode api_key use_cache start2 oc2 items i2 results st2 in
    r1.1 = r2.1 /\ outcome_sim r1.2 r2.2.
Proof.
  induction items as [|item rest IH];
    intros start1 start2 oc1 oc2 i1 i2 results st1 st2 H.
  - simpl. auto.
  - cbv zeta. rewrite !main_loop_cons. pose proof H as [Hf _]. rewrite Hf.
    destruct (interrupt_flag st2); [simpl; auto|].
    pose proof (process_step_respects search_mode api_key use_cache item st1 st2 H)
      as Hstep.
    destruct (process_step search_mode api_key use_cache item st1) as [a s1|e s1],
      (process_step search_mode api_key use_cache item st2) as [b s2|e' s2];
      simpl in Hstep; try contradiction.
    + destruct Hstep as [<- [Hf' Hc']]. apply IH.
      pose proof (checkpointed_frame search_mode oc1 (start1 + i1) i1
                    (results ++ [a]) s1) as (Ef1 & Ec1 & _).
      pose proof (checkpointed_frame search_mode oc2 (start2 + i2) i2
                    (results ++ [a]) s2) as (Ef2 & Ec2 & _).
      split; [congruence|]. now rewrite Ec1, Ec2.
    + simpl. auto.
Qed.

Lemma main_loop_app (search_mode api_key : string) (use_cache : bool)
    (start_index original_count : nat) :
  forall (l1 l2 : list string) (i : nat) (results : list row) (st : state),
    main_loop net search_mode api_key use_cache start_index original_count
      (l1 ++ l2) i results st
    = match main_loop net search_mode api_key use_cache start_index
              original_count l1 i results st with
      | (r1, Ok _ st1) =>
          main_loop net search_mode api_key use_cache start_index original_count
            l2 (i + length l1) r1 st1
      | (r1, Raise e st1) => (r1, Raise e st1)
      end.
Proof.
  induction l1 as [|x l1 IH]; intros l2 i results st.
  - simpl. now rewrite Nat.add_0_r.
  - rewrite <- app_comm_cons, !main_loop_cons.
    destruct (interrupt_flag st); [reflexivity|].
    destruct (process_step search_mode api_key use_cache x st) as [r st1|e st1];
      [|reflexivity].
    rewrite IH. simpl. now rewrite Nat.add_succ_r.
Qed.

End Loop.

Section LoopRuns.

Variable net : network.

(** Without an interrupt, a turn produces the row of its item. *)
Lemma process_step_runs (search_mode api_key : string) (use_cache : bool)
    (item : string) (st : state) :
  interrupt_flag st = false ->
  exists (r : row) (st' : state),
    process_step net search_mode api_key use_cache item st = Ok r st'
    /\ row_item r = item
    /\ interrupt_flag st' = false
    /\ (cache_synced st -> cache_synced st').
Proof.
  intros Hf. unfold process_step, cache_synced, _load_cache. unfold_item.
  destruct (String.eqb search_mode "doi"), use_cache; rewrite ?Hf;
    repeat (simpl; rewrite ?Hf;
            match goal with
            | |- context [truthy ?x] => destruct (truthy x) eqn:?
            | |- context [(?s =? ?n)%nat] =>
                is_var s; destruct (Nat.eqb_spec s n); subst
            | |- context [match ?l with [] => _ | _ :: _ => _ end] =>
                is_var l; destruct l
            | |- context [match cache st !! ?k with Some _ => _ | None => _ end] =>
                destruct (cache st !! k) eqn:?
            | |- context [match ?r with RequestException => _ | Response _ _ => _ end] =>
                destruct r eqn:?
            end);
    eexists _, _; (split; [reflexivity|]); simpl; auto.
Qed.

Lemma main_loop_runs (search_mode api_key : string) (use_cache : bool)
    (start_index original_count : nat) :
  forall (items : list string) (i : nat) (results : list row) (st : state),
    interrupt_flag st = false ->
    exists (rows : list row) (st' : state),
      main_loop net search_mode api_key use_cache start_index original_count
        items i results st = (results ++ rows, Ok tt st')
      /\ row_item <$> rows = items
      /\ interrupt_flag st' = false
      /\ (cache_synced st -> cache_synced st').
Proof.
  induction items as [|item rest IH]; intros i results st Hf.
  - exists [], st. simpl. rewrite app_nil_r. auto.
  - rewrite main_loop_cons, Hf.
    destruct (process_step_runs search_mode api_key use_cache item st Hf)
      as (r & st1 & -> & Hr & Hf1 & Hs1).
    pose proof (checkpointed_frame search_mode original_count (start_index + i) i
                  (results ++ [r]) st1) as (Ef & Ec & Ecf).
    destruct (IH (S i) (results ++ [r]) _ (eq_trans Ef Hf1))
      as (rows & st' & -> & Hrows & Hf' & Hs').
    exists (r :: rows), st'.
    split; [now rewrite <- app_assoc|].
    split; [now rewrite fmap_cons, Hr, Hrows|]. split; [exact Hf'|].
    intros Hs. apply Hs'. unfold cache_synced, _load_cache in *.
    rewrite Ec, Ecf. now apply Hs1.
Qed.

(** A loop whose last turn has a number divisible by 10 ends on a
    checkpoint holding all rows. *)
Lemma main_loop_last_checkpoint (search_mode api_key : string) (use_cache : bool)
    (start_index original_count : nat) (l : list string) (x : string)
    (i : nat) (results : list row) (st : state) :
  interrupt_flag st = false ->
  (i + length l) mod 10 = 0 ->
  exists (rows : list row) (st' : state) (now : nat),
    main_loop net search_mode api_key use_cache start_index original_count
      (l ++ [x]) i results st = (results ++ rows, Ok tt st')
    /\ row_item <$> rows = l ++ [x]
    /\ interrupt_flag st' = false
    /\ (cache_synced st -> cache_synced st')
    /\ checkpoint_file st'
       = Some {| cp_search_mode := search_mode;
                 cp_total_items := original_count;
                 cp_last_processed_index := start_index + (i + length l);
                 cp_timestamp := now;
                 cp_results := results ++ rows |}.
Proof.
  intros Hf Hmod. rewrite main_loop_app.
  destruct (main_loop_runs search_mode api_key use_cache start_index
              original_count l i results st Hf)
    as (rows & st1 & -> & Hrows & Hf1 & Hs1).
  rewrite main_loop_cons, Hf1.
  destruct (process_step_runs search_mode api_key use_cache x st1 Hf1)
    as (r & st2 & -> & Hr & Hf2 & Hs2).
  simpl. unfold checkpointed. rewrite Hmod. simpl.
  exists (rows ++ [r]), (with_checkpoint_file
                           (Some {| cp_search_mode := search_mode;
                                    cp_total_items := original_count;
                                    cp_last_processed_index :=
                                      start_index + (i + length l);
                                    cp_timestamp := clock st2;
                                    cp_results := (results ++ rows) ++ [r] |}) st2),
    (clock st2).
  rewrite <- app_assoc. repeat split.
  - rewrite fmap_app, Hrows. now rewrite <- Hr.
  - exact Hf2.
  - intros Hs. apply Hs2, Hs1, Hs.
Qed.

End LoopRuns.

(* ================================================================== *)
(** ** Resuming from a checkpoint *)
(* ================================================================== *)

Definition with_limit_resume (limit : option Z) (resume : bool) (a : args) : args :=
  {| arg_doi := arg_doi a; arg_title := arg_title a; arg_limit := limit;
     arg_workers := arg_workers a; arg_resume := resume;
     arg_skip_duplicates := arg_skip_duplicates a; arg_no_cache := arg_no_cache a;
     arg_dry_run := arg_dry_run a; arg_test_key := arg_test_key a;
     arg_reset_key := arg_reset_key a; arg_cache_stats := arg_cache_stats a;
     arg_clear_cache := arg_clear_cache a |}.

(** The search mode and the input file that [main] selects. *)
Definition mode_of (a : args) : string := if arg_title a then "title" else "doi".

Definition input_of (a : args) (inp : inputs) : option (list string) :=
  if arg_title a then titles_txt inp else dois_txt inp.

(** The items loaded from the lines of the input file. *)
Definition loaded_items (lines : list string) : list string :=
  filter (fun line => line ≠ EmptyString) (map strip lines).

(** The items that [main] hands to the processing loop. *)
Definition working_set (a : args) (lines : list string) : list string :=
  select_items (arg_skip_duplicates a)
    (validate_batch (loaded_items lines) (mode_of a)).

(** The command line asks for a processing run, a key is available and
    the input file holds [lines]. *)
Definition reaches_processing (a : args) (inp : inputs) (lines : list string) : Prop :=
  arg_cache_stats a = false /\ arg_clear_cache a = false
  /\ arg_reset_key a = false /\ scopus_key inp <> EmptyString
  /\ arg_test_key a = false /\ arg_doi a || arg_title a = true
  /\ arg_dry_run a = false /\ input_of a inp = Some lines.

(** The state in which processing starts: cache loaded, validation
    report written if there is something to report. *)
Definition prepared (a : args) (lines : list string) (st : state) : state :=
  let st1 := with_cache (_load_cache st) (cache_file st) st in
  let r := validate_batch (loaded_items lines) (mode_of a) in
  if (0 <? rep_invalid r)%nat || (0 <? rep_duplicates r)%nat
  then with_validation_report_file (Some (mode_of a, r)) st1
  else st1.

Lemma prepared_frame (a : args) (lines : list string) (st : state) :
  interrupt_flag (prepared a lines st) = interrupt_flag st
  /\ cache (prepared a lines st) = _load_cache st
  /\ cache_file (prepared a lines st) = cache_file st
  /\ checkpoint_file (prepared a lines st) = checkpoint_file st.
Proof. unfold prepared. destruct (_ || _); auto. Qed.

Lemma prepared_synced (a : args) (lines : list string) (st : state) :
  cache_synced (prepared a lines st).
Proof.
  destruct (prepared_frame a lines st) as (_ & Ec & Ef & _).
  unfold cache_synced, _load_cache in *. now rewrite Ec, Ef.
Qed.

Section Resume.

Variable net : services.

Lemma main_processes (a : args) (inp : inputs) (lines : list string) (st : state) :
  reaches_processing a inp lines ->
  main net a inp st
  = process_working_set net a (scopus_key inp) (mode_of a)
      (length (loaded_items lines)) (working_set a lines) (prepared a lines st).
Proof.
  intros (H1 & H2 & H3 & H4 & H5 & H6 & H7 & H8).
  unfold main, bind, modify, prepared, working_set, save_validation_report.
  rewrite H1, H2, H3, H5, H7.
  destruct (scopus_key inp) as [|c key] eqn:Ek; [congruence|].
  replace (negb (arg_doi a) && negb (arg_title a)) with false
    by (destruct (arg_doi a), (arg_title a); simpl in *; congruence).
  fold (input_of a inp). rewrite H8. simpl. fold (loaded_items lines).
  fold (mode_of a). clear H6.
  destruct (_ || _); reflexivity.
Qed.

Lemma save_final_results_frame (r : row) (results : list row)
    (search_mode : string) (st : state) :
  exists st' : state,
    save_final_results (r :: results) search_mode st = Ok tt st'
    /\ output_file st' = Some (r :: results)
    /\ cache st' = cache st /\ cache_file st' = cache_file st
    /\ checkpoint_file st' = checkpoint_file st.
Proof.
  unfold save_final_results, bind, modify. eexists. repeat split.
Qed.

(** The cut of the working set by the resume offset and the limit. *)
Definition cut_items (limit : option Z) (start_index : nat) (items : list string)
  : list string :=
  match limit with
  | Some limit =>
      if (limit =? 0)%Z then slice_from start_index items
      else slice start_index (Z.of_nat start_index + limit) items
  | None => slice_from start_index items
  end.

(** The end of [main]: the loop over the cut list and the final save. *)
Definition finish_run (api_key search_mode : string) (use_cache : bool)
    (start_index original_count : nat) (existing_results : list row)
    (items : list string) : M unit :=
  match items with
  | [] =>
      match existing_results with
      | [] => ret tt
      | _ => save_final_results existing_results search_mode
      end
  | _ =>
      fun st =>
      let '(results, o) :=
        main_loop net search_mode api_key use_cache start_index original_count
          items 1 existing_results st in
      match o with
      | Ok _ st' => save_final_results results search_mode st'
      | Raise KeyboardInterrupt st' => save_final_results results search_mode st'
      | Raise e st' =>
          match save_final_results results search_mode st' with
          | Ok _ st'' => Raise e st''
          | Raise e' st'' => Raise e' st''
          end
      end
  end.

Lemma process_working_set_unfold (a : args) (api_key search_mode : string)
    (oc : nat) (w : list string) (st : state) :
  process_working_set net a api_key search_mode oc w st
  = match (if arg_resume a then checkpoint_file st else None) with
    | Some cp =>
        finish_run api_key search_mode (negb (arg_no_cache a))
          (cp_last_processed_index cp) oc (cp_results cp)
          (cut_items (arg_limit a) (cp_last_processed_index cp) w) st
    | None =>
        finish_run api_key search_mode (negb (arg_no_cache a)) 0 oc []
          (cut_items (arg_limit a) 0 w) st
    end.
Proof.
  unfold process_working_set, bind, load_checkpoint, ret.
  destruct (arg_resume a); [destruct (checkpoint_file st)|]; reflexivity.
Qed.

Lemma slice_first (n : nat) (items : list string) :
  n <> 0 -> n <= length items ->
  slice 0 (Z.of_nat 0 + Z.of_nat n) items = take n items.
Proof.
  intros Hn Hle. unfold slice.
  destruct (Z.ltb_spec (Z.of_nat 0 + Z.of_nat n) 0) as [Hlt|_]; [lia|].
  rewrite Z.min_l by lia. rewrite drop_0. f_equal. lia.
Qed.

(** The loop over the whole list is the loop over its first [n] items
    followed by the loop over the rest. *)
Lemma main_loop_split (search_mode api_key : string) (use_cache : bool)
    (start_index original_count n : nat) (items : list string)
    (results : list row) (st : state) :
  main_loop net search_mode api_key use_cache start_index original_count
    items 1 results st
  = match main_loop net search_mode api_key use_cache start_index
            original_count (take n items) 1 results st with
    | (r1, Ok _ st1) =>
        main_loop net search_mode api_key use_cache start_index original_count
          (drop n items) (1 + length (take n items)) r1 st1
    | (r1, Raise e st1) => (r1, Raise e st1)
    end.
Proof. now rewrite <- main_loop_app, take_drop. Qed.

End Resume.

Section ResumeRuns.

Variable net : network.

(** Without an interrupt, the end of [main] writes the rows that the
    loop returns, when there are any. *)
Lemma finish_run_runs (api_key search_mode : string) (use_cache : bool)
    (start_index oc : nat) (existing : list row) (items : list string)
    (st : state) :
  interrupt_flag st = false ->
  existing <> [] \/ items <> [] ->
  exists (rows : list row) (st1 st' : state),
    finish_run net api_key search_mode use_cache start_index oc existing items st
    = Ok tt st'
    /\ main_loop net search_mode api_key use_cache start_index oc
         items 1 existing st = (rows, Ok tt st1)
    /\ output_file st' = Some rows
    /\ cache st' = cache st1 /\ cache_file st' = cache_file st1
    /\ checkpoint_file st' = checkpoint_file st1.
Proof.
  intros Hf Hne.
  destruct (main_loop_runs net search_mode api_key use_cache start_index oc
              items 1 existing st Hf) as (rows & st1 & Hloop & Hrows & _ & _).
  unfold finish_run. destruct items as [|y l].
  - simpl in Hloop. injection Hloop as E1 E2. subst st1.
    destruct existing as [|r rs]; [now destruct Hne|].
    destruct (save_final_results_frame r rs search_mode st)
      as (st' & -> & Eo & Ec & Ecf & Eck).
    exists (r :: rs), st, st'. simpl. auto 10.
  - rewrite Hloop.
    destruct (existing ++ rows) as [|r rs] eqn:Er.
    { apply app_eq_nil in Er as [_ Er]. subst rows. discriminate. }
    destruct (save_final_results_frame r rs search_mode st1)
      as (st' & -> & Eo & Ec & Ecf & Eck).
    exists (r :: rs), st1, st'. auto 10.
Qed.

End ResumeRuns.

Lemma start_process_frame (st : state) (now : nat) :
  interrupt_flag (start_process st now) = false
  /\ cache_file (start_process st now) = cache_file st
  /\ checkpoint_file (start_process st now) = checkpoint_file st.
Proof. repeat split. Qed.

Lemma load_of_synced (st : state) (now : nat) :
  cache_synced st -> _load_cache (start_process st now) = cache st.
Proof. intros H. exact H. Qed.

Lemma reaches_processing_limit_resume (a : args) (inp : inputs)
    (lines : list string) (limit : option Z) (resume : bool) :
  reaches_processing a inp lines ->
  reaches_processing (with_limit_resume limit resume a) inp lines.
Proof. intros H. exact H. Qed.

Lemma main_limit_resume (net : network) (a : args) (inp : inputs)
    (lines : list string) (st : state) (limit : option Z) (resume : bool) :
  reaches_processing a inp lines ->
  main net (with_limit_resume limit resume a) inp st
  = match (if resume then checkpoint_file (prepared a lines st) else None) with
    | Some cp =>
        finish_run net (scopus_key inp) (mode_of a) (negb (arg_no_cache a))
          (cp_last_processed_index cp) (length (loaded_items lines))
          (cp_results cp)
          (cut_items limit (cp_last_processed_index cp) (working_set a lines))
          (prepared a lines st)
    | None =>
        finish_run net (scopus_key inp) (mode_of a) (negb (arg_no_cache a))
          0 (length (loaded_items lines)) []
          (cut_items limit 0 (working_set a lines)) (prepared a lines st)
    end.
Proof.
  intros H.
  rewrite (main_processes net _ inp lines st
             (reaches_processing_limit_resume a inp lines limit resume H)).
  now rewrite process_working_set_unfold.
Qed.

(** C3: take a processing run whose working set has at least ten items.
    A first run limited to ten items leaves a checkpoint at index 10
    that holds the rows of items 1 to 10.  A run resumed from it writes
    exactly the rows that a single unlimited run from the same files
    writes: one row per item of the working set, in its order, none
    twice and none missing. *)
Theorem resume_matches_uninterrupted_run :
  forall (net : network) (a : args) (inp : inputs) (lines : list string)
         (st0 : state) (now1 now2 now3 : nat),
    reaches_processing a inp lines ->
    10 <= length (working_set a lines) ->
    let first := run net (with_limit_resume (Some 10%Z) false a) inp st0 now1 in
    let resumed :=
      run net (with_limit_resume None true a) inp (final_state first) now2 in
    let whole := run net (with_limit_resume None false a) inp st0 now3 in
    (exists cp : checkpoint,
        checkpoint_file (final_state first) = Some cp
        /\ cp_last_processed_index cp = 10
        /\ row_item <$> cp_results cp = take 10 (working_set a lines))
    /\ (exists rows : list row,
           output_file (final_state resumed) = Some rows
           /\ output_file (final_state whole) = Some rows
           /\ row_item <$> rows = working_set a lines).
Proof.
  intros net a inp lines st0 now1 now2 now3 Hreach Hlen first resumed whole.
  subst first resumed whole. unfold run.
  set (w := working_set a lines) in *.
  set (key := scopus_key inp). set (mode := mode_of a).
  set (oc := length (loaded_items lines)).
  set (uc := negb (arg_no_cache a)).
  (* the first run *)
  rewrite (main_limit_resume net a inp lines _ (Some 10%Z) false Hreach).
  fold w key mode oc uc.
  change (cut_items (Some 10%Z) 0 w) with (slice 0 (Z.of_nat 0 + Z.of_nat 10) w).
  rewrite (slice_first 10 w) by lia.
  set (p0 := prepared a lines (start_process st0 now1)).
  assert (Hf0 : interrupt_flag p0 = false)
    by (subst p0; now destruct (prepared_frame a lines (start_process st0 now1))).
  assert (Hs0 : cache_synced p0) by apply prepared_synced.
  destruct (lookup_lt_is_Some_2 w 9 ltac:(lia)) as [x Hx].
  assert (Ht : take 10 w = take 9 w ++ [x]) by now apply take_S_r.
  assert (Hl9 : length (take 9 w) = 9) by (rewrite length_take; lia).
  destruct (main_loop_last_checkpoint net mode key uc 0 oc (take 9 w) x 1 [] p0 Hf0)
    as (rows1 & st1 & t1 & Hloop1 & Hrows1 & Hf1 & Hs1 & Hcp1).
  { now rewrite Hl9. }
  rewrite <- Ht in Hloop1, Hrows1. rewrite Hl9 in Hcp1. simpl in Hloop1, Hcp1.
  specialize (Hs1 Hs0).
  destruct (finish_run_runs net key mode uc 0 oc [] (take 10 w) p0 Hf0)
    as (rows1' & st1' & sf1 & -> & Hloop1' & _ & Ec1 & Ecf1 & Eck1).
  { right. rewrite Ht. now destruct (take 9 w). }
  rewrite Hloop1 in Hloop1'. injection Hloop1' as <- <-.
  cbn [final_state].
  assert (Hsf1 : cache_synced sf1).
  { unfold cache_synced, _load_cache in *. now rewrite Ec1, Ecf1. }
  assert (Hne1 : rows1 <> []).
  { intros ->. rewrite Ht in Hrows1. now destruct (take 9 w). }
  split.
  { eexists. split; [rewrite Eck1; exact Hcp1|]. split; [reflexivity | exact Hrows1]. }
  (* the resumed run *)
  rewrite (main_limit_resume net a inp lines _ None true Hreach).
  fold w key mode oc uc.
  set (p2 := prepared a lines (start_process sf1 now2)).
  destruct (prepared_frame a lines (start_process sf1 now2))
    as (Hf2 & Ec2 & _ & Eck2).
  fold p2 in Hf2, Ec2, Eck2. simpl in Hf2, Eck2.
  rewrite (load_of_synced sf1 now2 Hsf1), Ec1 in Ec2.
  rewrite Eck2, Eck1, Hcp1. cbn [cp_last_processed_index cp_results].
  change (cut_items None 10 w) with (drop 10 w).
  destruct (finish_run_runs net key mode uc 10 oc rows1 (drop 10 w) p2 Hf2)
    as (rows2 & st2 & sf2 & -> & Hloop2 & Eo2 & _); [now left|].
  cbn [final_state].
  (* the single run *)
  rewrite (main_limit_resume net a inp lines _ None false Hreach).
  fold w key mode oc uc.
  change (cut_items None 0 w) with w.
  set (p3 := prepared a lines (start_process st0 now3)).
  destruct (prepared_frame a lines (start_process st0 now3)) as (Hf3 & Ec3 & _).
  fold p3 in Hf3, Ec3. simpl in Hf3.
  destruct (finish_run_runs net key mode uc 0 oc [] w p3 Hf3)
    as (rowsF & stF & sfF & -> & HloopF & EoF & _).
  { right. intros E. rewrite E in Hlen. simpl in Hlen. lia. }
  cbn [final_state].
  destruct (main_loop_runs net mode key uc 0 oc w 1 [] p3 Hf3)
    as (rowsF' & stF' & HloopF' & HrowsF & _).
  rewrite HloopF in HloopF'. injection HloopF' as -> <-. simpl in HrowsF.
  (* the single run, split after ten items *)
  rewrite (main_loop_split net mode key uc 0 oc 10 w [] p3) in HloopF.
  destruct (main_loop_runs net mode key uc 0 oc (take 10 w) 1 [] p3 Hf3)
    as (rows3 & st3 & Hloop3 & _ & Hfl3 & _).
  simpl in Hloop3. rewrite Hloop3 in HloopF.
  assert (Hsim0 : sim p0 p3).
  { apply sim_of_cache_eq; [congruence|].
    subst p0. destruct (prepared_frame a lines (start_process st0 now1))
      as (_ & Ec0 & _). rewrite Ec0, Ec3. reflexivity. }
  pose proof (main_loop_sim net mode key uc (take 10 w) 0 0 oc oc 1 1 [] p0 p3 Hsim0)
    as Hcmp.
  cbv zeta in Hcmp. rewrite Hloop1, Hloop3 in Hcmp. simpl in Hcmp.
  destruct Hcmp as [<- [_ Hsim1]].
  assert (Hsim2 : sim p2 st3).
  { apply (sim_trans_eq p2 st1 st3); [congruence | exact Ec2 | exact Hsim1]. }
  pose proof (main_loop_sim net mode key uc (drop 10 w) 10 0 oc oc 1
                (1 + length (take 10 w)) rows1 p2 st3 Hsim2) as Hcmp.
  cbv zeta in Hcmp. rewrite Hloop2, HloopF in Hcmp. simpl in Hcmp.
  destruct Hcmp as [<- _].
  exists rows2. now rewrite Eo2, EoF.
Qed.

(** Twelve DOIs; the service is rate limited on the third, does not know
    the seventh, and finds the others. *)
Definition sample_lines : list string :=
  ["10.1000/k01"; "10.1000/k02"; "10.1000/k03"; "10.1000/k04";
   "10.1000/k05"; "10.1000/k06"; "10.1000/k07"; "10.1000/k08";
   "10.1000/k09"; "10.1000/k10"; "10.1000/k11"; "10.1000/k12"].

Definition sample_network : network :=
  {| scopus_by_doi := fun doi _ =>
       if String.eqb doi "10.1000/k03" then Response 429 []
       else if String.eqb doi "10.1000/k07" then Response 200 []
       else Response 200 [{| dc_title := Some ("Title of " +:+ doi);
                             eid := Some ("2-s2.0-" +:+ doi);
                             prism_doi := Some doi |}];
     openalex_by_doi := fun doi =>
       if String.eqb doi "10.1000/k03" then Response 200 (Some "A fallback title")
       else Response 404 None;
     scopus_by_title := fun _ _ => RequestException;
     openalex_by_title := fun _ => RequestException |}.

Definition sample_args : args :=
  {| arg_doi := true; arg_title := false; arg_limit := None; arg_workers := 3;
     arg_resume := false; arg_skip_duplicates := false; arg_no_cache := false;
     arg_dry_run := false; arg_test_key := false; arg_reset_key := false;
     arg_cache_stats := false; arg_clear_cache := false |}.

Definition sample_inputs : inputs :=
  {| dois_txt := Some sample_lines; titles_txt := None; scopus_key := "key" |}.

Lemma resume_matches_uninterrupted_run_witness :
  reaches_processing sample_args sample_inputs sample_lines
  /\ 10 <= length (working_set sample_args sample_lines)
  /\ (let first :=
        run sample_network (with_limit_resume (Some 10%Z) false sample_args)
          sample_inputs idle_state 100 in
      let resumed :=
        run sample_network (with_limit_resume None true sample_args)
          sample_inputs (final_state first) 200 in
      let whole :=
        run sample_network (with_limit_resume None false sample_args)
          sample_inputs idle_state 300 in
      (exists cp : checkpoint,
          checkpoint_file (final_state first) = Some cp
          /\ cp_last_processed_index cp = 10
          /\ row_item <$> cp_results cp
             = take 10 (working_set sample_args sample_lines))
      /\ (exists rows : list row,
             output_file (final_state resumed) = Some rows
             /\ output_file (final_state whole) = Some rows
             /\ row_item <$> rows = working_set sample_args sample_lines)).
Proof.
  assert (H1 : reaches_processing sample_args sample_inputs sample_lines).
  { repeat split. discriminate. }
  assert (H2 : 10 <= length (working_set sample_args sample_lines)).
  { vm_compute. lia. }
  split; [exact H1|]. split; [exact H2|].
  exact (resume_matches_uninterrupted_run sample_network sample_args
           sample_inputs sample_lines idle_state 100 200 300 H1 H2).
Defined.

(** The rows of the sample run, resumed after ten items. *)
Example sample_resumed_rows :
  output_file
    (final_state
       (run sample_network (with_limit_resume None true sample_args) sample_inputs
          (final_state
             (run sample_network (with_limit_resume (Some 10%Z) false sample_args)
                sample_inputs idle_state 100)) 200))
  = output_file
      (final_state
         (run sample_network (with_limit_resume None false sample_args)
            sample_inputs idle_state 300))
  /\ fmap (M := list) row_item <$> output_file
       (final_state
          (run sample_network (with_limit_resume None false sample_args)
             sample_inputs idle_state 300))
     = Some sample_lines.
Proof. vm_compute. split; reflexivity. Qed.

(* ================================================================== *)
(** * Further properties *)
(* ================================================================== *)

(* ================================================================== *)
(** ** Titles, loaded items and the DOI pattern *)
(* ================================================================== *)

Lemma take_chars_all (n : nat) (s : string) :
  String.length s <= n -> take_chars n s = s.
Proof.
  revert n. induction s as [|c r IH]; intros n H; destruct n as [|n];
    simpl in *; try reflexivity; [lia|].
  rewrite IH by lia. reflexivity.
Qed.

(** X1: [validate_title] trims its input; it reports an empty title when
    nothing is left, a too-short title (quoting the trimmed text) when
    fewer than ten characters are left, and accepts every title that
    keeps at least ten characters. *)
Theorem validate_title_cases :
  forall s : string,
    (strip s = EmptyString /\ validate_title s = (false, "Empty title"))
    \/ (strip s <> EmptyString /\ String.length (strip s) < 10
        /\ validate_title s
           = (false, "Title too short (min 10 chars): " +:+ strip s))
    \/ (10 <= String.length (strip s) /\ validate_title s = (true, EmptyString)).
Proof.
  intros s. unfold validate_title.
  destruct (strip s) as [|c r] eqn:Es; [left; auto | right].
  destruct (Nat.ltb_spec (String.length (String c r)) MIN_TITLE_LENGTH) as [Hlt|Hge].
  - left. split; [discriminate|]. split; [exact Hlt|].
    rewrite take_chars_all by (unfold MIN_TITLE_LENGTH in Hlt; lia).
    reflexivity.
  - right. split; [exact Hge | reflexivity].
Qed.

(** The items of a loaded file are trimmed and not empty. *)
Lemma loaded_items_trimmed (lines : list string) :
  Forall (fun item => strip item = item /\ item <> EmptyString) (loaded_items lines).
Proof.
  unfold loaded_items. apply Forall_forall. intros x Hx.
  apply list_elem_of_filter in Hx as [Hne Hin].
  apply list_elem_of_fmap in Hin as (y & -> & _).
  split; [apply strip_idem | exact Hne].
Qed.

(** On Latin-1 text the line reader of the pipeline is the line reader
    on code points. *)
Lemma load_items_latin1 (lines : list string) :
  Unicode.load_items (Unicode.of_string <$> lines)
  = Unicode.of_string <$> loaded_items lines.
Proof.
  unfold Unicode.load_items, loaded_items.
  induction lines as [|l lines IH]; [reflexivity|].
  rewrite fmap_cons. cbn [map]. rewrite !filter_cons, strip_latin1.
  destruct (strip l) as [|c r] eqn:El; cbn [Unicode.of_string].
  - destruct (decide ([] ≠ [])) as [Hn|_]; [congruence|].
    destruct (decide (EmptyString ≠ EmptyString)) as [Hn|_]; [congruence|].
    exact IH.
  - destruct (decide (N_of_ascii c :: Unicode.of_string r ≠ [])) as [_|Hn];
      [|now destruct Hn].
    destruct (decide (String c r ≠ EmptyString)) as [_|Hn]; [|now destruct Hn].
    rewrite fmap_cons. f_equal. exact IH.
Qed.

(** X2: [load_items_from_file] raises [FileNotFoundError] when the file
    is missing and leaves the state as it was; otherwise it returns the
    lines trimmed, without the blank ones, so that every item is
    non-empty and free of surrounding whitespace.  On lines of arbitrary
    code points the same holds for every whitespace code point, and
    [validate_doi] accepts a loaded item exactly when the item itself
    is a word of the DOI grammar (decimal digits of any script; the
    allowed characters with the case variants of their letters). *)
Theorem load_items_from_file_trims :
  (forall st : state, load_items_from_file None st = Raise FileNotFoundError st)
  /\ (forall (lines : list string) (st : state),
         load_items_from_file (Some lines) st = Ok (loaded_items lines) st
         /\ Unicode.of_string <$> loaded_items lines
            = Unicode.load_items (Unicode.of_string <$> lines)
         /\ Forall (fun item => strip item = item /\ item <> EmptyString)
              (loaded_items lines))
  /\ (forall lines : list Unicode.str,
         Forall (fun item =>
                   Unicode.strip item = item /\ item <> []
                   /\ ((Unicode.validate_doi item).1 = true
                       <-> Unicode.doi_grammar item))
           (Unicode.load_items lines)).
Proof.
  split; [reflexivity|]. split.
  - intros lines st. split; [reflexivity|].
    split; [symmetry; apply load_items_latin1 | apply loaded_items_trimmed].
  - intros lines.
    eapply Forall_impl; [apply UnicodeFacts.load_items_trimmed|].
    intros x [Hs Hne]. split; [exact Hs|]. split; [exact Hne|].
    destruct (UnicodeFacts.validate_doi_trichotomy x)
      as [[E _]|[(_ & Hn & E)|[Hg E]]]; rewrite Hs in *.
    + congruence.
    + rewrite E. simpl. split; [discriminate | intros G; now destruct Hn].
    + rewrite E. simpl. split; auto.
Qed.

(** X3: the strings of code points that [DOI_PATTERN.match] accepts are
    the words of the grammar 10.<4-9 digits>/<allowed characters>, and
    those words followed by one final newline (the end anchor [$] also
    matches before a newline that ends the string).  The digits are the
    decimal digits of any script, not only 0-9; the allowed characters
    are [-._;()/:], 0-9, A-Z, a-z and the four code points U+0130,
    U+0131, U+017F and U+212A that [re.IGNORECASE] holds equivalent to
    i, s and k.  On Latin-1 text the pattern is the one of the
    pipeline. *)
Theorem DOI_PATTERN_language :
  (forall s : Unicode.str,
      Unicode.fullmatch Unicode.DOI_PATTERN s = true <->
      (Unicode.doi_grammar s
       \/ exists t, s = t ++ [0x0A%N] /\ Unicode.doi_grammar t))
  /\ (forall c : N,
         Unicode.isdecimal c = true <->
         Exists (fun r => (r.1 <= c <= r.2)%N) Unicode.decimal_digits)
  /\ (forall c : N,
         Unicode.DOI_CHARSET_IGNORECASE c = true <->
         c ∈ Unicode.of_string "-._;()/:"
         \/ (0x30 <= c <= 0x39)%N \/ (0x41 <= c <= 0x5A)%N
         \/ (0x61 <= c <= 0x7A)%N
         \/ c ∈ [0x0130; 0x0131; 0x017F; 0x212A]%N)
  /\ (forall s : string,
         Unicode.fullmatch Unicode.DOI_PATTERN (Unicode.of_string s)
         = fullmatch DOI_PATTERN s).
Proof.
  split; [exact UnicodeFacts.DOI_PATTERN_unicode_words|].
  split; [|split; [|exact fullmatch_latin1]].
  - intros c. unfold Unicode.isdecimal, Unicode.in_ranges.
    rewrite existsb_exists, Exists_exists. split.
    + intros (r & Hin & Hr). exists r. split; [now apply list_elem_of_In|].
      apply andb_true_iff in Hr as [H1 H2].
      apply N.leb_le in H1, H2. auto.
    + intros (r & Hin & [H1 H2]). exists r. split; [now apply list_elem_of_In|].
      apply andb_true_iff. split; now apply N.leb_le.
  - intros c. unfold Unicode.DOI_CHARSET_IGNORECASE, Unicode.DOI_CHARSET,
      Unicode.ignorecase_variants, Unicode.between.
    cbn [Unicode.of_string]. change (N_of_ascii "-") with 0x2D%N.
    change (N_of_ascii ".") with 0x2E%N. change (N_of_ascii "_") with 0x5F%N.
    change (N_of_ascii ";") with 0x3B%N. change (N_of_ascii "(") with 0x28%N.
    change (N_of_ascii ")") with 0x29%N. change (N_of_ascii "/") with 0x2F%N.
    change (N_of_ascii ":") with 0x3A%N.
    rewrite !orb_true_iff, !andb_true_iff, !N.leb_le, !N.eqb_eq.
    rewrite !elem_of_cons, !elem_of_nil. tauto.
Qed.

(** Every class of the pattern gives the same answer on a character and
    on its lowercase. *)
Fixpoint case_blind (r : regex) : Prop :=
  match r with
  | Never | Empty => True
  | Class p => forall c, p (lower_char c) = p c
  | Seq r1 r2 | Or r1 r2 => case_blind r1 /\ case_blind r2
  | Many r1 => case_blind r1
  end.

Lemma deriv_lower (r : regex) (c : ascii) :
  case_blind r -> deriv (lower_char c) r = deriv c r.
Proof.
  induction r as [| |p|r1 IH1 r2 IH2|r1 IH1 r2 IH2|r IH]; simpl; intros H;
    try reflexivity.
  - now rewrite H.
  - destruct H as [H1 H2]. now rewrite IH1, IH2.
  - destruct H as [H1 H2]. now rewrite IH1, IH2.
  - now rewrite IH.
Qed.

Lemma case_blind_deriv (r : regex) (c : ascii) :
  case_blind r -> case_blind (deriv c r).
Proof.
  induction r as [| |p|r1 IH1 r2 IH2|r1 IH1 r2 IH2|r IH]; simpl; intros H; auto.
  - destruct (p c); exact I.
  - destruct H as [H1 H2]. destruct (nullable r1); simpl; auto.
  - destruct H as [H1 H2]. auto.
Qed.

Lemma fullmatch_lower (s : string) :
  forall r : regex, case_blind r -> fullmatch r (lower s) = fullmatch r s.
Proof.
  induction s as [|c s IH]; intros r H; [reflexivity|].
  change (lower (String c s)) with (String (lower_char c) (lower s)).
  simpl. rewrite deriv_lower by exact H. apply IH, case_blind_deriv, H.
Qed.

Lemma lit_case_blind (a c : ascii) :
  Ascii.eqb (lower_char (lower_char c)) (lower_char a)
  = Ascii.eqb (lower_char c) (lower_char a).
Proof. now rewrite lower_char_idem. Qed.

Lemma digit_case_blind (c : ascii) : digit (lower_char c) = digit c.
Proof. each_char c. Qed.

Lemma charset_case_blind (c : ascii) :
  ignorecase DOI_CHARSET (lower_char c) = ignorecase DOI_CHARSET c.
Proof. each_char c. Qed.

Lemma newline_case_blind (c : ascii) :
  Ascii.eqb "010" (lower_char c) = Ascii.eqb "010" c.
Proof. each_char c. Qed.

Lemma DOI_PATTERN_case_blind : case_blind DOI_PATTERN.
Proof.
  unfold DOI_PATTERN, lit, repeat, plus, dollar. simpl.
  repeat split; intros c;
    first [ apply lit_case_blind | apply digit_case_blind
          | apply charset_case_blind | apply newline_case_blind ].
Qed.

Lemma lower_empty (s : string) : lower s = EmptyString <-> s = EmptyString.
Proof. destruct s; simpl; split; intros H; try reflexivity; discriminate. Qed.

(** On Latin-1 text, whether [validate_doi] accepts a string does not
    depend on the case of its letters. *)
Lemma validate_doi_lower (s : string) :
  (validate_doi (lower s)).1 = (validate_doi s).1.
Proof.
  unfold validate_doi. rewrite <- lower_strip.
  rewrite fullmatch_lower by apply DOI_PATTERN_case_blind.
  destruct (strip s) as [|c r]; [reflexivity|].
  change (lower (String c r)) with (String (lower_char c) (lower r)).
  destruct (fullmatch DOI_PATTERN (String c r)); reflexivity.
Qed.

Lemma validate_doi_normalize (s : string) :
  (validate_doi (normalize s)).1 = (validate_doi s).1.
Proof.
  unfold normalize. rewrite <- (validate_doi_lower s). unfold validate_doi at 1.
  rewrite strip_idem. reflexivity.
Qed.

(** X4: on Latin-1 text, whether [validate_doi] accepts a string does
    not depend on the case of its letters, so the normalised key of a
    valid DOI, under which it is deduplicated and cached, is a valid DOI
    as well.  Beyond Latin-1 this fails: "10.1000/" followed by U+0130
    is accepted, and its lowercase, which ends in i and U+0307, is
    not. *)
Theorem validate_doi_ignores_latin1_case :
  (forall s : string,
      (Unicode.validate_doi (Unicode.of_string (lower s))).1
      = (Unicode.validate_doi (Unicode.of_string s)).1
      /\ (Unicode.validate_doi (Unicode.of_string (normalize s))).1
         = (Unicode.validate_doi (Unicode.of_string s)).1)
  /\ (Unicode.validate_doi (Unicode.of_string "10.1000/" ++ [0x0130%N])).1 = true
  /\ (Unicode.validate_doi (Unicode.of_string "10.1000/" ++ [0x69%N; 0x0307%N])).1
     = false.
Proof.
  split; [|split; vm_compute; reflexivity].
  intros s. rewrite !validate_doi_latin1. cbn [fst].
  split; [apply validate_doi_lower | apply validate_doi_normalize].
Qed.

(* ================================================================== *)
(** ** The validation report *)
(* ================================================================== *)

(** The records of the items that fail [f], with their 1-based
    positions in [enumerate_from i items]. *)
Definition invalid_records (f : string -> bool * string)
    (ps : list (nat * string)) : list (nat * string * string) :=
  omap (fun p => if (f p.2).1 then None else Some (p.1 + 1, p.2, (f p.2).2)) ps.

Lemma validate_batch_loop_invalid (f : string -> bool * string) :
  forall (items : list string) (i : nat) (v : list string)
         (inv : list (nat * string * string)),
    (validate_batch_loop f items i v inv).2
    = inv ++ invalid_records f (enumerate_from i items).
Proof.
  induction items as [|x items IH]; intros i v inv.
  - simpl. now rewrite app_nil_r.
  - rewrite enumerate_from_cons. simpl. unfold invalid_records. simpl.
    replace (i + 0) with i by lia.
    destruct (f x) as [[] msg]; simpl.
    + rewrite IH. reflexivity.
    + rewrite IH, <- app_assoc. reflexivity.
Qed.

Lemma validate_batch_parts (items : list string) (search_mode : string) :
  let r := validate_batch items search_mode in
  let valid_items := filter (is_valid search_mode) items in
  rep_total r = length items
  /\ rep_valid r = length valid_items
  /\ rep_invalid r = length (rep_invalid_items r)
  /\ rep_invalid_items r
     = invalid_records (validator search_mode) (enumerate_from 0 items)
  /\ rep_unique r = length (rep_unique_items r)
  /\ rep_duplicates r = length (rep_duplicate_items r)
  /\ rep_unique_items r = first_occurrences valid_items
  /\ rep_duplicate_items r = later_occurrences valid_items.
Proof.
  unfold validate_batch. fold (validator search_mode).
  pose proof (validate_batch_loop_valid (validator search_mode) items 0 [] []) as Hv.
  pose proof (validate_batch_loop_invalid (validator search_mode) items 0 [] []) as Hi.
  destruct (validate_batch_loop (validator search_mode) items 0 [] []) as [v inv].
  simpl in Hv, Hi. subst v inv.
  change (filter (fun x => (validator search_mode x).1 = true) items)
    with (filter (is_valid search_mode) items).
  rewrite detect_duplicates_spec. simpl. repeat split; reflexivity.
Qed.

Lemma invalid_records_length (f : string -> bool * string) :
  forall (items : list string) (i : nat),
    length (filter (fun x => (f x).1 = true) items)
    + length (invalid_records f (enumerate_from i items))
    = length items.
Proof.
  induction items as [|x items IH]; intros i; [reflexivity|].
  rewrite enumerate_from_cons, filter_cons. specialize (IH (S i)).
  unfold invalid_records in *. cbn [omap list_omap snd fst].
  destruct (decide ((f x).1 = true)) as [E|E].
  - rewrite E. simpl. lia.
  - destruct (f x).1; [congruence|]. simpl. lia.
Qed.

Lemma occurrences_length (items : list string) :
  length (first_occurrences items) + length (later_occurrences items)
  = length items.
Proof.
  unfold first_occurrences, later_occurrences, enumerate_from.
  rewrite !length_fmap.
  assert (H : forall l : list (nat * string),
             length (filter (is_first items) l)
             + length (filter (fun p => ~ is_first items p) l) = length l).
  { induction l as [|p l IH]; [reflexivity|].
    rewrite !filter_cons.
    destruct (decide (is_first items p)) as [Hp|Hp].
    - rewrite (decide_False (P := ~ is_first items p)) by tauto. simpl. lia.
    - rewrite (decide_True (P := ~ is_first items p)) by tauto. simpl. lia. }
  rewrite H. apply length_imap.
Qed.

(** X5: the counts of the validation report add up: every item of the
    input is counted once as valid or as invalid, and every valid item
    once as unique or as duplicate; the working set [unique_items] is
    never longer than the input. *)
Theorem validate_batch_counts :
  forall (items : list string) (search_mode : string),
    let r := validate_batch items search_mode in
    rep_total r = length items
    /\ rep_total r = rep_valid r + rep_invalid r
    /\ rep_valid r = rep_unique r + rep_duplicates r
    /\ rep_invalid r = length (rep_invalid_items r)
    /\ rep_unique r = length (rep_unique_items r)
    /\ rep_duplicates r = length (rep_duplicate_items r)
    /\ length (select_items false r) <= length items.
Proof.
  intros items search_mode r.
  destruct (validate_batch_parts items search_mode)
    as (Ht & Hv & Hi & Hii & Hu & Hd & Hui & Hdi).
  fold r in Ht, Hv, Hi, Hii, Hu, Hd, Hui, Hdi.
  pose proof (invalid_records_length (validator search_mode) items 0) as H1.
  pose proof (occurrences_length (filter (is_valid search_mode) items)) as H2.
  change (filter (fun x => (validator search_mode x).1 = true) items)
    with (filter (is_valid search_mode) items) in H1.
  rewrite <- Hii in H1. rewrite <- Hui, <- Hdi in H2.
  rewrite select_items_unique.
  repeat split; try assumption; lia.
Qed.

Lemma enumerate_from_lookup (n : nat) (items : list string) (p : nat * string) :
  p ∈ enumerate_from n items
  <-> exists i, p.1 = n + i /\ items !! i = Some p.2.
Proof.
  unfold enumerate_from. rewrite list_elem_of_lookup. split.
  - intros [i Hi]. rewrite list_lookup_imap in Hi.
    destruct (items !! i) as [x|] eqn:E; simpl in Hi; [|discriminate].
    injection Hi as <-. exists i. auto.
  - intros (i & Hp & Hi). exists i. rewrite list_lookup_imap, Hi. simpl.
    destruct p as [a b]. simpl in *. now subst.
Qed.

(** X6: the invalid records of the report are the items of the input
    that the validator of the mode rejects, each with its 1-based
    position in the input and the validator's message. *)
Theorem validate_batch_invalid_items :
  forall (items : list string) (search_mode : string)
         (line : nat) (item error : string),
    (line, item, error) ∈ rep_invalid_items (validate_batch items search_mode)
    <-> exists i : nat,
          line = i + 1 /\ items !! i = Some item
          /\ validator search_mode item = (false, error).
Proof.
  intros items search_mode line item error.
  destruct (validate_batch_parts items search_mode) as (_ & _ & _ & -> & _).
  unfold invalid_records. rewrite list_elem_of_omap. split.
  - intros ([n x] & Hin & Hp). simpl in Hp.
    apply enumerate_from_lookup in Hin as (i & Hn & Hi). simpl in Hn, Hi.
    destruct (validator search_mode x) as [[] msg] eqn:E; simpl in Hp;
      [discriminate|].
    injection Hp as <- <- <-. exists i. subst n. auto.
  - intros (i & -> & Hi & E). exists (i, item). split.
    + apply enumerate_from_lookup. exists i. auto.
    + simpl. rewrite E. reflexivity.
Qed.

Lemma first_index_Some (items : list string) (k : string) (j : nat) :
  first_index items k = Some j
  <-> exists y, items !! j = Some y /\ normalize y = k
                /\ forall i z, items !! i = Some z -> i < j -> normalize z <> k.
Proof.
  unfold first_index. split.
  - intros H. destruct (list_find _ items) as [[j' y]|] eqn:E; [|discriminate].
    simpl in H. injection H as ->.
    apply list_find_Some in E as (Hy & Hk & Hmin). exists y. auto.
  - intros (y & Hy & Hk & Hmin).
    assert (E : list_find (fun x => normalize x = k) items = Some (j, y))
      by (apply list_find_Some; auto).
    now rewrite E.
Qed.

(** X7: the duplicate records are computed on the list of valid items:
    a record (line, item, first) says that the valid item number [line]
    is [item], and that the valid item number [first], which comes
    before it, is the first one with the same normalised key.  Both
    numbers count valid items only, not lines of the input. *)
Theorem validate_batch_duplicate_items :
  forall (items : list string) (search_mode : string)
         (line : nat) (item : string) (first : nat),
    let valid_items := filter (is_valid search_mode) items in
    (line, item, first) ∈ rep_duplicate_items (validate_batch items search_mode)
    <-> exists i j : nat,
          line = i + 1 /\ first = j + 1 /\ j < i
          /\ valid_items !! i = Some item
          /\ first_index valid_items (normalize item) = Some j.
Proof.
  intros items search_mode line item first valid_items.
  destruct (validate_batch_parts items search_mode) as (_ & _ & _ & _ & _ & _ & _ & ->).
  fold valid_items. unfold later_occurrences.
  rewrite list_elem_of_fmap. split.
  - intros ([i x] & Hrec & Hin).
    apply list_elem_of_filter in Hin as [Hnf Hin].
    apply enumerate_from_lookup in Hin as (i' & Hi' & Hx). simpl in Hi', Hx.
    subst i'. unfold duplicate_record in Hrec. simpl in Hrec.
    unfold is_first in Hnf. simpl in Hnf.
    destruct (first_index valid_items (normalize x)) as [j|] eqn:Ej.
    + simpl in Hrec. injection Hrec as -> -> ->.
      exists i, j. repeat split; auto.
      assert (j <> i) by congruence.
      apply first_index_Some in Ej as (y & Hy & Hk & Hmin).
      destruct (Nat.lt_trichotomy j i) as [Hlt|[Heq|Hgt]]; [exact Hlt|contradiction|].
      exfalso. exact (Hmin i x Hx Hgt eq_refl).
    + exfalso. unfold first_index in Ej.
      destruct (list_find _ valid_items) as [[j y]|] eqn:E; [discriminate|].
      apply list_find_None in E.
      apply (proj1 (Forall_lookup _ _) E i x Hx). reflexivity.
  - intros (i & j & -> & -> & Hlt & Hx & Hj). exists (i, item). split.
    + unfold duplicate_record. simpl. now rewrite Hj.
    + apply list_elem_of_filter. split.
      * unfold is_first. simpl. rewrite Hj. intros H. injection H as ->. lia.
      * apply enumerate_from_lookup. exists i. auto.
Qed.

Lemma filter_all {A : Type} (P : A -> Prop) `{forall x, Decision (P x)}
    (l : list A) :
  Forall P l -> filter P l = l.
Proof.
  induction 1 as [|x l Hx _ IH]; [reflexivity|].
  now rewrite filter_cons, decide_True, IH.
Qed.

Lemma filter_none {A : Type} (P : A -> Prop) `{forall x, Decision (P x)}
    (l : list A) :
  Forall (fun x => ~ P x) l -> filter P l = [].
Proof.
  induction 1 as [|x l Hx _ IH]; [reflexivity|].
  now rewrite filter_cons, decide_False, IH.
Qed.

Lemma enumerate_from_snd (items : list string) :
  forall n : nat, snd <$> enumerate_from n items = items.
Proof.
  induction items as [|x items IH]; intros n; [reflexivity|].
  rewrite enumerate_from_cons, fmap_cons, IH. reflexivity.
Qed.

(** A list whose keys are pairwise different has no duplicate. *)
Lemma detect_duplicates_distinct (items : list string) :
  NoDup (normalize <$> items) -> detect_duplicates items = (items, []).
Proof.
  intros Hnd. rewrite detect_duplicates_spec.
  assert (Hall : Forall (is_first items) (enumerate_from 0 items)).
  { apply Forall_forall. intros [i x] Hp.
    apply enumerate_from_lookup in Hp as (i' & Hi & Hx). simpl in Hi, Hx.
    subst i'. unfold is_first. simpl. apply first_index_Some.
    exists x. repeat split; auto. intros j z Hz Hlt Hk.
    assert (j = i); [|lia].
    apply (NoDup_lookup _ j i (normalize x) Hnd);
      rewrite list_lookup_fmap; [rewrite Hz|rewrite Hx]; simpl; congruence. }
  unfold first_occurrences, later_occurrences.
  rewrite (filter_all _ _ Hall), enumerate_from_snd.
  rewrite (filter_none (fun p => ~ is_first items p)); [reflexivity|].
  eapply Forall_impl; [exact Hall|]. tauto.
Qed.

(** X8: validating the working set again reports nothing: in the same
    mode every item of [unique_items] is valid and unique, so the
    second report has no invalid and no duplicate record and the same
    [unique_items]. *)
Theorem working_set_is_clean :
  forall (items : list string) (search_mode : string),
    let w := rep_unique_items (validate_batch items search_mode) in
    validate_batch w search_mode
    = {| rep_total := length w; rep_valid := length w; rep_invalid := 0;
         rep_invalid_items := []; rep_unique := length w; rep_duplicates := 0;
         rep_duplicate_items := []; rep_unique_items := w |}.
Proof.
  intros items search_mode w.
  assert (Hw : NoDup (normalize <$> w) /\ Forall (is_valid search_mode) w).
  { subst w. rewrite validate_batch_unique_items.
    destruct (detect_duplicates_keys (filter (is_valid search_mode) items))
      as [Hnd Hin].
    split; [exact Hnd|]. apply Forall_forall. intros x Hx. apply Hin in Hx.
    now apply list_elem_of_filter in Hx as [Hv _]. }
  destruct Hw as [Hnd Hv]. clearbody w.
  destruct (validate_batch_parts w search_mode)
    as (Ht & Hva & Hi & Hii & Hu & Hd & Hui & Hdi).
  pose proof (invalid_records_length (validator search_mode) w 0) as Hlen.
  change (filter (fun x => (validator search_mode x).1 = true) w)
    with (filter (is_valid search_mode) w) in Hlen.
  rewrite <- Hii in Hlen.
  rewrite (filter_all _ _ Hv) in Hva, Hui, Hdi, Hlen.
  pose proof (detect_duplicates_distinct w Hnd) as Hdd.
  rewrite detect_duplicates_spec in Hdd. injection Hdd as Hfo Hlo.
  rewrite Hfo in Hui. rewrite Hlo in Hdi.
  assert (Hnil : rep_invalid_items (validate_batch w search_mode) = [])
    by (apply length_zero_iff_nil; lia).
  clear Hii Hlen. rewrite Hnil in Hi.
  destruct (validate_batch w search_mode) as [t v i ii u d di ui].
  simpl in *. subst. reflexivity.
Qed.

(* ================================================================== *)
(** ** The cache object *)
(* ================================================================== *)

(** The dictionary returned by [ResultCache.stats]; its [cache_file]
    entry is the constant path. *)
Record cache_stats : Type := {
  total_entries : nat;
  file_exists : bool
}.

(** [ResultCache.stats] *)
Definition ResultCache_stats (st : state) : cache_stats :=
  {| total_entries := size (cache st);
     file_exists := match cache_file st with Some _ => true | None => false end |}.

(** Two states agree on everything but the cache and its file. *)
Definition cache_only (st st' : state) : Prop :=
  interrupt_flag st' = interrupt_flag st
  /\ requests_made st' = requests_made st
  /\ errors_count st' = errors_count st
  /\ cache_hits st' = cache_hits st
  /\ clock st' = clock st
  /\ checkpoint_file st' = checkpoint_file st
  /\ output_file st' = output_file st
  /\ validation_report_file st' = validation_report_file st
  /\ printed_summary st' = printed_summary st.

(** X9: on any cache, [set] followed by [get] under a key with the same
    normalised form returns the stored record with its time stamp; the
    entries under all other keys are as before; [set] and [clear] write
    the whole cache to the cache file and change nothing else; after
    [clear] every [get] finds nothing. *)
Theorem ResultCache_set_then_get :
  forall (key key' : string) (value : cache_entry) (st : state),
    let st' := ResultCache_set key value st in
    ResultCache_get key' st'
    = (if decide (normalize key' = normalize key)
       then Some (stamped (clock st) value)
       else ResultCache_get key' st)
    /\ cache_file st' = Some (cache st')
    /\ cache_only st st'
    /\ ResultCache_get key' (ResultCache_clear st) = None
    /\ cache_file (ResultCache_clear st) = Some (cache (ResultCache_clear st))
    /\ cache_only st (ResultCache_clear st).
Proof.
  intros key key' value st st'. subst st'.
  rewrite !ResultCache_get_normalize, ResultCache_set_cache.
  split; [|split; [apply ResultCache_set_file|]].
  - destruct (decide (normalize key' = normalize key)) as [->|Hne].
    + apply lookup_insert_eq.
    + apply lookup_insert_ne. congruence.
  - unfold cache_only. simpl. rewrite lookup_empty. repeat split; reflexivity.
Qed.

(** X10: [stats] counts the distinct normalised keys: a [set] under a key
    that has an entry (under any spelling) leaves [total_entries] as it
    is, a [set] under a new key adds one, and [clear] brings it to zero;
    after a [set] or a [clear] the cache file exists. *)
Theorem ResultCache_stats_counts_keys :
  forall (key : string) (value : cache_entry) (st : state),
    total_entries (ResultCache_stats (ResultCache_set key value st))
    = (match ResultCache_get key st with
       | Some _ => total_entries (ResultCache_stats st)
       | None => S (total_entries (ResultCache_stats st))
       end)
    /\ file_exists (ResultCache_stats (ResultCache_set key value st)) = true
    /\ ResultCache_stats (ResultCache_clear st)
       = {| total_entries := 0; file_exists := true |}.
Proof.
  intros key value st. unfold ResultCache_stats.
  rewrite ResultCache_set_cache, ResultCache_get_normalize, ResultCache_set_file.
  split; [|split; [reflexivity|]].
  - simpl. destruct (cache st !! normalize key) as [e|] eqn:E.
    + rewrite <- (insert_delete_id (cache st) (normalize key) e E) at 2.
      rewrite <- insert_delete_eq.
      rewrite !map_size_insert_None by apply lookup_delete_eq. reflexivity.
    + now apply map_size_insert_None.
  - simpl. now rewrite map_size_empty.
Qed.

(* ================================================================== *)
(** ** What a lookup call and the processing of an item cost *)
(* ================================================================== *)

(** Services in which the primary service knows one title and the
    fallback service answers with a null [ids['doi']]. *)
Definition null_doi_services : services :=
  {| ask_scopus_by_doi := fun _ _ => Response 200 [];
     ask_openalex_by_doi := fun _ => Response 404 None;
     ask_scopus_by_title := fun title _ =>
       if String.eqb title "A known title"
       then Response 200 [{| dc_title := Some "A known title";
                             eid := Some "2-s2.0-7"; prism_doi := None |}]
       else Response 200 [];
     ask_openalex_by_title := fun _ =>
       Response 200 [{| work_title := Some "A study of things";
                        work_ids_doi := Some None |}] |}.

Example null_doi_raises :
  search_openalex_title null_doi_services "a study of things" idle_state
  = Raise AttributeError (with_requests_made 1 idle_state)
  /\ process_title_item null_doi_services "a study of things" "key" true idle_state
     = Raise AttributeError
         (with_requests_made 2 (with_errors_count 1 idle_state)).
Proof. split; reflexivity. Qed.

(** X11: on answers as [services] has them, the primary lookups and the
    DOI lookup of the fallback service raise nothing but the
    cancellation, and that only when the interrupt flag is set and
    before anything is counted.  The title
    search of the fallback service also raises [AttributeError], exactly
    when the answer is 200 with a first result whose [ids['doi']] is
    there and is no string; the request is counted by then, no error
    is, and nothing else has changed.  A call that returns has counted
    exactly one request and at most one error, has slept at most 5
    units (the fallback service: not at all), and has not touched the
    cache, the cache-hit counter or any file; a primary lookup that
    returns a Scopus ID counted no error and did not sleep. *)
Theorem lookup_calls_touch_counters_only :
  forall (svc : services) (item api_key : string),
    call_outcome (fun v => truthy v.2) 5 (search_scopus_api svc item api_key)
    /\ call_outcome (fun v => truthy v.1.2) 5
         (search_scopus_api_title svc item api_key)
    /\ call_outcome (fun _ => false) 0 (search_openalex_doi svc item)
    /\ title_search_outcome svc item.
Proof.
  intros svc item api_key.
  split; [apply search_scopus_api_outcome|].
  split; [apply search_scopus_api_title_outcome|].
  split; [apply search_openalex_doi_outcome | apply search_openalex_title_raises].
Qed.

(** What the processing of an item that is looked up (not served from
    the cache) does to the counters, the clock and the files, with
    [found] telling whether the primary service gave a Scopus ID. *)
Definition lookup_effect (found : bool) (st st' : state) : Prop :=
  interrupt_flag st' = false
  /\ requests_made st' = requests_made st + (if found then 1 else 2)
  /\ errors_count st <= errors_count st'
     <= errors_count st + (if found then 0 else 2)
  /\ clock st + DELAY_BETWEEN_REQUESTS <= clock st'
     <= clock st + DELAY_BETWEEN_REQUESTS + (if found then 0 else 5)
  /\ cache_hits st' = cache_hits st
  /\ checkpoint_file st' = checkpoint_file st
  /\ output_file st' = output_file st
  /\ validation_report_file st' = validation_report_file st
  /\ printed_summary st' = printed_summary st.

Ltac use_outcome H :=
  match type of H with
  | match ?call ?st with Ok _ _ => _ | Raise _ _ => _ end =>
      let E := fresh "E" in
      destruct (call st) as [? ?|? ?] eqn:E;
      [ destruct H as (? & (? & ? & ? & ? & ? & ? & ? & ?) & ? & ? & ?)
      | destruct H as (? & ? & ?); congruence ]
  end.

Section ItemCost.

Variable net : network.

Lemma process_doi_item_lookup (item api_key : string) (use_cache : bool)
    (st : state) :
  (if use_cache then ResultCache_get item st else None) = None ->
  interrupt_flag st = false ->
  exists (r : doi_result) (st' : state),
    process_doi_item net item api_key use_cache st = Ok r st'
    /\ dr_doi r = item /\ dr_cached r = false
    /\ lookup_effect (truthy (dr_scopus_id r)) st st'.
Proof.
  intros Hmiss Hf. unfold process_doi_item. rewrite Hmiss. unfold bind.
  pose proof (search_scopus_api_outcome net item api_key st) as Hprimary.
  use_outcome Hprimary. destruct a as [title scopus_id]. simpl in *.
  destruct (truthy scopus_id) eqn:T; simpl.
  - destruct use_cache; simpl; eexists _, _; (split; [reflexivity|]); simpl;
      rewrite T; unfold lookup_effect, DELAY_BETWEEN_REQUESTS; simpl;
      repeat split; try congruence; lia.
  - pose proof (search_openalex_doi_outcome net item st0) as Hfallback.
    use_outcome Hfallback. simpl.
    eexists _, _. split; [reflexivity|]. simpl. rewrite T.
    unfold lookup_effect, DELAY_BETWEEN_REQUESTS. simpl.
    repeat split; try congruence; lia.
Qed.

Lemma process_title_item_lookup (item api_key : string) (use_cache : bool)
    (st : state) :
  (if use_cache then ResultCache_get item st else None) = None ->
  interrupt_flag st = false ->
  exists (r : title_result) (st' : state),
    process_title_item net item api_key use_cache st = Ok r st'
    /\ tr_search_title r = item /\ tr_cached r = false
    /\ lookup_effect (truthy (tr_scopus_id r)) st st'.
Proof.
  intros Hmiss Hf. unfold process_title_item. rewrite Hmiss. unfold bind.
  pose proof (search_scopus_api_title_outcome net item api_key st) as Hprimary.
  use_outcome Hprimary. destruct a as [[title scopus_id] doi]. simpl in *.
  destruct (truthy scopus_id) eqn:T; simpl.
  - destruct use_cache; simpl; eexists _, _; (split; [reflexivity|]); simpl;
      rewrite T; unfold lookup_effect, DELAY_BETWEEN_REQUESTS; simpl;
      repeat split; try congruence; lia.
  - pose proof (search_openalex_title_outcome net item st0) as Hfallback.
    use_outcome Hfallback. destruct a as [title' doi']. simpl.
    eexists _, _. split; [reflexivity|]. simpl. rewrite T.
    unfold lookup_effect, DELAY_BETWEEN_REQUESTS. simpl.
    repeat split; try congruence; lia.
Qed.

Lemma process_item_cancelled (item api_key : string) (use_cache : bool)
    (st : state) :
  (if use_cache then ResultCache_get item st else None) = None ->
  interrupt_flag st = true ->
  process_doi_item net item api_key use_cache st = Raise KeyboardInterrupt st
  /\ process_title_item net item api_key use_cache st = Raise KeyboardInterrupt st.
Proof.
  intros Hmiss Hf. unfold process_doi_item, process_title_item.
  rewrite Hmiss. unfold_call. rewrite Hf. auto.
Qed.

End ItemCost.



Section ReadThrough.

Variable net : network.

Lemma process_doi_item_hit (item api_key : string) (e : cache_entry) (st : state) :
  ResultCache_get item st = Some e ->
  process_doi_item net item api_key true st
  = Ok {| dr_doi := item; dr_title := ce_title e;
          dr_scopus_id := ce_scopus_id e; dr_cached := true |}
       (with_cache_hits (cache_hits st + 1) st).
Proof. intros H. unfold process_doi_item. now rewrite H. Qed.

Lemma process_title_item_hit (item api_key : string) (e : cache_entry) (st : state) :
  ResultCache_get item st = Some e ->
  process_title_item net item api_key true st
  = Ok {| tr_search_title := item; tr_found_title := ce_title e;
          tr_scopus_id := ce_scopus_id e; tr_doi := ce_doi e; tr_cached := true |}
       (with_cache_hits (cache_hits st + 1) st).
Proof. intros H. unfold process_title_item. now rewrite H. Qed.

(** After an item was processed with caching on and a Scopus ID came
    out, the cache holds the fields of the result under the key of the
    item. *)
Lemma process_doi_item_cached (item api_key : string) (st st' : state)
    (r : doi_result) :
  process_doi_item net item api_key true st = Ok r st' ->
  truthy (dr_scopus_id r) = true ->
  exists e : cache_entry,
    cache st' !! normalize item = Some e
    /\ ce_title e = dr_title r /\ ce_scopus_id e = dr_scopus_id r.
Proof.
  intros H T.
  destruct (ResultCache_get item st) as [e|] eqn:G.
  - rewrite (process_doi_item_hit _ _ e) in H by exact G.
    injection H as <- <-. exists e. simpl.
    now rewrite <- ResultCache_get_normalize.
  - pose proof (process_doi_item_cache net item api_key true st) as Hc.
    rewrite H in Hc. destruct Hc as [Hc _]. unfold cache_effect in Hc.
    destruct (interrupt_flag st) eqn:Hf.
    { destruct (process_item_cancelled net item api_key true st G Hf) as [E _].
      congruence. }
    destruct (process_doi_item_lookup net item api_key true st G Hf)
      as (r' & st'' & E & _ & Hcached & _).
    rewrite H in E. injection E as <- <-.
    rewrite Hcached, T in Hc. simpl in Hc. destruct Hc as (-> & _).
    eexists. rewrite lookup_insert_eq. split; [reflexivity|]. simpl. auto.
Qed.

Lemma process_title_item_cached (item api_key : string) (st st' : state)
    (r : title_result) :
  process_title_item net item api_key true st = Ok r st' ->
  truthy (tr_scopus_id r) = true ->
  exists e : cache_entry,
    cache st' !! normalize item = Some e
    /\ ce_title e = tr_found_title r /\ ce_scopus_id e = tr_scopus_id r
    /\ ce_doi e = tr_doi r.
Proof.
  intros H T.
  destruct (ResultCache_get item st) as [e|] eqn:G.
  - rewrite (process_title_item_hit _ _ e) in H by exact G.
    injection H as <- <-. exists e. simpl.
    now rewrite <- ResultCache_get_normalize.
  - pose proof (process_title_item_cache net item api_key true st) as Hc.
    rewrite H in Hc. destruct Hc as [Hc _]. unfold cache_effect in Hc.
    destruct (interrupt_flag st) eqn:Hf.
    { destruct (process_item_cancelled net item api_key true st G Hf) as [_ E].
      congruence. }
    destruct (process_title_item_lookup net item api_key true st G Hf)
      as (r' & st'' & E & _ & Hcached & _).
    rewrite H in E. injection E as <- <-.
    rewrite Hcached, T in Hc. simpl in Hc. destruct Hc as (-> & _).
    eexists. rewrite lookup_insert_eq. split; [reflexivity|]. simpl. auto.
Qed.

End ReadThrough.

(** X13: once an item was processed with caching on and a Scopus ID
    came out, processing any spelling of the same key again (whatever
    the services now answer, whatever the API key, and even with the
    interrupt flag set) is a cache hit: it returns the same title,
    Scopus ID and DOI marked as cached, adds one to the cache-hit
    counter and changes nothing else, so no request is sent and no
    pause made. *)
Theorem lookup_then_cache_hit :
  forall (net net' : network) (item item' api_key api_key' : string)
         (st st' : state),
    normalize item' = normalize item ->
    (forall r : doi_result,
        process_doi_item net item api_key true st = Ok r st' ->
        truthy (dr_scopus_id r) = true ->
        process_doi_item net' item' api_key' true st'
        = Ok {| dr_doi := item'; dr_title := dr_title r;
                dr_scopus_id := dr_scopus_id r; dr_cached := true |}
             (with_cache_hits (cache_hits st' + 1) st'))
    /\ (forall r : title_result,
           process_title_item net item api_key true st = Ok r st' ->
           truthy (tr_scopus_id r) = true ->
           process_title_item net' item' api_key' true st'
           = Ok {| tr_search_title := item'; tr_found_title := tr_found_title r;
                   tr_scopus_id := tr_scopus_id r; tr_doi := tr_doi r;
                   tr_cached := true |}
                (with_cache_hits (cache_hits st' + 1) st')).
Proof.
  intros net net' item item' api_key api_key' st st' Hk. split; intros r H T.
  - destruct (process_doi_item_cached net item api_key st st' r H T)
      as (e & He & <- & <-).
    apply process_doi_item_hit.
    now rewrite ResultCache_get_normalize, Hk.
  - destruct (process_title_item_cached net item api_key st st' r H T)
      as (e & He & <- & <- & <-).
    apply process_title_item_hit.
    now rewrite ResultCache_get_normalize, Hk.
Qed.

Lemma lookup_then_cache_hit_witness :
  process_doi_item (constant_network 500) " 10.1000/a " "other key" true
    (final_state (process_doi_item found_network "10.1000/A" "key" true idle_state))
  = Ok {| dr_doi := " 10.1000/a "; dr_title := Some "Found";
          dr_scopus_id := Some "2-s2.0-1"; dr_cached := true |}
       (with_cache_hits 1
          (final_state
             (process_doi_item found_network "10.1000/A" "key" true idle_state))).
Proof.
  exact (proj1 (lookup_then_cache_hit found_network (constant_network 500)
                  "10.1000/A" " 10.1000/a " "key" "other key" idle_state _
                  eq_refl)
           {| dr_doi := "10.1000/A"; dr_title := Some "Found";
              dr_scopus_id := Some "2-s2.0-1"; dr_cached := false |}
           eq_refl eq_refl).
Defined.

(* ================================================================== *)
(** ** Counters and checkpoints through the main loop *)
(* ================================================================== *)

(** From [st] to [st'], [n] items were processed: [hits] from the
    cache and [lookups] by asking the services.  Every lookup made one
    or two requests and was followed by a pause; no more errors were
    counted than requests made; the cache only grew; the output file,
    the report file and the printed summary were not touched. *)
Definition progress (n : nat) (st st' : state) : Prop :=
  exists hits lookups requests errors : nat,
    n = hits + lookups
    /\ cache_hits st' = cache_hits st + hits
    /\ requests_made st' = requests_made st + requests
    /\ errors_count st' = errors_count st + errors
    /\ lookups <= requests <= 2 * lookups
    /\ errors <= requests
    /\ clock st + lookups * DELAY_BETWEEN_REQUESTS <= clock st'
       <= clock st + lookups * (DELAY_BETWEEN_REQUESTS + 5)
    /\ cache st ⊆ cache st'
    /\ output_file st' = output_file st
    /\ validation_report_file st' = validation_report_file st
    /\ printed_summary st' = printed_summary st.



Lemma progress_hit (st : state) :
  progress 1 st (with_cache_hits (cache_hits st + 1) st).
Proof.
  exists 1, 0, 0, 0. unfold DELAY_BETWEEN_REQUESTS. simpl.
  repeat split; lia || auto.
Qed.

Lemma progress_lookup (found : bool) (st st' : state) :
  lookup_effect found st st' -> cache st ⊆ cache st' -> progress 1 st st'.
Proof.
  intros (_ & Hr & He & Hc & Hh & _ & Ho & Hv & Hp) Hs.
  exists 0, 1, (if found then 1 else 2), (errors_count st' - errors_count st).
  unfold DELAY_BETWEEN_REQUESTS in *.
  destruct found; repeat split; try lia; auto.
Qed.

Section LoopFacts.

Variable net : network.

Lemma process_step_progress (search_mode api_key : string) (use_cache : bool)
    (item : string) (st : state) :
  interrupt_flag st = false ->
  exists (r : row) (st' : state),
    process_step net search_mode api_key use_cache item st = Ok r st'
    /\ row_item r = item
    /\ interrupt_flag st' = false
    /\ checkpoint_file st' = checkpoint_file st
    /\ progress 1 st st'.
Proof.
  intros Hf. unfold process_step.
  destruct (if use_cache then ResultCache_get item st else None) as [e|] eqn:G.
  - destruct use_cache; [|discriminate].
    destruct (String.eqb search_mode "doi"); unfold bind;
      [ rewrite (process_doi_item_hit net item api_key e st G)
      | rewrite (process_title_item_hit net item api_key e st G) ];
      eexists _, _; (split; [reflexivity|]); simpl;
      repeat split; auto using progress_hit.
  - assert (Hk : use_cache = true -> cache st !! normalize item = None).
    { intros ->. now rewrite <- ResultCache_get_normalize. }
    destruct (String.eqb search_mode "doi"); unfold bind.
    + destruct (process_doi_item_lookup net item api_key use_cache st G Hf)
        as (r & st' & E & Hi & Hc & Heff).
      pose proof (process_doi_item_cache net item api_key use_cache st) as Hce.
      rewrite E in *. destruct Hce as [Hce _]. unfold cache_effect in Hce.
      eexists _, _. split; [reflexivity|]. simpl.
      split; [exact Hi|]. split; [apply Heff|]. split; [apply Heff|].
      apply (progress_lookup _ _ _ Heff).
      destruct (use_cache && negb (dr_cached r) && truthy (dr_scopus_id r)) eqn:B.
      * destruct Hce as (-> & _). apply insert_subseteq, Hk.
        now destruct use_cache.
      * destruct Hce as (-> & _). reflexivity.
    + destruct (process_title_item_lookup net item api_key use_cache st G Hf)
        as (r & st' & E & Hi & Hc & Heff).
      pose proof (process_title_item_cache net item api_key use_cache st) as Hce.
      rewrite E in *. destruct Hce as [Hce _]. unfold cache_effect in Hce.
      eexists _, _. split; [reflexivity|]. simpl.
      split; [exact Hi|]. split; [apply Heff|]. split; [apply Heff|].
      apply (progress_lookup _ _ _ Heff).
      destruct (use_cache && negb (tr_cached r) && truthy (tr_scopus_id r)) eqn:B.
      * destruct Hce as (-> & _). apply insert_subseteq, Hk.
        now destruct use_cache.
      * destruct Hce as (-> & _). reflexivity.
Qed.



(** A stretch of the loop whose positions are no multiples of ten
    leaves the checkpoint file as it is. *)
Lemma main_loop_no_checkpoint (search_mode api_key : string) (use_cache : bool)
    (start_index original_count : nat) :
  forall (items : list string) (i : nat) (results : list row) (st : state),
    interrupt_flag st = false ->
    (forall j, i <= j < i + length items -> j mod 10 <> 0) ->
    exists (rows : list row) (st' : state),
      main_loop net search_mode api_key use_cache start_index original_count
        items i results st = (results ++ rows, Ok tt st')
      /\ row_item <$> rows = items
      /\ checkpoint_file st' = checkpoint_file st.
Proof.
  induction items as [|item rest IH]; intros i results st Hf Hno.
  - exists [], st. simpl. rewrite app_nil_r. auto.
  - rewrite main_loop_cons, Hf.
    destruct (process_step_progress search_mode api_key use_cache item st Hf)
      as (r & st1 & -> & Hr & Hf1 & Hck & _).
    assert (Hi : (i mod 10 =? 0)%nat = false).
    { apply Nat.eqb_neq, Hno. simpl. lia. }
    unfold checkpointed. rewrite Hi.
    destruct (IH (S i) (results ++ [r]) st1 Hf1) as (rows & st' & -> & Hrows & Hck').
    { intros j Hj. apply Hno. simpl. lia. }
    exists (r :: rows), st'.
    split; [now rewrite <- app_assoc|].
    split; [now rewrite fmap_cons, Hr, Hrows|]. congruence.
Qed.

End LoopFacts.



(** X15: the loop of [main] (positions counted from 1) writes a
    checkpoint after every tenth item of the run and at no other time.
    A run of fewer than ten items leaves the checkpoint file as it was.
    After a longer run the file holds the checkpoint of the last
    multiple of ten: its index is the start index plus that multiple,
    its rows are the rows restored at the start followed by the rows of
    the items up to there; so at most nine items of work are missing
    from it. *)
Theorem checkpoint_every_tenth_item :
  forall (net : network) (search_mode api_key : string) (use_cache : bool)
         (start_index original_count : nat) (items : list string)
         (results : list row) (st : state),
    interrupt_flag st = false ->
    exists (rows : list row) (st' : state),
      main_loop net search_mode api_key use_cache start_index original_count
        items 1 results st = (results ++ rows, Ok tt st')
      /\ row_item <$> rows = items
      /\ (length items < 10 -> checkpoint_file st' = checkpoint_file st)
      /\ (10 <= length items ->
          exists now : nat,
            checkpoint_file st'
            = Some {| cp_search_mode := search_mode;
                      cp_total_items := original_count;
                      cp_last_processed_index :=
                        start_index + 10 * (length items / 10);
                      cp_timestamp := now;
                      cp_results :=
                        results ++ take (10 * (length items / 10)) rows |}).
Proof.
  intros net search_mode api_key use_cache start_index original_count items
    results st Hf.
  destruct (Nat.lt_ge_cases (length items) 10) as [Hlt|Hge].
  - destruct (main_loop_no_checkpoint net search_mode api_key use_cache
                start_index original_count items 1 results st Hf)
      as (rows & st' & E & Hrows & Hck).
    { intros j Hj. rewrite Nat.mod_small by lia. lia. }
    exists rows, st'. repeat split; auto. intros H. lia.
  - set (q := length items / 10).
    assert (Hq : 1 <= q) by (apply Nat.div_le_lower_bound; lia).
    assert (Hqn : 10 * q <= length items) by (apply Nat.Div0.mul_div_le).
    assert (Hrem : length items < 10 * q + 10).
    { pose proof (Nat.div_mod_eq (length items) 10) as Hd.
      pose proof (Nat.mod_upper_bound (length items) 10) as Hm.
      fold q in Hd. lia. }
    rewrite (main_loop_split net search_mode api_key use_cache start_index
               original_count (10 * q) items results st).
    destruct (take (10 * q) items) as [|y l] eqn:Et using rev_ind.
    { apply (f_equal length) in Et. rewrite length_take in Et. simpl in Et. lia. }
    clear IHl.
    assert (Hl : S (length l) = 10 * q).
    { apply (f_equal length) in Et. rewrite length_take, length_app in Et.
      simpl in Et. lia. }
    destruct (main_loop_last_checkpoint net search_mode api_key use_cache
                start_index original_count l y 1 results st Hf)
      as (rows1 & st1 & now & -> & Hrows1 & Hf1 & _ & Hck1).
    { replace (1 + length l) with (q * 10) by lia. apply Nat.Div0.mod_mul. }
    destruct (main_loop_no_checkpoint net search_mode api_key use_cache
                start_index original_count (drop (10 * q) items)
                (1 + length (l ++ [y])) (results ++ rows1) st1 Hf1)
      as (rows2 & st2 & -> & Hrows2 & Hck2).
    { intros j Hj. rewrite length_app, length_drop in Hj. simpl in Hj.
      intros Hj0. apply Nat.Div0.mod_divides in Hj0 as [c Hc]. nia. }
    assert (Hlen1 : length rows1 = 10 * q).
    { apply (f_equal length) in Hrows1.
      rewrite length_fmap, length_app in Hrows1. simpl in Hrows1. lia. }
    exists (rows1 ++ rows2), st2. rewrite app_assoc.
    split; [reflexivity|]. split.
    { rewrite fmap_app, Hrows1, Hrows2, <- Et. apply take_drop. }
    split; [intros H; lia|]. intros _. exists now.
    rewrite Hck2, Hck1. f_equal. f_equal; [lia|].
    f_equal. rewrite take_app_length'; [reflexivity|now symmetry].
Qed.

Lemma checkpoint_every_tenth_item_witness :
  exists (rows : list row) (st' : state),
    main_loop sample_network "doi" "key" true 0 12 sample_lines 1 [] idle_state
    = ([] ++ rows, Ok tt st')
    /\ row_item <$> rows = sample_lines
    /\ (length sample_lines < 10 -> checkpoint_file st' = checkpoint_file idle_state)
    /\ (10 <= length sample_lines ->
        exists now : nat,
          checkpoint_file st'
          = Some {| cp_search_mode := "doi";
                    cp_total_items := 12;
                    cp_last_processed_index := 0 + 10 * (length sample_lines / 10);
                    cp_timestamp := now;
                    cp_results :=
                      [] ++ take (10 * (length sample_lines / 10)) rows |}).
Proof.
  exact (checkpoint_every_tenth_item sample_network "doi" "key" true 0 12
           sample_lines [] idle_state eq_refl).
Defined.

(* ================================================================== *)
(** ** Whole runs *)
(* ================================================================== *)

(** The run gets as far as loading the input file [input]. *)
Definition reaches_loading (a : args) (inp : inputs)
    (input : option (list string)) : Prop :=
  arg_cache_stats a = false /\ arg_clear_cache a = false
  /\ arg_reset_key a = false /\ scopus_key inp <> EmptyString
  /\ arg_test_key a = false /\ arg_doi a || arg_title a = true
  /\ input_of a inp = input.

(** No file of the state was written between [st] and [st']. *)
Definition files_kept (st st' : state) : Prop :=
  cache_file st' = cache_file st
  /\ checkpoint_file st' = checkpoint_file st
  /\ output_file st' = output_file st
  /\ validation_report_file st' = validation_report_file st.

(** The three counters are at zero. *)
Definition counters_zero (st : state) : Prop :=
  requests_made st = 0 /\ errors_count st = 0 /\ cache_hits st = 0.

(** Command lines for the examples: [--doi --dry-run], [--title] and
    [--doi --clear-cache]. *)
Definition dry_run_args : args :=
  {| arg_doi := true; arg_title := false; arg_limit := None; arg_workers := 3;
     arg_resume := false; arg_skip_duplicates := false; arg_no_cache := false;
     arg_dry_run := true; arg_test_key := false; arg_reset_key := false;
     arg_cache_stats := false; arg_clear_cache := false |}.

Definition title_args : args :=
  {| arg_doi := false; arg_title := true; arg_limit := None; arg_workers := 3;
     arg_resume := false; arg_skip_duplicates := false; arg_no_cache := false;
     arg_dry_run := false; arg_test_key := false; arg_reset_key := false;
     arg_cache_stats := false; arg_clear_cache := false |}.


Lemma prepared_counters (a : args) (lines : list string) (st : state) :
  requests_made (prepared a lines st) = requests_made st
  /\ errors_count (prepared a lines st) = errors_count st
  /\ cache_hits (prepared a lines st) = cache_hits st
  /\ clock (prepared a lines st) = clock st
  /\ output_file (prepared a lines st) = output_file st
  /\ printed_summary (prepared a lines st) = printed_summary st.
Proof. unfold prepared. destruct (_ || _); auto 10. Qed.

Lemma main_loads (net : services) (a : args) (inp : inputs)
    (input : option (list string)) (st : state) :
  reaches_loading a inp input ->
  main net a inp st
  = match input with
    | None =>
        Raise FileNotFoundError (with_cache (_load_cache st) (cache_file st) st)
    | Some lines =>
        if arg_dry_run a then Ok tt (prepared a lines st)
        else process_working_set net a (scopus_key inp) (mode_of a)
               (length (loaded_items lines)) (working_set a lines)
               (prepared a lines st)
    end.
Proof.
  intros (H1 & H2 & H3 & H4 & H5 & H6 & H7).
  unfold main, bind, modify, prepared, working_set, save_validation_report.
  rewrite H1, H2, H3, H5.
  destruct (scopus_key inp) as [|c key] eqn:Ek; [congruence|].
  replace (negb (arg_doi a) && negb (arg_title a)) with false
    by (destruct (arg_doi a), (arg_title a); simpl in *; congruence).
  fold (input_of a inp). rewrite H7. destruct input as [lines|]; [|reflexivity].
  simpl. fold (loaded_items lines). fold (mode_of a). clear H6.
  destruct (_ || _); destruct (arg_dry_run a); reflexivity.
Qed.

(** X16: a dry run validates and stops.  It ends normally, whatever the
    services would answer: no request is counted, the cache, checkpoint
    and results files are as before and no summary is printed.  The
    validation report is written exactly when the input has an invalid
    or a duplicate item; on a clean input the report file of an earlier
    run stays in place. *)
Theorem dry_run_only_validates :
  forall (a : args) (inp : inputs) (lines : list string) (st : state) (now : nat),
    reaches_loading a inp (Some lines) ->
    arg_dry_run a = true ->
    let r := validate_batch (loaded_items lines) (mode_of a) in
    exists st' : state,
      (forall net : network, run net a inp st now = Ok tt st')
      /\ counters_zero st'
      /\ cache_file st' = cache_file st
      /\ checkpoint_file st' = checkpoint_file st
      /\ output_file st' = output_file st
      /\ printed_summary st' = None
      /\ validation_report_file st'
         = (if (0 <? rep_invalid r)%nat || (0 <? rep_duplicates r)%nat
            then Some (mode_of a, r)
            else validation_report_file st).
Proof.
  intros a inp lines st now Hr Hd r.
  exists (prepared a lines (start_process st now)). split.
  - intros net. unfold run. rewrite (main_loads net a inp _ _ Hr), Hd. reflexivity.
  - unfold counters_zero, prepared. fold r.
    destruct (_ || _); simpl; auto 10.
Qed.

Lemma dry_run_only_validates_witness :
  exists st' : state,
    (forall net : network,
        run net dry_run_args sample_inputs idle_state 7 = Ok tt st')
    /\ validation_report_file st' = None.
Proof.
  destruct (dry_run_only_validates dry_run_args
              sample_inputs sample_lines idle_state 7)
    as (st' & Hrun & _ & _ & _ & _ & _ & Hrep).
  - repeat split. discriminate.
  - reflexivity.
  - exists st'. split; [exact Hrun|]. rewrite Hrep. reflexivity.
Defined.

(** X17: when the input file of the selected mode does not exist, the
    run ends with [FileNotFoundError] before anything is validated or
    looked up: no request is counted and the cache, checkpoint, results
    and report files are as before, with or without [--dry-run]. *)
Theorem missing_input_file_stops_the_run :
  forall (net : network) (a : args) (inp : inputs) (st : state) (now : nat),
    reaches_loading a inp None ->
    exists st' : state,
      run net a inp st now = Raise FileNotFoundError st'
      /\ counters_zero st'
      /\ files_kept st st'
      /\ printed_summary st' = None.
Proof.
  intros net a inp st now Hr. unfold run.
  rewrite (main_loads net a inp _ _ Hr).
  eexists. split; [reflexivity|]. unfold counters_zero, files_kept. simpl. auto 10.
Qed.

Lemma missing_input_file_stops_the_run_witness :
  exists st' : state,
    run sample_network title_args sample_inputs idle_state 7 = Raise FileNotFoundError st'
    /\ counters_zero st'
    /\ files_kept idle_state st'
    /\ printed_summary st' = None.
Proof.
  apply (missing_input_file_stops_the_run sample_network title_args
           sample_inputs idle_state 7).
  repeat split. discriminate.
Defined.





Lemma save_final_results_cache (results : list row) (search_mode : string)
    (st : state) :
  cache (final_state (save_final_results results search_mode st)) = cache st
  /\ cache_file (final_state (save_final_results results search_mode st))
     = cache_file st.
Proof.
  unfold save_final_results, bind, modify, raise.
  destruct results; simpl; auto.
Qed.

(** The checkpoint that [main] restores. *)
Definition restored (a : args) (st : state) : option checkpoint :=
  if arg_resume a then checkpoint_file st else None.

Definition restored_index (cp : option checkpoint) : nat :=
  match cp with
  | Some cp => cp_last_processed_index cp
  | None => 0
  end.

Definition restored_results (cp : option checkpoint) : list row :=
  match cp with
  | Some cp => cp_results cp
  | None => []
  end.

(** The items that a run processes: the working set, cut at the
    restored index and by [--limit]. *)
Definition items_to_process (a : args) (lines : list string) (st : state)
  : list string :=
  cut_items (arg_limit a) (restored_index (restored a st)) (working_set a lines).

Lemma run_processes (net : services) (a : args) (inp : inputs)
    (lines : list string) (st : state) (now : nat) :
  reaches_processing a inp lines ->
  exists st0 : state,
    run net a inp st now
    = finish_run net (scopus_key inp) (mode_of a) (negb (arg_no_cache a))
        (restored_index (restored a st)) (length (loaded_items lines))
        (restored_results (restored a st)) (items_to_process a lines st) st0
    /\ interrupt_flag st0 = false
    /\ counters_zero st0
    /\ cache_synced st0
    /\ _load_cache st0 = _load_cache st
    /\ cache_file st0 = cache_file st
    /\ printed_summary st0 = None.
Proof.
  intros Hr. exists (prepared a lines (start_process st now)).
  destruct (prepared_frame a lines (start_process st now)) as (Pf & Pc & Pcf & Pck).
  destruct (prepared_counters a lines (start_process st now))
    as (Pr & Pe & Ph & _ & _ & Pp).
  split; [|split; [|split; [|split; [|split; [|split; [exact Pcf|exact Pp]]]]]].
  - unfold run. rewrite (main_processes net a inp lines _ Hr).
    rewrite process_working_set_unfold, Pck.
    unfold items_to_process, restored. simpl.
    destruct (arg_resume a); [destruct (checkpoint_file st)|]; reflexivity.
  - now rewrite Pf.
  - unfold counters_zero. now rewrite Pr, Pe, Ph.
  - apply prepared_synced.
  - unfold _load_cache at 1. now rewrite Pcf.
Qed.



(** Between [st] and [st'] the cache kept every entry it had, and it
    stayed in step with its file if it was. *)
Definition cache_kept (st st' : state) : Prop :=
  cache st ⊆ cache st' /\ (cache_synced st -> cache_synced st').

Lemma cache_kept_refl (st : state) : cache_kept st st.
Proof. split; [reflexivity|auto]. Qed.

Lemma cache_kept_trans (st1 st2 st3 : state) :
  cache_kept st1 st2 -> cache_kept st2 st3 -> cache_kept st1 st3.
Proof. intros [H1 S1] [H2 S2]. split; [etrans; eassumption|auto]. Qed.

Lemma untouched_kept (st st' : state) : untouched st st' -> cache_kept st st'.
Proof.
  intros [Hc Hcf]. unfold cache_kept, cache_synced, _load_cache.
  rewrite Hc, Hcf. split; [reflexivity|auto].
Qed.

Lemma written_kept (use_cache : bool) (item : string) (entry : cache_entry)
    (st st' : state) :
  cached_result use_cache item st = None ->
  written use_cache item entry st st' -> cache_kept st st'.
Proof.
  unfold written, cached_result. destruct use_cache; [|intros _; apply untouched_kept].
  rewrite ResultCache_get_normalize. intros Hmiss (Hc & _ & Hcf).
  unfold cache_kept, cache_synced, _load_cache. rewrite Hcf. split; [|auto].
  rewrite Hc. now apply insert_subseteq.
Qed.

Section CacheGrowth.

Variable svc : services.

(** Whatever the services answer and however the turn ends, it keeps
    the entries of the cache. *)
Lemma process_step_kept (search_mode api_key : string) (use_cache : bool)
    (item : string) (st : state) :
  cache_kept st
    (final_state (process_step svc search_mode api_key use_cache item st)).
Proof.
  unfold process_step, bind.
  destruct (cached_result use_cache item st) as [e|] eqn:G.
  - assert (Hhit : cache_kept st (with_cache_hits (cache_hits st + 1) st))
      by (apply untouched_kept; split; reflexivity).
    destruct (String.eqb search_mode "doi").
    + destruct (process_doi_item_write_back svc item api_key use_cache st)
        as [H _]. now rewrite (H e G).
    + destruct (process_title_item_write_back svc item api_key use_cache st)
        as [H _]. now rewrite (H e G).
  - destruct (String.eqb search_mode "doi").
    + destruct (process_doi_item_write_back svc item api_key use_cache st)
        as [_ H]. specialize (H G).
      destruct (search_scopus_api svc item api_key st)
        as [[title scopus_id] st1|e st1].
      * destruct (truthy scopus_id).
        -- destruct H as (st' & -> & Hw). simpl.
           eapply written_kept; eassumption.
        -- destruct (process_doi_item svc item api_key use_cache st)
             as [r st'|e st']; simpl.
           ++ apply untouched_kept, H.
           ++ apply untouched_kept, H.
      * destruct H as [-> ->]. simpl. apply cache_kept_refl.
    + destruct (process_title_item_write_back svc item api_key use_cache st)
        as [_ H]. specialize (H G).
      destruct (search_scopus_api_title svc item api_key st)
        as [[[title scopus_id] doi] st1|e st1].
      * destruct (truthy scopus_id).
        -- destruct H as (st' & -> & Hw). simpl.
           eapply written_kept; eassumption.
        -- destruct (process_title_item svc item api_key use_cache st)
             as [r st'|e st']; simpl.
           ++ apply untouched_kept, H.
           ++ apply untouched_kept, H.
      * destruct H as [-> ->]. simpl. apply cache_kept_refl.
Qed.

Lemma checkpointed_kept (search_mode : string) (oc ai i : nat)
    (results : list row) (st : state) :
  cache_kept st (checkpointed search_mode oc ai i results st).
Proof.
  apply untouched_kept.
  destruct (checkpointed_frame search_mode oc ai i results st) as (_ & Hc & Hcf).
  now split.
Qed.

Lemma main_loop_kept (search_mode api_key : string) (use_cache : bool)
    (start_index original_count : nat) :
  forall (items : list string) (i : nat) (results : list row) (st : state),
    cache_kept st
      (final_state
         (main_loop svc search_mode api_key use_cache start_index original_count
            items i results st).2).
Proof.
  induction items as [|item rest IH]; intros i results st.
  - simpl. apply cache_kept_refl.
  - rewrite main_loop_cons.
    destruct (interrupt_flag st); [simpl; apply cache_kept_refl|].
    pose proof (process_step_kept search_mode api_key use_cache item st) as Hstep.
    destruct (process_step svc search_mode api_key use_cache item st)
      as [r st1|e st1]; simpl in Hstep; [|exact Hstep].
    eapply cache_kept_trans; [exact Hstep|].
    eapply cache_kept_trans; [|apply IH].
    apply checkpointed_kept.
Qed.

Lemma save_final_results_kept (results : list row) (search_mode : string)
    (st : state) :
  cache_kept st (final_state (save_final_results results search_mode st)).
Proof.
  apply untouched_kept.
  destruct (save_final_results_cache results search_mode st) as [Hc Hcf].
  now split.
Qed.

Lemma finish_run_cache (api_key search_mode : string) (use_cache : bool)
    (start_index oc : nat) (existing : list row) (items : list string)
    (st : state) :
  cache_kept st
    (final_state (finish_run svc api_key search_mode use_cache
                    start_index oc existing items st)).
Proof.
  unfold finish_run. destruct items as [|y l].
  - destruct existing as [|r rs]; [apply cache_kept_refl|].
    apply save_final_results_kept.
  - pose proof (main_loop_kept search_mode api_key use_cache start_index oc
                  (y :: l) 1 existing st) as Hloop.
    destruct (main_loop svc search_mode api_key use_cache start_index oc
                (y :: l) 1 existing st) as [results [[] st1|e st1]];
      simpl in Hloop.
    + eapply cache_kept_trans; [exact Hloop|apply save_final_results_kept].
    + pose proof (save_final_results_kept results search_mode st1) as Hsave.
      assert (Hend : cache_kept st
                       (final_state (save_final_results results search_mode st1)))
        by (eapply cache_kept_trans; eassumption).
      destruct e; [exact Hend| | |];
        destruct (save_final_results results search_mode st1); exact Hend.
Qed.

End CacheGrowth.

(** X20: short of failing writes and of a signal (a write of the cache
    file is taken to succeed, and no signal arrives during the run), a
    run removes or replaces no entry of the cache file unless it is the
    run of [--clear-cache]: whatever the switches and the input,
    whatever the services answer (an answer on which a lookup raises
    included) and whether the run ends normally or with an exception,
    every entry that the cache file held before the run is in it
    afterwards, unchanged. *)
Theorem run_keeps_cache_entries :
  forall (svc : services) (a : args) (inp : inputs) (st : state) (now : nat),
    arg_cache_stats a = true \/ arg_clear_cache a = false ->
    _load_cache st ⊆ _load_cache (final_state (run svc a inp st now)).
Proof.
  intros net a inp st now Hc.
  destruct (arg_cache_stats a) eqn:E1.
  { unfold run, main, bind, modify. rewrite E1. reflexivity. }
  destruct Hc as [Hc|E2]; [discriminate|].
  destruct (arg_reset_key a) eqn:E3.
  { unfold run, main, bind, modify. rewrite E1, E2, E3. reflexivity. }
  destruct (scopus_key inp) as [|c key] eqn:E4.
  { unfold run, main, bind, modify. rewrite E1, E2, E3, E4. reflexivity. }
  destruct (arg_test_key a) eqn:E5.
  { unfold run, main, bind, modify. rewrite E1, E2, E3, E4, E5. reflexivity. }
  destruct (arg_doi a || arg_title a) eqn:E6.
  2:{ unfold run, main, bind, modify. rewrite E1, E2, E3, E4, E5.
      apply orb_false_elim in E6 as [-> ->]. reflexivity. }
  assert (Hk : scopus_key inp <> EmptyString) by (rewrite E4; discriminate).
  destruct (input_of a inp) as [lines|] eqn:E7.
  2:{ unfold run.
      rewrite (main_loads net a inp None _ (conj E1 (conj E2 (conj E3 (conj Hk
                 (conj E5 (conj E6 E7))))))).
      reflexivity. }
  destruct (arg_dry_run a) eqn:E8.
  { unfold run.
    rewrite (main_loads net a inp (Some lines) _
               (conj E1 (conj E2 (conj E3 (conj Hk (conj E5 (conj E6 E7))))))), E8.
    simpl. destruct (prepared_frame a lines (start_process st now))
      as (_ & _ & Pcf & _).
    unfold _load_cache at 2. rewrite Pcf. reflexivity. }
  destruct (run_processes net a inp lines st now
              (conj E1 (conj E2 (conj E3 (conj Hk (conj E5 (conj E6 (conj E8 E7))))))))
    as (st0 & -> & Hf & _ & Hs & <- & _).
  destruct (finish_run_cache net (scopus_key inp) (mode_of a)
              (negb (arg_no_cache a)) (restored_index (restored a st))
              (length (loaded_items lines)) (restored_results (restored a st))
              (items_to_process a lines st) st0) as [Hsub Hsync].
  rewrite (Hsync Hs), Hs. exact Hsub.
Qed.

(** A run in title mode that ends with the exception of the fallback
    lookup, after the item before it was found and cached. *)
Example run_raises_on_null_doi :
  exists st' : state,
    run null_doi_services title_args
      {| dois_txt := None; titles_txt := Some ["A known title"; "A study of things"];
         scopus_key := "key" |} idle_state 100
    = Raise AttributeError st'
    /\ size (_load_cache st') = 1.
Proof. eexists. split; vm_compute; reflexivity. Qed.

Lemma run_keeps_cache_entries_witness :
  _load_cache idle_state
  ⊆ _load_cache
      (final_state (run sample_network sample_args sample_inputs idle_state 100))
  /\ _load_cache idle_state
     ⊆ _load_cache
         (final_state
            (run null_doi_services title_args
               {| dois_txt := None; titles_txt := Some ["A known title"; "A study of things"];
                  scopus_key := "key" |} idle_state 100)).
Proof.
  split.
  - apply (run_keeps_cache_entries sample_network sample_args sample_inputs
             idle_state 100).
    right. reflexivity.
  - apply (run_keeps_cache_entries null_doi_services title_args
             {| dois_txt := None; titles_txt := Some ["A known title"; "A study of things"];
                scopus_key := "key" |} idle_state 100).
    right. reflexivity.
Defined.

Lemma take_min {A : Type} (k : nat) (l : list A) :
  take k l = take (k `min` length l) l.
Proof.
  destruct (Nat.le_ge_cases k (length l)) as [H|H].
  - now rewrite Nat.min_l.
  - rewrite Nat.min_r by exact H. now rewrite !take_ge by lia.
Qed.

(** X21: what [--limit] selects.  Without the switch, and with
    [--limit 0] (a zero limit is falsy), the run processes every item
    from the start index on; [main] cannot tell the two apart.  A
    positive limit selects the first [n] of these items.  A negative
    limit is passed to the slice as it is: from the start of the list it
    drops the last [-n] items, and after a resume whose start index is
    at least [-n] it selects nothing. *)
Theorem limit_selects_items :
  (forall (net : network) (a : args) (inp : inputs) (st : state),
      main net (with_limit_resume (Some 0%Z) (arg_resume a) a) inp st
      = main net (with_limit_resume None (arg_resume a) a) inp st)
  /\ (forall (start_index : nat) (items : list string),
         cut_items None start_index items = drop start_index items
         /\ cut_items (Some 0%Z) start_index items = drop start_index items
         /\ (forall n : Z, (0 < n)%Z ->
               cut_items (Some n) start_index items
               = take (Z.to_nat n) (drop start_index items))
         /\ (forall n : Z, (n < 0)%Z ->
               cut_items (Some n) 0 items
               = take (length items - Z.to_nat (- n)) items)
         /\ (forall n : Z, (n < 0)%Z -> (0 <= Z.of_nat start_index + n)%Z ->
               cut_items (Some n) start_index items = [])).
Proof.
  split; [reflexivity|]. intros start_index items.
  split; [reflexivity|]. split; [reflexivity|].
  unfold cut_items, slice, slice_from. split; [|split].
  - intros n Hn. destruct (Z.eqb_spec n 0) as [->|_]; [lia|].
    destruct (Z.ltb_spec (Z.of_nat start_index + n) 0) as [H|_]; [lia|].
    rewrite take_min, (take_min (Z.to_nat n)). f_equal.
    rewrite length_drop. lia.
  - intros n Hn. destruct (Z.eqb_spec n 0) as [->|_]; [lia|].
    destruct (Z.ltb_spec (Z.of_nat 0 + n) 0) as [_|H]; [|lia].
    rewrite drop_0. f_equal. lia.
  - intros n Hn Hs. destruct (Z.eqb_spec n 0) as [->|_]; [lia|].
    destruct (Z.ltb_spec (Z.of_nat start_index + n) 0) as [H|_]; [lia|].
    replace (Z.to_nat _ - start_index) with 0 by lia. reflexivity.
Qed.

Lemma limit_selects_items_witness :
  cut_items (Some 2%Z) 1 ["a"; "b"; "c"; "d"] = ["b"; "c"]
  /\ cut_items (Some (-1)%Z) 0 ["a"; "b"; "c"; "d"] = ["a"; "b"; "c"]
  /\ cut_items (Some (-1)%Z) 2 ["a"; "b"; "c"; "d"] = [].
Proof.
  destruct limit_selects_items as [_ H].
  split; [|split].
  - exact (proj1 (proj2 (proj2 (H 1 ["a"; "b"; "c"; "d"]))) 2%Z eq_refl).
  - exact (proj1 (proj2 (proj2 (proj2 (H 0 ["a"; "b"; "c"; "d"])))) (-1)%Z eq_refl).
  - exact (proj2 (proj2 (proj2 (proj2 (H 2 ["a"; "b"; "c"; "d"])))) (-1)%Z eq_refl
             ltac:(discriminate)).
Defined.

(* ================================================================== *)
(** ** The API key file and the ignore file *)
(* ================================================================== *)

(** The text that reading a file in text mode gives (universal
    newlines): every ["\r\n"] and every other ["\r"] is read as
    ["\n"]. *)
Fixpoint universal_newlines (s : string) : string :=
  match s with
  | EmptyString => EmptyString
  | String c r =>
      if Ascii.eqb c "013"
      then String "010"
             match r with
             | String c' r' =>
                 if Ascii.eqb c' "010"
                 then universal_newlines r'
                 else universal_newlines r
             | EmptyString => EmptyString
             end
      else String c (universal_newlines r)
  end.

(** [load_or_prompt_scopus_key], on the content of the key file ([None]:
    no file) and the line typed at the prompt; it returns the key and
    the key file as it is afterwards.  The prompt is read only when the
    file holds no key.  Reading and writing the file are taken to
    succeed. *)
Definition load_or_prompt_scopus_key (key_file : option string) (typed : string)
  : string * option string :=
  let stored := match key_file with
                | Some content => strip (universal_newlines content)
                | None => EmptyString
                end in
  match stored with
  | String _ _ => (stored, key_file)
  | EmptyString =>
      let api_key := strip typed in
      match api_key with
      | EmptyString => (api_key, key_file)
      | String _ _ => (api_key, Some api_key)
      end
  end.

(** [sub in s] *)
Fixpoint contains (sub s : string) : bool :=
  startswith sub s
  || match s with
     | EmptyString => false
     | String _ r => contains sub r
     end.

(** [s.endswith(p)] *)
Fixpoint endswith (p s : string) : bool :=
  String.eqb p s
  || match s with
     | EmptyString => false
     | String _ r => endswith p r
     end.

Definition newline : string := String "010" EmptyString.

(** The two [write] calls of the loop over [new_entries]. *)
Fixpoint entry_lines (new_entries : list string) : string :=
  match new_entries with
  | [] => EmptyString
  | entry :: rest => entry +:+ newline +:+ entry_lines rest
  end.

(** [create_gitignore_entry], on the content of [.gitignore] ([None]: no
    file); it returns the file as it is afterwards.  The content is
    read in text mode; opening for append creates the file and writes
    behind what it holds. *)
Definition create_gitignore_entry (gitignore : option string) : option string :=
  let entries := [".scopus_api_key"; ".scopus_cache.json"] in
  let existing_content := match gitignore with
                          | Some content => universal_newlines content
                          | None => EmptyString
                          end in
  let new_entries :=
    filter (fun entry => contains entry existing_content = false) entries in
  match new_entries with
  | [] => gitignore
  | _ =>
      Some (match gitignore with
            | Some content => content
            | None => EmptyString
            end
            +:+ (match existing_content with
                 | EmptyString => EmptyString
                 | _ => if negb (endswith newline existing_content)
                        then newline else EmptyString
                 end)
            +:+ entry_lines new_entries)
  end.

(** X22: what [load_or_prompt_scopus_key] returns and saves.  A key
    file that holds a key (its text, trimmed, is not empty) is returned
    without reading the prompt, and the file is left as it is.
    Otherwise the typed line is trimmed: if something is left, that is
    the key returned and it is what the key file holds afterwards; if
    nothing is left, the empty key is returned and the file is left as
    it is.  The key returned is trimmed.  A non-empty key that came
    from the file, or that holds no carriage return, is what every
    later call returns, whatever is typed then, and those calls leave
    the file alone. *)
Theorem load_or_prompt_scopus_key_persists :
  forall (key_file : option string) (typed : string),
    let stored := strip (universal_newlines (default EmptyString key_file)) in
    let key := (load_or_prompt_scopus_key key_file typed).1 in
    let key_file' := (load_or_prompt_scopus_key key_file typed).2 in
    (stored <> EmptyString -> key = stored /\ key_file' = key_file)
    /\ (stored = EmptyString -> strip typed <> EmptyString ->
        key = strip typed /\ key_file' = Some (strip typed))
    /\ (stored = EmptyString -> strip typed = EmptyString ->
        key = EmptyString /\ key_file' = key_file)
    /\ strip key = key
    /\ (key <> EmptyString ->
        stored <> EmptyString \/ universal_newlines key = key ->
        forall typed' : string,
          load_or_prompt_scopus_key key_file' typed' = (key, key_file')).
Proof.
  intros key_file typed stored key key_file'. subst stored key key_file'.
  unfold load_or_prompt_scopus_key.
  assert (Hs : match key_file with
               | Some content => strip (universal_newlines content)
               | None => EmptyString
               end = strip (universal_newlines (default EmptyString key_file)))
    by (now destruct key_file).
  rewrite Hs. clear Hs.
  destruct (strip (universal_newlines (default EmptyString key_file)))
    as [|c r] eqn:Ec.
  - destruct (strip typed) as [|c' r'] eqn:Et; simpl.
    + repeat split; congruence.
    + rewrite <- Et, strip_idem, Et.
      split; [congruence|]. split; [auto|]. split; [congruence|].
      split; [reflexivity|].
      intros _ [H|H] typed'; [congruence|].
      rewrite H, <- Et, strip_idem, Et. reflexivity.
  - simpl. rewrite <- Ec, strip_idem, Ec.
    split; [auto|]. split; [congruence|]. split; [congruence|].
    split; [reflexivity|].
    intros _ _ typed'.
    destruct key_file as [content|]; [|discriminate].
    simpl in Ec. now rewrite Ec.
Qed.

Lemma load_or_prompt_scopus_key_persists_witness :
  ((load_or_prompt_scopus_key None " abc123 ").1 = "abc123"
   /\ (load_or_prompt_scopus_key None " abc123 ").2 = Some "abc123")
  /\ load_or_prompt_scopus_key (Some "abc123") "another key"
     = ("abc123", Some "abc123").
Proof.
  split.
  - exact (proj1 (proj2 (load_or_prompt_scopus_key_persists None " abc123 "))
             eq_refl ltac:(vm_compute; discriminate)).
  - exact (proj2 (proj2 (proj2 (proj2
             (load_or_prompt_scopus_key_persists None " abc123 "))))
             ltac:(vm_compute; discriminate) (or_intror eq_refl) "another key").
Defined.

Lemma startswith_app (p a b : string) :
  startswith p a = true -> startswith p (a +:+ b) = true.
Proof.
  revert a. induction p as [|x p IH]; intros a H; [reflexivity|].
  destruct a as [|y a]; [discriminate|]. simpl in *.
  destruct (Ascii.eqb x y); [now apply IH | discriminate].
Qed.

Lemma contains_app_l (p a b : string) :
  contains p a = true -> contains p (a +:+ b) = true.
Proof.
  induction a as [|y a IH]; simpl; intros H.
  - destruct p; [|discriminate]. destruct b; reflexivity.
  - apply orb_true_iff in H as [H|H].
    + apply orb_true_iff. left.
      now apply (startswith_app p (String y a) b).
    + apply orb_true_iff. right. now apply IH.
Qed.

Lemma contains_app_r (p a b : string) :
  contains p b = true -> contains p (a +:+ b) = true.
Proof.
  induction a as [|y a IH]; simpl; intros H; [exact H|].
  apply orb_true_iff. right. now apply IH.
Qed.

(** No character of the string is a carriage return or a line feed. *)
Fixpoint no_newline (s : string) : bool :=
  match s with
  | EmptyString => true
  | String c r => negb (Ascii.eqb c "013") && negb (Ascii.eqb c "010") && no_newline r
  end.

Lemma startswith_universal (e : string) :
  no_newline e = true ->
  forall s : string, startswith e (universal_newlines s) = startswith e s.
Proof.
  induction e as [|a e IH]; intros He s;
    [destruct (universal_newlines s); destruct s; reflexivity|].
  simpl in He. apply andb_true_iff in He as [Ha He].
  apply andb_true_iff in Ha as [Hcr Hlf].
  apply negb_true_iff in Hcr, Hlf.
  destruct s as [|c r]; [reflexivity|].
  cbn [universal_newlines].
  destruct (Ascii.eqb_spec c "013") as [->|Hc].
  - cbn [startswith]. now rewrite Hcr, Hlf.
  - cbn [startswith]. destruct (Ascii.eqb a c); [now apply IH|reflexivity].
Qed.

Lemma contains_universal (e : string) (a : ascii) (e' : string) :
  e = String a e' ->
  no_newline e = true ->
  forall s : string, contains e (universal_newlines s) = contains e s.
Proof.
  intros -> He.
  assert (Hhead : forall c s, (c = "013"%char \/ c = "010"%char) ->
                    startswith (String a e') (String c s) = false).
  { intros c s Hc. simpl in He. apply andb_true_iff in He as [Ha _].
    apply andb_true_iff in Ha as [Hcr Hlf].
    apply negb_true_iff in Hcr, Hlf. cbn [startswith].
    destruct Hc as [-> | ->]; [now rewrite Hcr | now rewrite Hlf]. }
  assert (Hlen : forall n s, String.length s <= n ->
                   contains (String a e') (universal_newlines s)
                   = contains (String a e') s).
  { induction n as [|n IH]; intros s Hs.
    - destruct s; [reflexivity|simpl in Hs; lia].
    - destruct s as [|c r]; [reflexivity|]. simpl in Hs.
      cbn [universal_newlines].
      destruct (Ascii.eqb_spec c "013") as [->|Hc].
      + cbn [contains]. rewrite !Hhead by auto. cbn [orb].
        destruct r as [|c' r']; [reflexivity|].
        destruct (Ascii.eqb_spec c' "010") as [->|Hc'].
        * cbn [contains]. rewrite Hhead by auto. cbn [orb].
          apply IH. simpl in Hs. lia.
        * apply IH. lia.
      + pose proof (startswith_universal (String a e') He (String c r)) as Hsw.
        cbn [universal_newlines] in Hsw.
        rewrite (proj2 (Ascii.eqb_neq c "013") Hc) in Hsw.
        cbn [contains]. rewrite Hsw. f_equal. apply IH. lia. }
  intros s. now apply (Hlen (String.length s)).
Qed.

(** The entry is in the text that is appended, with or without the
    separating newline. *)
Ltac added_line :=
  repeat match goal with
         | |- context [match ?x with EmptyString => _ | String _ _ => _ end] =>
             destruct x
         | |- context [if ?b then _ else _] => destruct b
         end;
  reflexivity.

(** X23: after [create_gitignore_entry] the ignore file exists, starts
    with all it held before, and contains both [.scopus_api_key] and
    [.scopus_cache.json]; calling it again changes nothing, and a file
    that already contains both names is not written at all. *)
Theorem create_gitignore_entry_adds_missing :
  forall gitignore : option string,
    let existing := default EmptyString gitignore in
    exists added : string,
      create_gitignore_entry gitignore = Some (existing +:+ added)
      /\ contains ".scopus_api_key" (existing +:+ added) = true
      /\ contains ".scopus_cache.json" (existing +:+ added) = true
      /\ create_gitignore_entry (Some (existing +:+ added))
         = Some (existing +:+ added)
      /\ (contains ".scopus_api_key" existing
          && contains ".scopus_cache.json" existing = true ->
          create_gitignore_entry gitignore = gitignore).
Proof.
  intros gitignore existing.
  assert (U1 : forall s, contains ".scopus_api_key" (universal_newlines s)
                         = contains ".scopus_api_key" s)
    by (now apply (contains_universal _ "." "scopus_api_key")).
  assert (U2 : forall s, contains ".scopus_cache.json" (universal_newlines s)
                         = contains ".scopus_cache.json" s)
    by (now apply (contains_universal _ "." "scopus_cache.json")).
  assert (Hread : forall entry : string,
             contains entry match gitignore with
                            | Some content => universal_newlines content
                            | None => EmptyString
                            end
             = contains entry (universal_newlines existing))
    by (now destruct gitignore).
  assert (He : match gitignore with
               | Some content => content
               | None => EmptyString
               end = existing) by (now destruct gitignore).
  assert (Hkeep : forall c : string,
             contains ".scopus_api_key" c = true ->
             contains ".scopus_cache.json" c = true ->
             create_gitignore_entry (Some c) = Some c).
  { intros c H1 H2. unfold create_gitignore_entry.
    rewrite !filter_cons, filter_nil. rewrite U1, U2, H1, H2. simpl. reflexivity. }
  assert (Hadd : forall added : string,
             create_gitignore_entry gitignore = Some (existing +:+ added) ->
             contains ".scopus_api_key" (existing +:+ added) = true ->
             contains ".scopus_cache.json" (existing +:+ added) = true ->
             (contains ".scopus_api_key" existing
              && contains ".scopus_cache.json" existing = true ->
              create_gitignore_entry gitignore = gitignore) ->
             exists added : string,
               create_gitignore_entry gitignore = Some (existing +:+ added)
               /\ contains ".scopus_api_key" (existing +:+ added) = true
               /\ contains ".scopus_cache.json" (existing +:+ added) = true
               /\ create_gitignore_entry (Some (existing +:+ added))
                  = Some (existing +:+ added)
               /\ (contains ".scopus_api_key" existing
                   && contains ".scopus_cache.json" existing = true ->
                   create_gitignore_entry gitignore = gitignore)).
  { intros added E H1 H2 H3. exists added. repeat split; auto. }
  destruct (contains ".scopus_api_key" existing) eqn:C1;
    destruct (contains ".scopus_cache.json" existing) eqn:C2.
  - destruct gitignore as [c|]; [|discriminate]. simpl in existing.
    apply (Hadd EmptyString); rewrite ?app_empty_r; auto.
  - eapply Hadd.
    + unfold create_gitignore_entry.
      rewrite !filter_cons, filter_nil, !Hread, U1, U2, C1, C2, He. simpl.
      reflexivity.
    + now apply contains_app_l.
    + apply contains_app_r. added_line.
    + discriminate.
  - eapply Hadd.
    + unfold create_gitignore_entry.
      rewrite !filter_cons, filter_nil, !Hread, U1, U2, C1, C2, He. simpl.
      reflexivity.
    + apply contains_app_r. added_line.
    + now apply contains_app_l.
    + discriminate.
  - eapply Hadd.
    + unfold create_gitignore_entry.
      rewrite !filter_cons, filter_nil, !Hread, U1, U2, C1, C2, He. simpl.
      reflexivity.
    + apply contains_app_r. added_line.
    + apply contains_app_r. added_line.
    + discriminate.
Qed.

Example create_gitignore_entry_appends :
  create_gitignore_entry (Some "node_modules")
  = Some ("node_modules" +:+ newline +:+ ".scopus_api_key" +:+ newline
          +:+ ".scopus_cache.json" +:+ newline)
  /\ create_gitignore_entry None
     = Some (".scopus_api_key" +:+ newline +:+ ".scopus_cache.json" +:+ newline).
Proof. split; reflexivity. Qed.

(* ================================================================== *)
(** ** The DOI that the title search of the fallback service returns *)
(* ================================================================== *)

Lemma replace_absent (old new s : string) :
  contains old s = false -> replace old new s = s.
Proof.
  unfold replace. induction s as [|c r IH]; [reflexivity|].
  intros H. simpl in H. apply orb_false_elim in H as [H1 H2].
  change (replace_go old new 0 (String c r))
    with (if startswith old (String c r)
          then new +:+ replace_go old new (String.length old - 1) r
          else String c (replace_go old new 0 r)).
  rewrite H1, IH by exact H2. reflexivity.
Qed.

Lemma replace_doi_url (d : string) :
  replace "https://doi.org/" EmptyString ("https://doi.org/" +:+ d)
  = replace "https://doi.org/" EmptyString d.
Proof. reflexivity. Qed.

(** X24: when the title search of the fallback service answers with a
    work whose DOI is the resolver address [https://doi.org/] followed
    by a DOI that does not itself contain that address, the lookup
    returns the work's title and the bare DOI, and counts one request
    and no error. *)
Theorem search_openalex_title_strips_doi_url :
  forall (net : network) (title d : string) (result : openalex_result)
         (rest : list openalex_result) (st : state),
    interrupt_flag st = false ->
    openalex_by_title net title = Response 200 (result :: rest) ->
    oa_ids_doi result = Some ("https://doi.org/" +:+ d) ->
    contains "https://doi.org/" d = false ->
    search_openalex_title net title st
    = Ok (oa_title result, Some d) (with_requests_made (requests_made st + 1) st).
Proof.
  intros net title d result rest st Hf Hr Hd Hc.
  assert (E : replace "https://doi.org/" EmptyString ("https://doi.org/" +:+ d) = d)
    by (rewrite replace_doi_url; now apply replace_absent).
  unfold_call. rewrite Hf, Hr, Hd. simpl. do 3 f_equal. exact E.
Qed.

(** A fallback service that knows one work. *)
Definition openalex_network : network :=
  {| scopus_by_doi := fun _ _ => Response 200 [];
     openalex_by_doi := fun _ => Response 404 None;
     scopus_by_title := fun _ _ => Response 200 [];
     openalex_by_title := fun _ =>
       Response 200 [{| oa_title := Some "A study of things";
                        oa_ids_doi := Some "https://doi.org/10.1000/things" |}] |}.

Lemma search_openalex_title_strips_doi_url_witness :
  search_openalex_title openalex_network "a study of things" idle_state
  = Ok (Some "A study of things", Some "10.1000/things")
       (with_requests_made 1 idle_state).
Proof.
  exact (search_openalex_title_strips_doi_url openalex_network "a study of things"
           "10.1000/things"
           {| oa_title := Some "A study of things";
              oa_ids_doi := Some "https://doi.org/10.1000/things" |}
           [] idle_state eq_refl eq_refl eq_refl eq_refl).
Defined.

(* ================================================================== *)
(** ** Running the same command again *)
(* ================================================================== *)


(** The row carries a Scopus ID, as [if scopus_id] tests it. *)
Definition found (r : row) : Prop := truthy (row_scopus_id r) = true.



Section Rerun.

Variable net : network.





End Rerun.




(* ================================================================== *)
(** ** Running without the cache *)
(* ================================================================== *)

(** The cache, its file and the cache-hit counter are the same in both
    states; the summary of [st'] is that of [st] or a new one that
    shows the cache hits of [st]. *)
Definition cache_untouched (st st' : state) : Prop :=
  cache st' = cache st
  /\ cache_file st' = cache_file st
  /\ cache_hits st' = cache_hits st.

Lemma save_final_results_untouched (results : list row) (search_mode : string)
    (st : state) :
  let st' := final_state (save_final_results results search_mode st) in
  cache_untouched st st'
  /\ (printed_summary st' = printed_summary st
      \/ exists s, printed_summary st' = Some s /\ sm_cache_hits s = cache_hits st).
Proof.
  unfold save_final_results, bind, modify, raise, cache_untouched.
  destruct results; simpl; repeat split; eauto.
Qed.

Section NoCache.

Variable net : network.

Lemma process_step_no_cache (search_mode api_key item : string) (st : state) :
  interrupt_flag st = false ->
  exists (r : row) (st' : state),
    process_step net search_mode api_key false item st = Ok r st'
    /\ interrupt_flag st' = false
    /\ cache_untouched st st'
    /\ printed_summary st' = printed_summary st.
Proof.
  intros Hf. unfold process_step, bind, cache_untouched.
  destruct (String.eqb search_mode "doi").
  - destruct (process_doi_item_lookup net item api_key false st eq_refl Hf)
      as (r & st' & E & _ & _ & Heff).
    pose proof (process_doi_item_cache net item api_key false st) as Hc.
    rewrite E in *. destruct Hc as [[Hc Hcf] _].
    destruct Heff as (Hf' & _ & _ & _ & Hh & _ & _ & _ & Hp).
    eexists _, _. split; [reflexivity|]. auto 10.
  - destruct (process_title_item_lookup net item api_key false st eq_refl Hf)
      as (r & st' & E & _ & _ & Heff).
    pose proof (process_title_item_cache net item api_key false st) as Hc.
    rewrite E in *. destruct Hc as [[Hc Hcf] _].
    destruct Heff as (Hf' & _ & _ & _ & Hh & _ & _ & _ & Hp).
    eexists _, _. split; [reflexivity|]. auto 10.
Qed.

Lemma checkpointed_untouched (search_mode : string) (oc ai i : nat)
    (results : list row) (st : state) :
  cache_untouched st (checkpointed search_mode oc ai i results st)
  /\ printed_summary (checkpointed search_mode oc ai i results st)
     = printed_summary st.
Proof.
  unfold checkpointed, cache_untouched. destruct (_ =? _)%nat; simpl; auto.
Qed.

Lemma main_loop_no_cache (search_mode api_key : string)
    (start_index original_count : nat) :
  forall (items : list string) (i : nat) (results : list row) (st : state),
    interrupt_flag st = false ->
    exists (rows : list row) (st' : state),
      main_loop net search_mode api_key false start_index original_count
        items i results st = (rows, Ok tt st')
      /\ cache_untouched st st'
      /\ printed_summary st' = printed_summary st.
Proof.
  induction items as [|item rest IH]; intros i results st Hf.
  - exists results, st. unfold cache_untouched. simpl. auto.
  - rewrite main_loop_cons, Hf.
    destruct (process_step_no_cache search_mode api_key item st Hf)
      as (r & st1 & -> & Hf1 & (Hc1 & Hcf1 & Hh1) & Hp1).
    pose proof (checkpointed_frame search_mode original_count (start_index + i) i
                  (results ++ [r]) st1) as (Ef & _ & _).
    destruct (checkpointed_untouched search_mode original_count (start_index + i)
                i (results ++ [r]) st1) as ((Hc2 & Hcf2 & Hh2) & Hp2).
    destruct (IH (S i) (results ++ [r]) _ (eq_trans Ef Hf1))
      as (rows & st' & -> & (Hc3 & Hcf3 & Hh3) & Hp3).
    exists rows, st'. unfold cache_untouched.
    repeat split; congruence.
Qed.

Lemma finish_run_no_cache (api_key search_mode : string)
    (start_index oc : nat) (existing : list row) (items : list string)
    (st : state) :
  interrupt_flag st = false ->
  let st' := final_state (finish_run net api_key search_mode false
                            start_index oc existing items st) in
  cache_untouched st st'
  /\ (printed_summary st' = printed_summary st
      \/ exists s, printed_summary st' = Some s /\ sm_cache_hits s = cache_hits st).
Proof.
  intros Hf st'. subst st'. unfold finish_run.
  destruct items as [|y l].
  - destruct existing as [|r rs].
    + unfold cache_untouched. simpl. auto.
    + apply save_final_results_untouched.
  - destruct (main_loop_no_cache search_mode api_key start_index oc (y :: l) 1
                existing st Hf) as (rows & st1 & -> & (Hc & Hcf & Hh) & Hp).
    destruct (save_final_results_untouched rows search_mode st1)
      as ((Hc' & Hcf' & Hh') & Hp').
    unfold cache_untouched. rewrite <- Hc, <- Hcf, <- Hh, <- Hp. auto.
Qed.

End NoCache.

(** X26: with [--no-cache] a run neither reads nor writes the cache:
    however it ends, the cache file is as it was before the run, no
    cache hit is counted, and a summary, if one is printed, shows zero
    cache hits. *)
Theorem no_cache_bypasses_the_cache :
  forall (net : network) (a : args) (inp : inputs) (lines : list string)
         (st : state) (now : nat),
    reaches_processing a inp lines ->
    arg_no_cache a = true ->
    let st' := final_state (run net a inp st now) in
    cache_file st' = cache_file st
    /\ cache_hits st' = 0
    /\ (forall s, printed_summary st' = Some s -> sm_cache_hits s = 0).
Proof.
  intros net a inp lines st now Hr Hnc st'. subst st'.
  destruct (run_processes net a inp lines st now Hr)
    as (st0 & -> & Hf0 & (_ & _ & Hh0) & _ & _ & Hcf0 & Hp0).
  rewrite Hnc. simpl negb.
  destruct (finish_run_no_cache net (scopus_key inp) (mode_of a)
              (restored_index (restored a st)) (length (loaded_items lines))
              (restored_results (restored a st)) (items_to_process a lines st)
              st0 Hf0) as ((_ & Hcf & Hh) & Hp).
  split; [congruence|]. split; [congruence|].
  intros s Hs. destruct Hp as [Hp|(s' & Hs' & Hh')]; congruence.
Qed.

(** The command line [--doi --no-cache]. *)
Definition no_cache_args : args :=
  {| arg_doi := true; arg_title := false; arg_limit := None; arg_workers := 3;
     arg_resume := false; arg_skip_duplicates := false; arg_no_cache := true;
     arg_dry_run := false; arg_test_key := false; arg_reset_key := false;
     arg_cache_stats := false; arg_clear_cache := false |}.

Lemma no_cache_bypasses_the_cache_witness :
  let st' := final_state
               (run sample_network no_cache_args sample_inputs idle_state 100) in
  cache_file st' = cache_file idle_state
  /\ cache_hits st' = 0
  /\ (forall s, printed_summary st' = Some s -> sm_cache_hits s = 0).
Proof.
  apply (no_cache_bypasses_the_cache sample_network no_cache_args sample_inputs
           sample_lines idle_state 100).
  - repeat split. discriminate.
  - reflexivity.
Defined.
